(** * sl-cli: response normalisation, stop resolution and origin precedence

    A shallow embedding of the normalisation core of sl-cli
    (api/journeyPlanner.ts, api/transport.ts, config.ts and the stop
    resolver of index.ts) together with the properties its specification
    states about it, and of the code around that core (the stop finder and
    the trip request, the nearest-stop scan, the commands next and config,
    the output of plan) with properties read off the code.

    JavaScript values are modelled as follows.
    - A string is the list of its UTF-16 code units.
    - A number is either an integer or NaN.  Every number the modelled code
      computes is a time value of a Date, a difference or a sum of such, or a
      rounded quotient of one; the numbers read from JSON (leg and trip
      durations) are taken to be whole seconds.  Match qualities and the
      numbers given on the command line are taken to be whole as well,
      except in [requestedTrips] and in [nextAction], which take any finite
      number as the rational it is; coordinates and distances are
      rationals.
    - A Date is its time value: milliseconds since the epoch, or NaN for an
      Invalid Date.
    - The parts of the JavaScript runtime that depend on Unicode tables or on
      the host (canonical decomposition, case mapping, the Date string
      parser) are the fields of the class [Runtime]; the theorems hold for
      every runtime, and [Host.runtime] is a concrete one that agrees with
      JavaScript on the strings used in the examples. *)

From Stdlib Require Import List ZArith NArith QArith Bool String Ascii Lia.
From Stdlib Require Import Sorted Permutation DecimalString.
Import ListNotations.
Open Scope Z_scope.

(** ** JavaScript strings and numbers *)

Module Js.

Definition str := list N.

(** An ASCII literal as a JavaScript string. *)
Definition lit (s : string) : str := map N_of_ascii (list_ascii_of_string s).

Fixpoint eqb (s t : str) : bool :=
  match s, t with
  | [], [] => true
  | c :: s', d :: t' => N.eqb c d && eqb s' t'
  | _, _ => false
  end.

(** [s.startsWith(t)] *)
Fixpoint startsWith (s t : str) : bool :=
  match t, s with
  | [], _ => true
  | _ :: _, [] => false
  | d :: t', c :: s' => N.eqb c d && startsWith s' t'
  end.

(** [s.includes(t)] *)
Fixpoint includes (s t : str) : bool :=
  startsWith s t ||
  match s with
  | [] => false
  | _ :: s' => includes s' t
  end.

(** WhiteSpace and LineTerminator code points of ECMAScript, the ones
    [String.prototype.trim] removes. *)
Definition isWhiteSpace (c : N) : bool :=
  ((9 <=? c) && (c <=? 13) || (c =? 32) || (c =? 160) || (c =? 5760)
   || (8192 <=? c) && (c <=? 8202) || (c =? 8232) || (c =? 8233)
   || (c =? 8239) || (c =? 8287) || (c =? 12288) || (c =? 65279))%N.

Fixpoint trimStart (s : str) : str :=
  match s with
  | c :: s' => if isWhiteSpace c then trimStart s' else s
  | [] => []
  end.

(** [s.trim()] *)
Definition trim (s : str) : str := rev (trimStart (rev (trimStart s))).

(** [/^\d+$/.test(s)] *)
Definition isDigit (c : N) : bool := ((48 <=? c) && (c <=? 57))%N.

Definition allDigits (s : str) : bool :=
  match s with
  | [] => false
  | _ => forallb isDigit s
  end.

(** Truthiness of a value of type [string | undefined]. *)
Definition truthy (o : option str) : bool :=
  match o with
  | Some (_ :: _) => true
  | _ => false
  end.

(** [a || b] on values of type [string | undefined]. *)
Definition or_else (a b : option str) : option str :=
  if truthy a then a else b.

(** [a || d] where [d] is a string. *)
Definition or_default (a : option str) (d : str) : str :=
  match a with
  | Some (c :: s) => c :: s
  | _ => d
  end.

(** [strs.join(sep)] *)
Fixpoint join (sep : str) (strs : list str) : str :=
  match strs with
  | [] => []
  | [s] => s
  | s :: rest => s ++ sep ++ join sep rest
  end.

(** Numbers: an integer or NaN. *)
Inductive num := Fin (z : Z) | NaN.

Definition add (a b : num) : num :=
  match a, b with
  | Fin x, Fin y => Fin (x + y)
  | _, _ => NaN
  end.

Definition sub (a b : num) : num :=
  match a, b with
  | Fin x, Fin y => Fin (x - y)
  | _, _ => NaN
  end.

(** [a < b] and [a > b]: false as soon as an operand is NaN. *)
Definition lt (a b : num) : bool :=
  match a, b with
  | Fin x, Fin y => x <? y
  | _, _ => false
  end.

Definition gt (a b : num) : bool := lt b a.

Definition ge (a b : num) : bool :=
  match a, b with
  | Fin x, Fin y => y <=? x
  | _, _ => false
  end.

(** [Math.round(a / d)] for a positive integer constant [d]: the quotient
    rounded to the nearest integer, a half rounding towards plus infinity.
    The code divides by 1000, 60 and 60000; for these, and for dividends of
    the size of a time value, the floating-point quotient rounds as the exact
    one does. *)
Definition roundDiv (a : num) (d : Z) : num :=
  match a with
  | Fin x => Fin ((2 * x + d) / (2 * d))
  | NaN => NaN
  end.

(** [Math.max(0, a)] *)
Definition max0 (a : num) : num :=
  match a with
  | Fin x => Fin (Z.max 0 x)
  | NaN => NaN
  end.

(** A Date, by its time value. *)
Record Date := mkDate { getTime : num }.

(** The result of a call that may throw. *)
Inductive outcome (A : Type) := Returns (a : A) | Throws.
Arguments Returns {A} a.
Arguments Throws {A}.

(** What the modelled code takes from the JavaScript runtime. *)
Class Runtime := {
  (** [s.normalize("NFD")] *)
  normalizeNFD : str -> str;
  (** [s.toUpperCase()] *)
  toUpperCase : str -> str;
  (** [s.toLowerCase()] *)
  toLowerCase : str -> str;
  (** [new Date(s)] *)
  newDate : str -> Date;
  normalizeNFD_empty : normalizeNFD [] = [];
  toUpperCase_empty : toUpperCase [] = [];
}.

End Js.

Notation "a ||| b" := (Js.or_else a b) (at level 50, left associativity).

(** ** A concrete runtime

    Case mapping on the ASCII letters and the accented letters of Latin-1,
    canonical decomposition of the accented letters of Swedish product
    names, and the Date parser on the ECMAScript date-time format with the
    UTC designator ([YYYY-MM-DDTHH:mm:ssZ] and [YYYY-MM-DDTHH:mm:ss.sssZ]).
    On strings made of ASCII characters and the ten letters of
    [decomposeUnit], and on date strings of that format or with no digit at
    all, it computes what JavaScript computes. *)

Module Host.

(** Lower-case letters: a to z, and a-grave to thorn without the division
    sign. *)
Definition upperUnit (c : N) : N :=
  if ((97 <=? c) && (c <=? 122)
      || (224 <=? c) && (c <=? 254) && negb (c =? 247))%N
  then (c - 32)%N else c.

(** Upper-case letters: A to Z, and A-grave to Thorn without the
    multiplication sign. *)
Definition lowerUnit (c : N) : N :=
  if ((65 <=? c) && (c <=? 90)
      || (192 <=? c) && (c <=? 222) && negb (c =? 215))%N
  then (c + 32)%N else c.

(** a-ring, a-diaeresis, o-diaeresis, e-acute and u-diaeresis, in both
    cases, as base letter and combining mark. *)
Definition decomposeUnit (c : N) : Js.str :=
  (if c =? 229 then [97; 778] else if c =? 228 then [97; 776]
   else if c =? 246 then [111; 776] else if c =? 233 then [101; 769]
   else if c =? 252 then [117; 776] else if c =? 197 then [65; 778]
   else if c =? 196 then [65; 776] else if c =? 214 then [79; 776]
   else if c =? 201 then [69; 769] else if c =? 220 then [85; 776]
   else [c])%N.

Definition digit (c : N) : option Z :=
  if Js.isDigit c then Some (Z.of_N c - 48) else None.

Fixpoint digits (acc : Z) (s : Js.str) : option Z :=
  match s with
  | [] => Some acc
  | c :: s' =>
      match digit c with
      | Some d => digits (10 * acc + d) s'
      | None => None
      end
  end.

Definition isLeap (y : Z) : bool :=
  ((y mod 4 =? 0) && negb (y mod 100 =? 0)) || (y mod 400 =? 0).

Definition daysInMonth (y m : Z) : Z :=
  if m =? 2 then (if isLeap y then 29 else 28)
  else if (m =? 4) || (m =? 6) || (m =? 9) || (m =? 11) then 30 else 31.

(** Days from 1970-01-01 to the given civil date. *)
Definition daysFromCivil (y m d : Z) : Z :=
  let y' := if m <=? 2 then y - 1 else y in
  let era := y' / 400 in
  let yoe := y' - era * 400 in
  let mp := (m + 9) mod 12 in
  let doy := (153 * mp + 2) / 5 + d - 1 in
  let doe := yoe * 365 + yoe / 4 - yoe / 100 + doy in
  era * 146097 + doe - 719468.

Definition field (s : Js.str) (from len : nat) : option Z :=
  let f := firstn len (skipn from s) in
  if Nat.eqb (List.length f) len then digits 0 f else None.

Definition unitAt (s : Js.str) (i : nat) : N := nth i s 0%N.

Definition parseIso (s : Js.str) : Js.num :=
  let n := List.length s in
  let seps :=
    ((unitAt s 4 =? 45) && (unitAt s 7 =? 45) && (unitAt s 10 =? 84)
     && (unitAt s 13 =? 58) && (unitAt s 16 =? 58))%N in
  let tail :=
    (Nat.eqb n 20 && (unitAt s 19 =? 90)%N)
    || (Nat.eqb n 24 && (unitAt s 19 =? 46)%N && (unitAt s 23 =? 90)%N) in
  let millis := if Nat.eqb n 24 then field s 20 3 else Some 0 in
  match field s 0 4, field s 5 2, field s 8 2,
        field s 11 2, field s 14 2, field s 17 2, millis with
  | Some y, Some mo, Some d, Some h, Some mi, Some se, Some ms =>
      if seps && tail && (1 <=? mo) && (mo <=? 12) && (1 <=? d)
         && (d <=? daysInMonth y mo) && (h <=? 23) && (mi <=? 59)
         && (se <=? 59)
      then Js.Fin ((((daysFromCivil y mo d * 24 + h) * 60 + mi) * 60 + se)
                   * 1000 + ms)
      else Js.NaN
  | _, _, _, _, _, _, _ => Js.NaN
  end.

#[export] Instance runtime : Js.Runtime := {|
  Js.normalizeNFD := fun s => flat_map decomposeUnit s;
  Js.toUpperCase := map upperUnit;
  Js.toLowerCase := map lowerUnit;
  Js.newDate := fun s => Js.mkDate (parseIso s);
  Js.normalizeNFD_empty := eq_refl;
  Js.toUpperCase_empty := eq_refl;
|}.

End Host.

(** ** api/journeyPlanner.ts *)

Module JourneyPlanner.
Import Js.

Inductive LegType := walk | metro | train | tram | bus | ship.

Record TripLeg := mkTripLeg {
  type : LegType;
  line : option str;
  direction : option str;
  departureTime : Date;
  arrivalTime : Date;
  durationSeconds : num;
  originName : str;
  destinationName : str;
  platform : option str;
}.

(** The fields [departureTime] and [arrivalTime] of a proposal are
    [tripDepartureTime] and [tripArrivalTime] here. *)
Record TripProposal := mkTripProposal {
  tripDepartureTime : Date;
  tripArrivalTime : Date;
  durationMinutes : num;
  walkToFirstLegSeconds : num;
  legs : list TripLeg;
  routeSummary : str;
}.

(** The raw records of the journey planner, with the types the code casts
    their fields to; [None] is [undefined].  A field the code tests with
    [typeof x === "number"] is [Some] of the number when the test holds. *)
Record RawProperties := mkRawProperties {
  platformName : option str;
  rawPlatform : option str;
}.

Record RawPoint := mkRawPoint {
  departureTimeEstimated : option str;
  departureTimePlanned : option str;
  departureTimeBaseTimetable : option str;
  arrivalTimeEstimated : option str;
  arrivalTimePlanned : option str;
  arrivalTimeBaseTimetable : option str;
  pointName : option str;
  properties : option RawProperties;
}.

Record RawTransportation := mkRawTransportation {
  productName : option (option str);   (* product, then product.name *)
  disassembledName : option str;
  number : option str;
  transportationName : option str;
  transportationDestination : option (option str); (* destination, then its name *)
}.

Record RawLeg := mkRawLeg {
  origin : option RawPoint;
  destination : option RawPoint;
  transportation : option RawTransportation;
  duration : option Z;
}.

Record RawJourney := mkRawJourney {
  rawLegs : option (list RawLeg);   (* [None]: not an array *)
  tripDuration : option Z;
}.

Definition isWalk (t : LegType) : bool :=
  match t with walk => true | _ => false end.

Definition typeName (t : LegType) : str :=
  match t with
  | walk => lit "walk" | metro => lit "metro" | train => lit "train"
  | tram => lit "tram" | bus => lit "bus" | ship => lit "ship"
  end.

(** [s.replace(/[\u0300-\u036f]/g, "")] *)
Definition stripCombiningMarks (s : str) : str :=
  filter (fun c => negb ((768 <=? c) && (c <=? 879))%N) s.

Definition mapTransportTypeV2 `{Runtime} (productName : str) : LegType :=
  let normalized := stripCombiningMarks (normalizeNFD productName) in
  let upper := toUpperCase normalized in
  if includes upper (lit "FOOTPATH") || includes upper (lit "FOOT")
     || includes upper (lit "WALK") then walk
  else if includes upper (lit "TUNNELBANA") || includes upper (lit "METRO")
  then metro
  else if includes upper (lit "PENDEL") || includes upper (lit "TAG")
          || includes upper (lit "TRAIN") then train
  else if includes upper (lit "SPARV") || includes upper (lit "TRAM")
  then tram
  else if includes upper (lit "BAT") || includes upper (lit "SHIP")
          || includes upper (lit "FERRY") then ship
  else if includes upper (lit "BUS") then bus
  else bus.

(** [a || undefined] *)
Definition or_undefined (a : option str) : option str :=
  if truthy a then a else None.

(** [o?.f] for an optional record [o] and a field [f]. *)
Definition opt_field {A B} (o : option A) (f : A -> option B) : option B :=
  match o with
  | Some a => f a
  | None => None
  end.

Definition parseLegV2 `{Runtime} (rawLeg : RawLeg) : option TripLeg :=
  match origin rawLeg, destination rawLeg, transportation rawLeg with
  | Some origin, Some destination, Some transportation =>
      let depTimeStr :=
        departureTimeEstimated origin ||| departureTimePlanned origin
        ||| departureTimeBaseTimetable origin in
      let arrTimeStr :=
        arrivalTimeEstimated destination ||| arrivalTimePlanned destination
        ||| arrivalTimeBaseTimetable destination in
      match depTimeStr, arrTimeStr with
      | Some (d :: ds), Some (a :: as_) =>
          let departureTime := newDate (d :: ds) in
          let arrivalTime := newDate (a :: as_) in
          let durationSeconds :=
            match duration rawLeg with
            | Some n => Fin n
            | None =>
                max0 (roundDiv (sub (getTime arrivalTime)
                                    (getTime departureTime)) 1000)
            end in
          let productName :=
            or_default (opt_field (productName transportation) id) [] in
          Some {|
            type := mapTransportTypeV2 productName;
            line := or_undefined (disassembledName transportation
                                  ||| number transportation
                                  ||| transportationName transportation);
            direction :=
              or_undefined
                (opt_field (transportationDestination transportation) id);
            departureTime := departureTime;
            arrivalTime := arrivalTime;
            durationSeconds := durationSeconds;
            originName := or_default (pointName origin) (lit "Unknown");
            destinationName :=
              or_default (pointName destination) (lit "Unknown");
            platform :=
              or_undefined
                (opt_field (properties origin) platformName
                 ||| opt_field (properties origin) rawPlatform);
          |}
      | _, _ => None
      end
  | _, _, _ => None
  end.

(** [xs.filter((x) => x !== null)] on the results of a fallible parser. *)
Fixpoint nonNull {A} (xs : list (option A)) : list A :=
  match xs with
  | [] => []
  | Some x :: xs' => x :: nonNull xs'
  | None :: xs' => nonNull xs'
  end.

(** [legs[legs.length - 1]] *)
Fixpoint lastOf {A} (l : list A) : option A :=
  match l with
  | [] => None
  | [x] => Some x
  | _ :: l' => lastOf l'
  end.

(** The three assignments to the running walk leg. *)
Definition extendWalk (lastLeg leg : TripLeg) : TripLeg :=
  {| type := type lastLeg;
     line := line lastLeg;
     direction := direction lastLeg;
     departureTime := departureTime lastLeg;
     arrivalTime := arrivalTime leg;
     durationSeconds := add (durationSeconds lastLeg) (durationSeconds leg);
     originName := originName lastLeg;
     destinationName := destinationName leg;
     platform := platform lastLeg |}.

(** One iteration of the merging loop: [legs] before, [legs] after.  Every
    parsed leg is an object of its own, so the assignments to the last leg
    built change no other leg of the list. *)
Definition mergeStep (legs : list TripLeg) (leg : TripLeg) : list TripLeg :=
  match lastOf legs with
  | Some lastLeg =>
      if isWalk (type lastLeg) && isWalk (type leg)
      then removelast legs ++ [extendWalk lastLeg leg]
      else legs ++ [leg]
  | None => legs ++ [leg]
  end.

Definition mergeLegs (legsRaw : list TripLeg) : list TripLeg :=
  fold_left mergeStep legsRaw [].

(** [xs.findIndex(p)], [None] for -1. *)
Fixpoint findIndex {A} (p : A -> bool) (xs : list A) : option nat :=
  match xs with
  | [] => None
  | x :: xs' =>
      if p x then Some O
      else match findIndex p xs' with
           | Some i => Some (S i)
           | None => None
           end
  end.

Definition buildRouteSummary (legs : list TripLeg) : str :=
  let transportLegs := filter (fun leg => negb (isWalk (type leg))) legs in
  match transportLegs with
  | [] => lit "walk"
  | _ =>
      join (lit " -> ")
        (map (fun leg =>
                typeName (type leg) ++
                match line leg with
                | Some (c :: l) => lit " " ++ c :: l
                | _ => []
                end) transportLegs)
  end.

(** The parsed legs of a journey, [legsRaw] in the source. *)
Definition parsedLegs `{Runtime} (rawLegs : list RawLeg) : list TripLeg :=
  nonNull (map parseLegV2 rawLegs).

Definition parseJourneyToTripProposal `{Runtime} (journey : RawJourney)
  : option TripProposal :=
  match rawLegs journey with
  | None | Some [] => None
  | Some rawLegs =>
      let legsRaw := parsedLegs rawLegs in
      match legsRaw with
      | [] => None
      | _ =>
          let legs := mergeLegs legsRaw in
          let walkToFirstLegSeconds :=
            match findIndex (fun leg => negb (isWalk (type leg))) legs with
            | None => Fin 0
            | Some firstTransportIndex =>
                fold_left add
                  (map durationSeconds (firstn firstTransportIndex legs))
                  (Fin 0)
            end in
          match hd_error legs, lastOf legs with
          | Some firstLeg, Some lastLeg =>
              let departureTime := departureTime firstLeg in
              let arrivalTime := arrivalTime lastLeg in
              let tripDurationSeconds :=
                match tripDuration journey with
                | Some n => Fin n
                | None =>
                    max0 (roundDiv (sub (getTime arrivalTime)
                                        (getTime departureTime)) 1000)
                end in
              Some {|
                tripDepartureTime := departureTime;
                tripArrivalTime := arrivalTime;
                durationMinutes := max0 (roundDiv tripDurationSeconds 60);
                walkToFirstLegSeconds := walkToFirstLegSeconds;
                legs := legs;
                routeSummary := buildRouteSummary legs;
              |}
          | _, _ => None   (* a TypeError, caught *)
          end
      end
  end.

Definition parseTripsResponse `{Runtime}
  (journeys : option (list RawJourney)) : list TripProposal :=
  match journeys with
  | None => []
  | Some js => nonNull (map parseJourneyToTripProposal js)
  end.

End JourneyPlanner.

(** ** api/transport.ts *)

Module Transport.
Import Js.

Inductive DepartureType := metro | train | tram | bus | ship.

(** A coordinate is only stored and handed on by the modelled code; its
    two numbers are kept as the rationals their JSON literals denote. *)
Record Coord := mkCoord { lat : Q; lon : Q }.

Record TransportSite := mkTransportSite {
  id : str;
  name : str;
  coord : option Coord;
  products : list str;
}.

Record Departure := mkDeparture {
  type : DepartureType;
  line : str;
  destination : str;
  scheduledTime : Date;
  expectedTime : Date;
  minutesUntil : num;
  isDelayed : bool;
  platform : option str;
  isCancelled : bool;
}.

(** A raw departure record.  [scheduled] and [expected] have the type the
    code casts them to; each other field is tested with
    [typeof x === "string"] and is [Some] of the string when the test
    holds, the two fields of [line] and the one of [stop_point] being read
    through [?.]. *)
Record RawDeparture := mkRawDeparture {
  scheduled : option str;
  expected : option str;
  lineDesignation : option str;      (* line?.designation *)
  lineTransportMode : option str;    (* line?.transport_mode *)
  rawDestination : option str;
  stopPointDesignation : option str; (* stop_point?.designation *)
  state : option str;
}.

Definition mapTransportMode `{Runtime} (mode : str) : DepartureType :=
  let modeUpper := toUpperCase mode in
  if eqb modeUpper (lit "METRO") then metro
  else if eqb modeUpper (lit "TRAIN") || eqb modeUpper (lit "COMMUTER_TRAIN")
  then train
  else if eqb modeUpper (lit "TRAM") then tram
  else if eqb modeUpper (lit "SHIP") || eqb modeUpper (lit "FERRY") then ship
  else bus.

(** [typeof x === "string" ? x : ""] *)
Definition stringOrEmpty (x : option str) : str :=
  match x with
  | Some s => s
  | None => []
  end.

Definition parseDeparture `{Runtime} (raw : RawDeparture) (now : Date)
  : option Departure :=
  match scheduled raw with
  | Some (c :: s) =>
      let scheduledStr := c :: s in
      let expectedStr := or_default (expected raw) scheduledStr in
      let scheduledTime := newDate scheduledStr in
      let expectedTime := newDate expectedStr in
      let minutesUntil :=
        roundDiv (sub (getTime expectedTime) (getTime now)) 60000 in
      if lt minutesUntil (Fin (-1)) then None
      else
        let lineDesignation := stringOrEmpty (lineDesignation raw) in
        let transportMode := stringOrEmpty (lineTransportMode raw) in
        let destination := stringOrEmpty (rawDestination raw) in
        let platform := stopPointDesignation raw in
        let state :=
          match state raw with
          | Some st => toUpperCase st
          | None => []
          end in
        let isCancelled :=
          eqb state (lit "CANCELLED") || eqb state (lit "REPLACED") in
        let isDelayed :=
          gt (sub (getTime expectedTime) (getTime scheduledTime))
             (Fin 60000) in
        Some {|
          type := mapTransportMode transportMode;
          line := lineDesignation;
          destination := destination;
          scheduledTime := scheduledTime;
          expectedTime := expectedTime;
          minutesUntil := max0 minutesUntil;
          isDelayed := isDelayed;
          platform := platform;
          isCancelled := isCancelled;
        |}
  | _ => None
  end.

(** [xs.sort(cmp)].  The sort of JavaScript is stable, and for a comparator
    that orders the elements consistently its result is the one sorted
    arrangement that keeps equal elements in their order; inserting each
    element before the sorted rest computes it.  A comparator result of NaN
    counts as zero. *)
Fixpoint insertBy {A} (cmp : A -> A -> num) (x : A) (l : list A) : list A :=
  match l with
  | [] => [x]
  | y :: l' =>
      if gt (cmp x y) (Fin 0) then y :: insertBy cmp x l' else x :: y :: l'
  end.

Definition sortBy {A} (cmp : A -> A -> num) (l : list A) : list A :=
  fold_right (insertBy cmp) [] l.

Definition byExpectedTime (a b : Departure) : num :=
  sub (getTime (expectedTime a)) (getTime (expectedTime b)).

(** [data?.departures] is [None] when it is not an array; [clock] is the
    time value of the [new Date()] taken once, before the records are
    parsed. *)
Definition parseDeparturesResponse `{Runtime}
  (departuresData : option (list RawDeparture)) (clock : Z)
  : list Departure :=
  match departuresData with
  | None => []
  | Some departuresData =>
      let now := mkDate (Fin clock) in
      firstn 30
        (sortBy byExpectedTime
           (JourneyPlanner.nonNull
              (map (fun dep => parseDeparture dep now) departuresData)))
  end.

End Transport.

(** ** config.ts *)

Module Config.
Import Js.

Record Config := mkConfig {
  origin : option str;
  home : option str;
  work : option str;
  timezone : option str;
}.

(** What reading and parsing the config file comes to. *)
Inductive ConfigFile :=
| NoEntry                (* the read fails with ENOENT *)
| Unreadable             (* the read or JSON.parse fails otherwise *)
| Parsed (c : Config).

Definition readConfig (file : ConfigFile) : outcome Config :=
  match file with
  | NoEntry => Returns (mkConfig None None None None)
  | Unreadable => Throws
  | Parsed c => Returns c
  end.

(** [v && v.trim()], as a condition. *)
Definition nonBlank (v : option str) : option str :=
  match v with
  | Some (c :: s) =>
      match trim (c :: s) with
      | [] => None
      | t => Some t
      end
  | _ => None
  end.

(** [env] is [process.env.SLCLI_ORIGIN]; the config file is read only when
    the first two sources give nothing. *)
Definition resolveOrigin (cliValue env : option str) (file : ConfigFile)
  : outcome (option str) :=
  match nonBlank cliValue with
  | Some v => Returns (Some v)
  | None =>
      match nonBlank env with
      | Some v => Returns (Some v)
      | None =>
          match readConfig file with
          | Throws => Throws
          | Returns config =>
              match nonBlank (origin config) with
              | Some v => Returns (Some v)
              | None => Returns None
              end
          end
      end
  end.

End Config.

(** ** index.ts: the stop resolver *)

Module Cli.
Import Js Transport.

Section ResolveSite.
Context `{Runtime}.

(** [findNearestSite(sites, coord.lat, coord.lon)] after
    [parseCoordInput(nearInput)], throwing when the coordinates are
    invalid.  It computes with floating-point trigonometry and stays a
    parameter. *)
Variable nearest : list TransportSite -> str -> outcome (option TransportSite).

(** [xs.find(p)] is [List.find]. *)
Definition resolveSite (sites : list TransportSite)
  (stopInput nearInput : option str) : outcome (option TransportSite) :=
  match nearInput with
  | Some (c :: n) => nearest sites (c :: n)
  | _ =>
      match stopInput with
      | Some (c :: s) =>
          let trimmed := trim (c :: s) in
          if allDigits trimmed then
            match find (fun site => eqb (id site) trimmed) sites with
            | Some match_ => Returns (Some match_)
            | None => Returns (Some (mkTransportSite trimmed trimmed None []))
            end
          else
            let normalizedQuery := toLowerCase trimmed in
            let matches :=
              filter (fun site =>
                        includes (toLowerCase (name site)) normalizedQuery)
                     sites in
            match matches with
            | [] => Returns None
            | first :: _ =>
                match find (fun site =>
                              eqb (toLowerCase (name site)) normalizedQuery)
                           matches with
                | Some exact => Returns (Some exact)
                | None =>
                    match find (fun site =>
                                  startsWith (toLowerCase (name site))
                                             normalizedQuery)
                               matches with
                    | Some prefix => Returns (Some prefix)
                    | None => Returns (Some first)
                    end
                end
            end
      | _ => Returns None
      end
  end.

End ResolveSite.

End Cli.

(** ** api/journeyPlanner.ts: the stop finder and the trip request *)

Module StopFinder.
Import Js.

Inductive LocationType := stop | address.

Record StopLocation := mkStopLocation {
  id : str;
  label : str;
  coord : Transport.Coord;
  type : LocationType;
  matchQuality : option Z;
  isBest : bool;
}.

(** A raw location.  [rawId], [rawName] and [rawType] are [Some] of the
    string when the field is a string, [rawMatchQuality] is [Some] of the
    number when it is a number, and [rawCoord] is [Some] of the elements
    when the field is an array, each element given by what [Number] makes of
    it: [Some] of the number when that is finite.  [rawIsBest] is the
    truthiness of the field. *)
Record RawLocation := mkRawLocation {
  rawId : option str;
  rawName : option str;
  rawCoord : option (list (option Q));
  rawType : option str;
  rawMatchQuality : option Z;
  rawIsBest : bool;
}.

Definition parseLocation `{Runtime} (loc : RawLocation)
  : option StopLocation :=
  let typeRaw :=
    match rawType loc with
    | Some t => toLowerCase t
    | None => lit "stop"
    end in
  match rawId loc, rawName loc, rawCoord loc with
  | Some (i :: id), Some (l :: label), Some (c0 :: c1 :: _) =>
      match c0, c1 with
      | Some lat, Some lon =>
          let isAddress :=
            eqb typeRaw (lit "singlehouse") || eqb typeRaw (lit "address")
            || eqb typeRaw (lit "street") || eqb typeRaw (lit "poi") in
          Some {| id := i :: id;
                  label := l :: label;
                  coord := Transport.mkCoord lat lon;
                  type := if isAddress then address else stop;
                  matchQuality := rawMatchQuality loc;
                  isBest := rawIsBest loc |}
      | _, _ => None
      end
  | _, _, _ => None
  end.

(** [locations] is [None] when [data?.locations] is not an array. *)
Definition parseStopFinderResponse `{Runtime}
  (locations : option (list RawLocation)) : list StopLocation :=
  match locations with
  | None => []
  | Some locations => JourneyPlanner.nonNull (map parseLocation locations)
  end.

(** [loc.matchQuality || 0] *)
Definition qualityOf (loc : StopLocation) : Z :=
  match matchQuality loc with
  | Some q => q
  | None => 0
  end.

(** The choice [resolveLocation] makes among the results of a search. *)
Definition resolveLocation (results : list StopLocation)
  : option StopLocation :=
  match results with
  | [] => None
  | _ =>
      match find isBest results with
      | Some best => Some best
      | None =>
          let sorted :=
            Transport.sortBy (fun a b => Fin (qualityOf b - qualityOf a))
                             results in
          hd_error sorted
      end
  end.

(** [String(n)] for an integer. *)
Definition numberToString (n : Z) : str :=
  lit (NilZero.string_of_int (Z.to_int n)).

(** [s.padStart(targetLength, fill)] *)
Definition padStart (s : str) (targetLength : nat) (fill : str) : str :=
  let missing := (targetLength - List.length s)%nat in
  match fill with
  | [] => s
  | _ => firstn missing (List.concat (repeat fill missing)) ++ s
  end.

(** What the code reads of a valid Date in local time, and its ISO form;
    the argument is the time value. *)
Class DateHost := {
  getFullYear : Z -> Z;
  getMonth : Z -> Z;
  getDate : Z -> Z;
  getHours : Z -> Z;
  getMinutes : Z -> Z;
  toISOString : Z -> str;
}.

Definition pad2 (n : Z) : str := padStart (numberToString n) 2 (lit "0").

Definition formatItdDate `{DateHost} (date : Z) : str :=
  numberToString (getFullYear date) ++ pad2 (getMonth date + 1)
  ++ pad2 (getDate date).

Definition formatItdTime `{DateHost} (date : Z) : str :=
  pad2 (getHours date) ++ pad2 (getMinutes date).

Inductive TripEndpointLocation :=
| ById (id : str) (label : option str) (coord : option Transport.Coord)
| ByCoord (lat lon : Q).

Inductive DepArr := dep | arr.

Inductive RouteType := leasttime | leastinterchange | leastwalking.

Definition routeTypeName (r : RouteType) : str :=
  match r with
  | leasttime => lit "leasttime"
  | leastinterchange => lit "leastinterchange"
  | leastwalking => lit "leastwalking"
  end.

(** [dateTime] is the time value of a valid Date. *)
Record TripSearchOptions := mkTripSearchOptions {
  numTrips : option Z;
  dateTime : option Z;
  dateTimeMode : option DepArr;
  routeType : option RouteType;
  maxChanges : option Z;
}.

(** [params.set(k, v)] of URLSearchParams: the first pair of key [k] takes
    the value and the other pairs of that key go, or the pair is added at
    the end. *)
Fixpoint setParam (k v : str) (params : list (str * str))
  : list (str * str) :=
  match params with
  | [] => [(k, v)]
  | (k', v') :: rest =>
      if eqb k' k
      then (k, v) :: filter (fun p => negb (eqb (fst p) k)) rest
      else (k', v') :: setParam k v rest
  end.

(** [params.get(k)] *)
Definition getParam (k : str) (params : list (str * str)) : option str :=
  option_map snd (find (fun p => eqb (fst p) k) params).

Section Request.
Context `{DateHost}.

(** The text of a coordinate, [`${x}`] for a number that need not be whole. *)
Variable showNumber : Q -> str.

Definition formatCoordString (lat lon : Q) : str :=
  showNumber lon ++ lit ":" ++ showNumber lat ++ lit ":WGS84[dd.ddddd]".

(** The search parameters [fetchTrips] puts on the request. *)
Definition fetchTripsParams (origin destination : TripEndpointLocation)
  (options : TripSearchOptions) : list (str * str) :=
  let p0 := [] in
  let p1 :=
    match origin with
    | ByCoord lat lon =>
        setParam (lit "name_origin") (formatCoordString lat lon)
          (setParam (lit "type_origin") (lit "coord") p0)
    | ById id _ _ =>
        setParam (lit "name_origin") id
          (setParam (lit "type_origin") (lit "any") p0)
    end in
  let p2 :=
    match destination with
    | ByCoord lat lon =>
        setParam (lit "name_destination") (formatCoordString lat lon)
          (setParam (lit "type_destination") (lit "coord") p1)
    | ById id _ _ =>
        setParam (lit "name_destination") id
          (setParam (lit "type_destination") (lit "any") p1)
    end in
  let requestedTrips :=
    Z.min (Z.max (match numTrips options with Some n => n | None => 3 end) 1)
          3 in
  let p3 :=
    setParam (lit "calc_number_of_trips") (numberToString requestedTrips)
             p2 in
  let p4 :=
    match dateTime options with
    | Some date =>
        setParam (lit "itd_trip_date_time_dep_arr")
          (match dateTimeMode options with
           | Some arr => lit "arr"
           | _ => lit "dep"
           end)
          (setParam (lit "itd_time") (formatItdTime date)
             (setParam (lit "itd_date") (formatItdDate date) p3))
    | None => p3
    end in
  let p5 :=
    match routeType options with
    | Some r => setParam (lit "route_type") (routeTypeName r) p4
    | None => p4
    end in
  match maxChanges options with
  | Some n => setParam (lit "max_changes") (numberToString n) p5
  | None => p5
  end.

End Request.

(** [Math.min(Math.max(options.numTrips ?? 3, 1), 3)] for any finite number
    of trips, whole or not, given as the rational it is. *)
Definition requestedTrips (numTrips : option Q) : Q :=
  let given := match numTrips with Some n => n | None => 3%Q end in
  let atLeastOne := if Qle_bool 1 given then given else 1%Q in
  if Qle_bool atLeastOne 3 then atLeastOne else 3%Q.

End StopFinder.

(** ** index.ts: the commands *)

Module Commands.
Import Js.

(** *** The nearest stop *)

Section Nearest.
Import Transport.

(** [haversineDistance(lat1, lon1, lat2, lon2)]: floating-point
    trigonometry, a parameter here; its result is taken to be a number (no
    NaN), given as the rational it is. *)
Variable haversineDistance : Q -> Q -> Q -> Q -> Q.

(** One iteration of the scan, on the pair of [best] and [bestDistance];
    [None] as distance is plus infinity. *)
Definition nearestStep (lat lon : Q)
  (state : option TransportSite * option Q) (site : TransportSite)
  : option TransportSite * option Q :=
  match coord site with
  | None => state
  | Some c =>
      let distance :=
        haversineDistance lat lon (Transport.lat c) (Transport.lon c) in
      match snd state with
      | None => (Some site, Some distance)
      | Some bestDistance =>
          if negb (Qle_bool bestDistance distance)
          then (Some site, Some distance)
          else state
      end
  end.

Definition findNearestSite (sites : list TransportSite) (lat lon : Q)
  : option TransportSite :=
  fst (fold_left (nearestStep lat lon) sites (None, None)).

End Nearest.

(** *** next *)

Section Next.
Import Transport.
Context `{Runtime}.

Variable nearest : list TransportSite -> str -> outcome (option TransportSite).

(** [fetchDepartures(siteId)] up to the parsing of its payload: the
    [departures] field of the payload, or a failed request. *)
Variable fetchDeparturesData : str -> outcome (option (list RawDeparture)).

(** The action of [next], from the sites fetched to the site and the
    departures handed to the printer; [minutes] is [Some] when the option is
    a number, taken to be whole.  A thrown error ends the command with exit
    code 1. *)
Definition nextCommand (sites : list TransportSite)
  (stop near : option str) (minutes : option Z) (clock : Z)
  : outcome (TransportSite * list Departure) :=
  if negb (truthy stop) && negb (truthy near) then Throws
  else
    match Cli.resolveSite nearest sites stop near with
    | Throws => Throws
    | Returns None => Throws
    | Returns (Some site) =>
        match fetchDeparturesData (id site) with
        | Throws => Throws
        | Returns data =>
            let departures := parseDeparturesResponse data clock in
            let filtered :=
              match minutes with
              | Some maxMinutes =>
                  if maxMinutes =? 0 then departures
                  else filter (fun d => ge (Fin maxMinutes) (minutesUntil d))
                              departures
              | None => departures
              end in
            Returns (site, filtered)
        end
    end.

End Next.

(** *** config get and config set *)

Section ConfigCommands.
Import Config.

Definition CONFIG_KEYS : list str :=
  [lit "origin"; lit "home"; lit "work"; lit "timezone"].

(** [assertConfigKey(key)]: [true] when it does not throw. *)
Definition assertConfigKey (key : str) : bool :=
  existsb (fun k => eqb k key) CONFIG_KEYS.

(** [cfg[key]] for a key of [CONFIG_KEYS]. *)
Definition getKey (cfg : Config) (key : str) : option str :=
  if eqb key (lit "origin") then origin cfg
  else if eqb key (lit "home") then home cfg
  else if eqb key (lit "work") then work cfg
  else if eqb key (lit "timezone") then timezone cfg
  else None.

(** [cfg[key] = value] for a key of [CONFIG_KEYS]. *)
Definition setKey (cfg : Config) (key value : str) : Config :=
  if eqb key (lit "origin")
  then mkConfig (Some value) (home cfg) (work cfg) (timezone cfg)
  else if eqb key (lit "home")
  then mkConfig (origin cfg) (Some value) (work cfg) (timezone cfg)
  else if eqb key (lit "work")
  then mkConfig (origin cfg) (home cfg) (Some value) (timezone cfg)
  else if eqb key (lit "timezone")
  then mkConfig (origin cfg) (home cfg) (work cfg) (Some value)
  else cfg.

(** [writeConfig(config)]: the file holds the config afterwards, read back
    as it was written, unless the directory or the file cannot be written
    ([writable] false) and the call throws. *)
Definition writeConfig (writable : bool) (config : Config)
  : outcome ConfigFile :=
  if writable then Returns (Parsed config) else Throws.

(** [config get <key>]: the value found, [None] for [undefined]. *)
Definition configGet (key : str) (file : ConfigFile) : outcome (option str) :=
  if assertConfigKey key then
    match readConfig file with
    | Throws => Throws
    | Returns cfg => Returns (getKey cfg key)
    end
  else Throws.

(** [config set <key> <value>]: the file afterwards. *)
Definition configSet (writable : bool) (key value : str) (file : ConfigFile)
  : outcome ConfigFile :=
  if assertConfigKey key then
    match readConfig file with
    | Throws => Throws
    | Returns cfg => writeConfig writable (setKey cfg key value)
    end
  else Throws.

End ConfigCommands.

(** *** The output of plan *)

Section TripsOutput.
Import JourneyPlanner.
Context `{StopFinder.DateHost}.

Record LegOutput := mkLegOutput {
  outType : LegType;
  outLine : option str;
  outDirection : option str;
  outLegDeparture : str;
  outLegArrival : str;
  outLegMinutes : num;
  outOrigin : str;
  outDestination : str;
  outPlatform : option str;
}.

Record TripOutput := mkTripOutput {
  outDeparture : str;
  outArrival : str;
  outMinutes : num;
  changes : Z;
  summary : str;
  outLegs : list LegOutput;
}.

(** [date.toISOString()], which throws a RangeError on an Invalid Date. *)
Definition isoString (date : Date) : outcome str :=
  match getTime date with
  | Fin t => Returns (StopFinder.toISOString t)
  | NaN => Throws
  end.

(** [xs.map(f)] for an [f] that may throw. *)
Fixpoint mapOutcome {A B} (f : A -> outcome B) (xs : list A)
  : outcome (list B) :=
  match xs with
  | [] => Returns []
  | x :: xs' =>
      match f x with
      | Throws => Throws
      | Returns y =>
          match mapOutcome f xs' with
          | Throws => Throws
          | Returns ys => Returns (y :: ys)
          end
      end
  end.

Definition legOutput (leg : TripLeg) : outcome LegOutput :=
  match isoString (departureTime leg) with
  | Throws => Throws
  | Returns departure =>
      match isoString (arrivalTime leg) with
      | Throws => Throws
      | Returns arrival =>
          Returns {| outType := type leg;
                     outLine := line leg;
                     outDirection := direction leg;
                     outLegDeparture := departure;
                     outLegArrival := arrival;
                     outLegMinutes :=
                       max0 (roundDiv (durationSeconds leg) 60);
                     outOrigin := originName leg;
                     outDestination := destinationName leg;
                     outPlatform := platform leg |}
      end
  end.

Definition tripOutput (trip : TripProposal) : outcome TripOutput :=
  let transportLegs :=
    filter (fun leg => negb (isWalk (type leg))) (legs trip) in
  let changes := Z.max 0 (Z.of_nat (List.length transportLegs) - 1) in
  match isoString (tripDepartureTime trip) with
  | Throws => Throws
  | Returns departure =>
      match isoString (tripArrivalTime trip) with
      | Throws => Throws
      | Returns arrival =>
          match mapOutcome legOutput (legs trip) with
          | Throws => Throws
          | Returns legsOut =>
              Returns {| outDeparture := departure;
                         outArrival := arrival;
                         outMinutes := durationMinutes trip;
                         changes := changes;
                         summary := routeSummary trip;
                         outLegs := legsOut |}
          end
      end
  end.

(** [formatLocalTime(date)]; on an Invalid Date the two numbers are NaN and
    print as such. *)
Definition formatLocalTime (date : Date) : str :=
  match getTime date with
  | Fin t =>
      StopFinder.pad2 (StopFinder.getHours t) ++ lit ":"
      ++ StopFinder.pad2 (StopFinder.getMinutes t)
  | NaN => lit "NaN" ++ lit ":" ++ lit "NaN"
  end.

(** The [trips] of [buildTripsOutput]; its other fields are its arguments,
    handed on. *)
Definition buildTripsOutput (trips : list TripProposal)
  : outcome (list TripOutput) :=
  mapOutcome tripOutput trips.

End TripsOutput.

(** *** resolveSite from its first line, and the action of next *)

Section NextAction.
Import Transport.
Context `{Runtime} `{StopFinder.DateHost}.

Variable nearest : list TransportSite -> str -> outcome (option TransportSite).
Variable fetchDeparturesData : str -> outcome (option (list RawDeparture)).

(** [resolveSite(stopInput, nearInput)] from its first line:
    [fetchedSites] is what [await fetchSites()] comes to, the sites or a
    request that fails, and the lines after it are [Cli.resolveSite] on the
    sites. *)
Definition resolveFetchedSite (fetchedSites : outcome (list TransportSite))
  (stopInput nearInput : option str) : outcome (option TransportSite) :=
  match fetchedSites with
  | Throws => Throws
  | Returns sites => Cli.resolveSite nearest sites stopInput nearInput
  end.

Inductive OutputMode := json | plain | pretty.

(** [optJson] and [optPlain] are [Boolean(opts.json)] and
    [Boolean(opts.plain)], [isTTY] is [process.stdout.isTTY]. *)
Definition resolveOutputMode (optJson optPlain isTTY : bool)
  : outcome OutputMode :=
  if optJson && optPlain then Throws
  else if optJson then Returns json
  else if optPlain then Returns plain
  else if isTTY then Returns pretty
  else Returns json.

Definition departureTypeName (t : DepartureType) : str :=
  match t with
  | metro => lit "metro" | train => lit "train" | tram => lit "tram"
  | bus => lit "bus" | ship => lit "ship"
  end.

(** [`${n}`] for a number that is whole or NaN. *)
Definition numberText (n : num) : str :=
  match n with
  | Fin z => StopFinder.numberToString z
  | NaN => lit "NaN"
  end.

(** [`${b}`] *)
Definition booleanText (b : bool) : str :=
  if b then lit "true" else lit "false".

(** A departure as [printDepartures] hands it to [JSON.stringify];
    [outPlatformName] is [dep.platform ?? null]. *)
Record DepartureOutput := mkDepartureOutput {
  outMode : DepartureType;
  outLineName : str;
  outDestinationName : str;
  outScheduledTime : str;
  outExpectedTime : str;
  outMinutesUntil : num;
  outIsDelayed : bool;
  outIsCancelled : bool;
  outPlatformName : option str;
}.

(** What [printDepartures] writes: in json mode the value handed to
    [JSON.stringify], which is the id and the name of the site and the
    departures; in the other modes the text of each [console.log], in
    order. *)
Inductive Printed :=
| Json (siteId siteName : str) (departures : list DepartureOutput)
| Text (logged : list str).

Definition departureOutput (dep : Departure) : outcome DepartureOutput :=
  match isoString (scheduledTime dep) with
  | Throws => Throws
  | Returns scheduled =>
      match isoString (expectedTime dep) with
      | Throws => Throws
      | Returns expected =>
          Returns {| outMode := type dep;
                     outLineName := line dep;
                     outDestinationName := destination dep;
                     outScheduledTime := scheduled;
                     outExpectedTime := expected;
                     outMinutesUntil := minutesUntil dep;
                     outIsDelayed := isDelayed dep;
                     outIsCancelled := isCancelled dep;
                     outPlatformName := platform dep |}
      end
  end.

(** A line of the plain mode; the separator is a tab. *)
Definition plainLine (dep : Departure) : outcome str :=
  match isoString (scheduledTime dep) with
  | Throws => Throws
  | Returns scheduled =>
      match isoString (expectedTime dep) with
      | Throws => Throws
      | Returns expected =>
          Returns
            (join [9%N]
               [lit "dep";
                departureTypeName (type dep);
                line dep;
                destination dep;
                lit "scheduled=" ++ scheduled;
                lit "expected=" ++ expected;
                lit "in=" ++ numberText (minutesUntil dep) ++ lit "m";
                lit "platform="
                ++ match platform dep with Some p => p | None => [] end;
                lit "cancelled=" ++ booleanText (isCancelled dep)])
      end
  end.

(** A line of the pretty mode. *)
Definition prettyLine (dep : Departure) : str :=
  let depTime := formatLocalTime (expectedTime dep) in
  let delay := if isDelayed dep then lit " delayed" else [] in
  let cancelled := if isCancelled dep then lit " cancelled" else [] in
  let platformText :=
    match platform dep with
    | Some (c :: p) => lit " platform " ++ c :: p
    | _ => []
    end in
  depTime ++ lit " " ++ departureTypeName (type dep) ++ lit " "
  ++ line dep ++ lit " to " ++ destination dep ++ lit " in "
  ++ numberText (minutesUntil dep) ++ lit "m" ++ platformText ++ delay
  ++ cancelled.

(** In the json and the plain mode every line is built, with the ISO form
    of both times, before anything is written. *)
Definition printDepartures (site : TransportSite)
  (departures : list Departure) (mode : OutputMode) : outcome Printed :=
  match mode with
  | json =>
      match mapOutcome departureOutput departures with
      | Throws => Throws
      | Returns out => Returns (Json (id site) (name site) out)
      end
  | plain =>
      match mapOutcome plainLine departures with
      | Throws => Throws
      | Returns lines => Returns (Text [join [10%N] lines])
      end
  | pretty =>
      Returns
        (Text ((lit "Stop: " ++ name site ++ lit " (" ++ id site ++ lit ")")
               :: map prettyLine departures))
  end.

(** The [filtered] of the action: [minutes] is [opts.minutes] when it is a
    number, any finite number, given as the rational it is. *)
Definition filtered (minutes : option Q) (departures : list Departure)
  : list Departure :=
  match minutes with
  | Some maxMinutes =>
      if Qeq_bool maxMinutes 0 then departures
      else
        filter (fun d => match minutesUntil d with
                         | Fin k => Qle_bool (inject_Z k) maxMinutes
                         | NaN => false
                         end)
               departures
  | None => departures
  end.

(** The action of [next], from the options to what is written.  The output
    mode is resolved before the [try]; an error thrown there ends the
    command in failure, as does an error thrown inside the [try], which
    [handleError] reports with exit code 1.  [clock] is the time value of
    the [new Date()] of [parseDeparturesResponse]. *)
Definition nextAction (optJson optPlain isTTY : bool)
  (fetchedSites : outcome (list TransportSite))
  (stop near : option str) (minutes : option Q) (clock : Z)
  : outcome Printed :=
  match resolveOutputMode optJson optPlain isTTY with
  | Throws => Throws
  | Returns mode =>
      if negb (truthy stop) && negb (truthy near) then Throws
      else
        match resolveFetchedSite fetchedSites stop near with
        | Throws => Throws
        | Returns None => Throws
        | Returns (Some site) =>
            match fetchDeparturesData (id site) with
            | Throws => Throws
            | Returns data =>
                let departures := parseDeparturesResponse data clock in
                printDepartures site (filtered minutes departures) mode
            end
        end
  end.

End NextAction.

End Commands.

(** ** Sample data *)

Module Examples.
Import Js.

Definition point (name time : string) : JourneyPlanner.RawPoint :=
  {| JourneyPlanner.departureTimeEstimated := None;
     JourneyPlanner.departureTimePlanned := Some (lit time);
     JourneyPlanner.departureTimeBaseTimetable := None;
     JourneyPlanner.arrivalTimeEstimated := None;
     JourneyPlanner.arrivalTimePlanned := Some (lit time);
     JourneyPlanner.arrivalTimeBaseTimetable := None;
     JourneyPlanner.pointName := Some (lit name);
     JourneyPlanner.properties := None |}.

Definition rawLeg (product : string) (line : option string)
  (from depart to arrive : string) (seconds : option Z)
  : JourneyPlanner.RawLeg :=
  {| JourneyPlanner.origin := Some (point from depart);
     JourneyPlanner.destination := Some (point to arrive);
     JourneyPlanner.transportation :=
       Some {| JourneyPlanner.productName := Some (Some (lit product));
               JourneyPlanner.disassembledName := option_map lit line;
               JourneyPlanner.number := None;
               JourneyPlanner.transportationName := None;
               JourneyPlanner.transportationDestination := None |};
     JourneyPlanner.duration := seconds |}.

Definition busLeg :=
  rawLeg "Buss" (Some "4"%string) "Odenplan" "2026-01-17T11:50:00Z"
         "Fridhemsplan" "2026-01-17T12:00:00Z" (Some 600).

Definition walkLeg1 :=
  rawLeg "footpath" None "Fridhemsplan" "2026-01-17T12:00:00Z"
         "Fridhemsplan T-bana" "2026-01-17T12:03:00Z" (Some 180).

Definition walkLeg2 :=
  rawLeg "footpath" None "Fridhemsplan T-bana" "2026-01-17T12:03:00Z"
         "Platform 2" "2026-01-17T12:05:00Z" None.

Definition metroLeg :=
  rawLeg "Tunnelbana" (Some "17"%string) "Platform 2" "2026-01-17T12:06:00Z"
         "Slussen" "2026-01-17T12:20:00Z" (Some 840).

(** A leg with no transportation. *)
Definition strayLeg : JourneyPlanner.RawLeg :=
  {| JourneyPlanner.origin :=
       Some (point "Odenplan" "2026-01-17T11:50:00Z");
     JourneyPlanner.destination :=
       Some (point "Fridhemsplan" "2026-01-17T12:00:00Z");
     JourneyPlanner.transportation := None;
     JourneyPlanner.duration := Some 600 |}.

(** A bus leg whose time strings are empty. *)
Definition timelessLeg :=
  rawLeg "Buss" (Some "4"%string) "Odenplan" "" "Fridhemsplan" "" (Some 600).

(** Two legs, neither of which parses. *)
Definition strayJourney : JourneyPlanner.RawJourney :=
  {| JourneyPlanner.rawLegs := Some [strayLeg; timelessLeg];
     JourneyPlanner.tripDuration := Some 600 |}.

(** Bus, two walks in a row, metro. *)
Definition journey : JourneyPlanner.RawJourney :=
  {| JourneyPlanner.rawLegs := Some [busLeg; walkLeg1; walkLeg2; metroLeg];
     JourneyPlanner.tripDuration := None |}.

Definition rawDeparture (scheduled : string) (expected : option string)
  : Transport.RawDeparture :=
  {| Transport.scheduled := Some (lit scheduled);
     Transport.expected := option_map lit expected;
     Transport.lineDesignation := Some (lit "17");
     Transport.lineTransportMode := Some (lit "METRO");
     Transport.rawDestination := Some (lit "Akeshov");
     Transport.stopPointDesignation := Some (lit "2");
     Transport.state := Some (lit "EXPECTED") |}.

(** Scheduled at noon, with no expected time of its own. *)
Definition onTime : Transport.RawDeparture :=
  rawDeparture "2026-01-17T12:00:00Z" None.

(** Scheduled at noon, expected two minutes later. *)
Definition late : Transport.RawDeparture :=
  rawDeparture "2026-01-17T12:00:00Z" (Some "2026-01-17T12:02:00Z"%string).

(** Scheduled and expected at noon. *)
Definition atNoon : Transport.RawDeparture :=
  rawDeparture "2026-01-17T12:00:00Z" (Some "2026-01-17T12:00:00Z"%string).

(** A scheduled time that is no date. *)
Definition unparseable : Transport.RawDeparture :=
  rawDeparture "not-a-date" None.

(** 2026-01-17T12:00:00Z, in milliseconds. *)
Definition noon : Z := 1768651200000.

Definition site (id name : string) : Transport.TransportSite :=
  {| Transport.id := lit id; Transport.name := lit name;
     Transport.coord := None; Transport.products := [] |}.

Definition sites : list Transport.TransportSite :=
  [site "9192" "Slussen"; site "9117" "Odenplan"; site "9001" "T-Centralen"].

(** A nearest-stop search that finds nothing. *)
Definition noNearest (_ : list Transport.TransportSite) (_ : str)
  : outcome (option Transport.TransportSite) := Returns None.

(** Two walks in a row and nothing else. *)
Definition walkJourney : JourneyPlanner.RawJourney :=
  {| JourneyPlanner.rawLegs := Some [walkLeg1; walkLeg2];
     JourneyPlanner.tripDuration := None |}.

(** Two walks in a row, then the metro; the journey says it takes 1790
    seconds. *)
Definition timedJourney : JourneyPlanner.RawJourney :=
  {| JourneyPlanner.rawLegs := Some [walkLeg1; walkLeg2; metroLeg];
     JourneyPlanner.tripDuration := Some 1790 |}.

(** A Date host on UTC, for years 0 to 9999. *)
Definition civilFromDays (days : Z) : Z * Z * Z :=
  let z := days + 719468 in
  let era := z / 146097 in
  let doe := z - era * 146097 in
  let yoe := (doe - doe / 1460 + doe / 36524 - doe / 146096) / 365 in
  let doy := doe - (365 * yoe + yoe / 4 - yoe / 100) in
  let mp := (5 * doy + 2) / 153 in
  let d := doy - (153 * mp + 2) / 5 + 1 in
  let m := if mp <? 10 then mp + 3 else mp - 9 in
  (if m <=? 2 then yoe + era * 400 + 1 else yoe + era * 400, m, d).

Definition pad (width : nat) (n : Z) : str :=
  StopFinder.padStart (StopFinder.numberToString n) width (lit "0").

Definition utcIso (t : Z) : str :=
  let '(y, m, d) := civilFromDays (t / 86400000) in
  pad 4 y ++ lit "-" ++ pad 2 m ++ lit "-" ++ pad 2 d ++ lit "T"
  ++ pad 2 ((t / 3600000) mod 24) ++ lit ":" ++ pad 2 ((t / 60000) mod 60)
  ++ lit ":" ++ pad 2 ((t / 1000) mod 60) ++ lit "." ++ pad 3 (t mod 1000)
  ++ lit "Z".

#[export] Instance utc : StopFinder.DateHost := {|
  StopFinder.getFullYear :=
    fun t => fst (fst (civilFromDays (t / 86400000)));
  StopFinder.getMonth :=
    fun t => snd (fst (civilFromDays (t / 86400000))) - 1;
  StopFinder.getDate := fun t => snd (civilFromDays (t / 86400000));
  StopFinder.getHours := fun t => (t / 3600000) mod 24;
  StopFinder.getMinutes := fun t => (t / 60000) mod 60;
  StopFinder.toISOString := utcIso;
|}.

(** A stand-in for the haversine distance: the squared distance in the
    plane of the two coordinates. *)
Definition flatDistance (lat1 lon1 lat2 lon2 : Q) : Q :=
  ((lat2 - lat1) * (lat2 - lat1) + (lon2 - lon1) * (lon2 - lon1))%Q.

Definition placedSite (id name : string) (lat lon : Q)
  : Transport.TransportSite :=
  {| Transport.id := lit id; Transport.name := lit name;
     Transport.coord := Some (Transport.mkCoord lat lon);
     Transport.products := [] |}.

Definition siteA := placedSite "1" "A" (5933 # 100) (1806 # 100).
Definition siteB := placedSite "2" "B" (5986 # 100) (1764 # 100).

Definition location (id name : string) (quality : option Z) (best : bool)
  : StopFinder.RawLocation :=
  {| StopFinder.rawId := Some (lit id);
     StopFinder.rawName := Some (lit name);
     StopFinder.rawCoord := Some [Some (5933 # 100); Some (1806 # 100)];
     StopFinder.rawType := Some (lit "stop");
     StopFinder.rawMatchQuality := quality;
     StopFinder.rawIsBest := best |}.

(** The payload of departures fetched for any site: the on-time, the late
    and the unparseable record. *)
Definition fetched (_ : str)
  : outcome (option (list Transport.RawDeparture)) :=
  Returns (Some [late; onTime; unparseable]).

End Examples.

(** ** The specification's vocabulary *)

Module Spec.
Import Js JourneyPlanner.

(** [t] occurs in [u] as a run of consecutive code units. *)
Definition substring (t u : str) : Prop :=
  exists pre post, u = pre ++ t ++ post.

(** [t] is the beginning of [u]. *)
Definition prefix (t u : str) : Prop := exists post, u = t ++ post.

(** The classifier's rules in the order of their priority: the tokens of a
    rule and the kind it gives. *)
Definition modeRules : list (list string * LegType) :=
  [ (["FOOTPATH"; "FOOT"; "WALK"]%string, walk);
    (["TUNNELBANA"; "METRO"]%string, metro);
    (["PENDEL"; "TAG"; "TRAIN"]%string, train);
    (["SPARV"; "TRAM"]%string, tram);
    (["BAT"; "SHIP"; "FERRY"]%string, ship);
    (["BUS"]%string, bus) ].

Definition ruleMatches (u : str) (rule : list string * LegType) : Prop :=
  exists token, In token (fst rule) /\ substring (lit token) u.

(** The kind of the first rule that matches, [bus] when none does. *)
Inductive firstMatch (u : str) : list (list string * LegType) -> LegType -> Prop :=
| firstMatch_none : firstMatch u [] bus
| firstMatch_here rule rules :
    ruleMatches u rule -> firstMatch u (rule :: rules) (snd rule)
| firstMatch_later rule rules kind :
    ~ ruleMatches u rule -> firstMatch u rules kind ->
    firstMatch u (rule :: rules) kind.

(** The first-match reading of the rules, computed. *)
Fixpoint classify (u : str) (rules : list (list string * LegType)) : LegType :=
  match rules with
  | [] => bus
  | rule :: rest =>
      if existsb (fun token => includes u (lit token)) (fst rule)
      then snd rule else classify u rest
  end.

(** [x] is the first element of [xs] with the property [P]. *)
Definition firstWith {A} (P : A -> Prop) (xs : list A) (x : A) : Prop :=
  exists before after,
    xs = before ++ x :: after /\ P x /\ Forall (fun y => ~ P y) before.

(** A run of walk legs merged into its first leg. *)
Definition mergedRun (first : TripLeg) (rest : list TripLeg) : TripLeg :=
  fold_left extendWalk rest first.

(** The sum of the durations of a run of legs. *)
Definition sumDurations (run : list TripLeg) : num :=
  fold_right add (Fin 0) (map durationSeconds run).

(** No two neighbours in [legs] are both walk legs. *)
Definition noAdjacentWalks (legs : list TripLeg) : Prop :=
  forall before a b after,
    legs = before ++ a :: b :: after ->
    ~ (type a = walk /\ type b = walk).

End Spec.

Module DepartureSpec.
Import Js Transport.

(** [a] departs no later than [b], by expected time. *)
Definition notLater (a b : Departure) : Prop :=
  ge (getTime (expectedTime b)) (getTime (expectedTime a)) = true.

(** The time strings of a raw record denote dates. *)
Definition validTimes `{Runtime} (raw : RawDeparture) : Prop :=
  forall s, scheduled raw = Some s \/ expected raw = Some s ->
            exists t, getTime (newDate s) = Fin t.

(** The expected time of a departure is a date. *)
Definition validExpected (d : Departure) : Prop :=
  exists t, getTime (expectedTime d) = Fin t.

(** The string the expected time of a record is read from. *)
Definition expectedString (raw : RawDeparture) (s : str) : Prop :=
  exists sched, scheduled raw = Some sched /\ sched <> [] /\
                s = or_default (expected raw) sched.

End DepartureSpec.

Module OriginSpec.
Import Js.

(** A source of the origin holds the value [t]: a string that trims to the
    non-empty [t]. *)
Definition present (v : option str) (t : str) : Prop :=
  exists s, v = Some s /\ t = trim s /\ t <> [].

(** A source of the origin holds nothing: it is not set, or set to white
    space only. *)
Definition absent (v : option str) : Prop :=
  forall s, v = Some s -> Forall (fun c => isWhiteSpace c = true) s.

End OriginSpec.

Module JourneySpec.
Import Js JourneyPlanner.

(** The legs that are not walks, in their order. *)
Definition transportOnly (ls : list TripLeg) : list TripLeg :=
  filter (fun leg => negb (isWalk (type leg))) ls.

End JourneySpec.

Module NextSpec.
Import Js Transport.

(** One of the two times of a departure is no date. *)
Definition undated (d : Departure) : Prop :=
  getTime (scheduledTime d) = NaN \/ getTime (expectedTime d) = NaN.

End NextSpec.

Module NearestSpec.
Import Js Transport.

Section Scan.
Variable haversineDistance : Q -> Q -> Q -> Q -> Q.
Variables lat0 lon0 : Q.

(** The distance from the point searched to a coordinate. *)
Definition distanceTo (c : Coord) : Q :=
  haversineDistance lat0 lon0 (lat c) (lon c).

(** What the scan holds after the sites [seen]: nothing when none of them
    has a coordinate, or the first of them at the least distance. *)
Definition scanned (seen : list TransportSite)
    (state : option TransportSite * option Q) : Prop :=
  match state with
  | (None, None) => forall s, In s seen -> coord s = None
  | (Some best, Some bestDistance) =>
      exists c before after,
        seen = before ++ best :: after /\ coord best = Some c /\
        bestDistance = distanceTo c /\
        (forall s c', In s before -> coord s = Some c' ->
                      (distanceTo c < distanceTo c')%Q) /\
        (forall s c', In s after -> coord s = Some c' ->
                      (distanceTo c <= distanceTo c')%Q)
  | _ => False
  end.

End Scan.

End NearestSpec.

(** * Properties *)

(** ** Strings *)

Section StringFacts.
Import Js Spec.

Lemma eqb_eq (s t : str) : eqb s t = true <-> s = t.
Proof.
  revert t; induction s as [|c s IH]; intros [|d t]; simpl;
    try (split; [discriminate | congruence]); [tauto|].
  rewrite andb_true_iff, N.eqb_eq, IH. split.
  - intros [-> ->]; reflexivity.
  - intros E; inversion E; auto.
Qed.

Lemma startsWith_prefix (s t : str) : startsWith s t = true <-> prefix t s.
Proof.
  unfold prefix. revert s; induction t as [|d t IH]; intros s.
  - simpl. destruct s; split; eauto.
  - destruct s as [|c s]; simpl.
    + split; [discriminate | intros [post E]; discriminate].
    + rewrite andb_true_iff, N.eqb_eq, IH. split.
      * intros [-> [post ->]]. exists post; reflexivity.
      * intros [post E]. inversion E; subst. eauto.
Qed.

Lemma includes_substring (s t : str) :
  includes s t = true <-> substring t s.
Proof.
  unfold substring. induction s as [|c s IH].
  - cbn [includes]. rewrite orb_false_r, startsWith_prefix.
    unfold prefix. split.
    + intros [post E]. exists [], post. exact E.
    + intros (pre & post & E). destruct pre; simpl in E.
      * eauto.
      * discriminate.
  - cbn [includes]. rewrite orb_true_iff, startsWith_prefix, IH.
    unfold prefix. split.
    + intros [[post E] | (pre & post & E)].
      * exists [], post. exact E.
      * exists (c :: pre), post. simpl. congruence.
    + intros (pre & post & E). destruct pre as [|c' pre]; simpl in E.
      * left. eauto.
      * right. inversion E; subst. eauto.
Qed.

Lemma includes_false (s t : str) :
  includes s t = false <-> ~ substring t s.
Proof.
  rewrite <- includes_substring. destruct (includes s t); split;
    congruence.
Qed.

Lemma startsWith_includes (s t : str) :
  startsWith s t = true -> includes s t = true.
Proof. destruct s; simpl; intros ->; reflexivity. Qed.

Lemma startsWith_refl (s : str) : startsWith s s = true.
Proof. apply startsWith_prefix. exists []. now rewrite app_nil_r. Qed.

Lemma eqb_startsWith (s t : str) : eqb s t = true -> startsWith s t = true.
Proof. rewrite eqb_eq. intros ->. apply startsWith_refl. Qed.

Lemma trimStart_no_space (s : str) :
  forallb (fun c => negb (isWhiteSpace c)) s = true -> trimStart s = s.
Proof.
  destruct s as [|c s]; simpl; [reflexivity|].
  destruct (isWhiteSpace c); simpl; [discriminate | reflexivity].
Qed.

Lemma isDigit_not_space (c : N) : isDigit c = true -> isWhiteSpace c = false.
Proof.
  unfold isDigit, isWhiteSpace. rewrite andb_true_iff, !N.leb_le.
  intros [H1 H2].
  repeat match goal with
         | |- context [(?a <=? ?b)%N] =>
             destruct (N.leb_spec a b); try lia
         | |- context [(?a =? ?b)%N] =>
             destruct (N.eqb_spec a b); try lia
         end; reflexivity.
Qed.

Lemma trimStart_head (c : N) (s : str) :
  isWhiteSpace c = false -> trimStart (c :: s) = c :: s.
Proof. simpl. intros ->. reflexivity. Qed.

(** Trimming leaves alone a string that neither starts nor ends with white
    space; a string of digits is one. *)
Lemma trim_digits (s : str) : allDigits s = true -> trim s = s.
Proof.
  unfold allDigits, trim. destruct s as [|c s]; [discriminate|].
  intros D. rewrite forallb_forall in D.
  rewrite trimStart_head by (apply isDigit_not_space, D; now left).
  assert (E : exists d r, rev (c :: s) = d :: r /\ In d (c :: s)).
  { destruct (rev (c :: s)) as [|d r] eqn:R.
    - apply (f_equal (@List.length N)) in R. rewrite length_rev in R.
      discriminate.
    - exists d, r. split; [reflexivity|]. apply in_rev. rewrite R.
      now left. }
  destruct E as (d & r & R & I). rewrite R.
  rewrite trimStart_head by (apply isDigit_not_space, D, I).
  rewrite <- R. apply rev_involutive.
Qed.

Lemma trimStart_spaces (s : str) :
  trimStart s = [] <-> Forall (fun c => isWhiteSpace c = true) s.
Proof.
  induction s as [|c s IH]; simpl.
  - split; auto.
  - destruct (isWhiteSpace c) eqn:W.
    + rewrite IH. split; [intros; constructor; auto|].
      intros F; inversion F; auto.
    + split; [discriminate|]. intros F; inversion F; congruence.
Qed.

(** A string trims to the empty string exactly when it is made of white
    space only. *)
Lemma trim_empty (s : str) :
  trim s = [] <-> Forall (fun c => isWhiteSpace c = true) s.
Proof.
  unfold trim. split.
  - intros E. destruct (trimStart s) as [|c r] eqn:T.
    + now apply trimStart_spaces.
    + exfalso. apply (f_equal (@rev N)) in E. rewrite rev_involutive in E.
      simpl in E. apply trimStart_spaces in E.
      assert (W : isWhiteSpace c = true).
      { rewrite Forall_forall in E. apply E. apply in_or_app. right.
        now left. }
      clear E. induction s as [|x s IH]; simpl in T; [discriminate|].
      destruct (isWhiteSpace x) eqn:Wx; [auto|]. congruence.
  - intros F. apply trimStart_spaces in F. rewrite F. reflexivity.
Qed.

End StringFacts.

(** ** The transit-mode classifier *)

Section Classifier.
Import Js JourneyPlanner Spec.
Context `{Runtime}.

Lemma ruleMatches_existsb (u : str) (rule : list string * LegType) :
  existsb (fun token => includes u (lit token)) (fst rule) = true
  <-> ruleMatches u rule.
Proof.
  unfold ruleMatches. rewrite existsb_exists.
  split; intros (token & I & M); exists token; split; auto;
    now apply includes_substring.
Qed.

Lemma firstMatch_classify (u : str) rules kind :
  firstMatch u rules kind <-> classify u rules = kind.
Proof.
  split.
  - induction 1 as [|rule rules M|rule rules kind N _ IH]; simpl.
    + reflexivity.
    + apply ruleMatches_existsb in M. now rewrite M.
    + destruct (existsb _ (fst rule)) eqn:E; [|exact IH].
      apply ruleMatches_existsb in E. contradiction.
  - revert kind. induction rules as [|rule rules IH]; simpl; intros kind E.
    + subst. constructor.
    + destruct (existsb _ (fst rule)) eqn:M.
      * subst. constructor. now apply ruleMatches_existsb.
      * apply firstMatch_later; [|now apply IH].
        rewrite <- ruleMatches_existsb. congruence.
Qed.

Lemma mapTransportTypeV2_classify (productName : str) :
  mapTransportTypeV2 productName =
  classify (toUpperCase (stripCombiningMarks (normalizeNFD productName)))
           modeRules.
Proof.
  unfold mapTransportTypeV2.
  set (u := toUpperCase (stripCombiningMarks (normalizeNFD productName))).
  cbn [classify modeRules existsb fst snd].
  rewrite !orb_false_r, !orb_assoc.
  destruct (includes u (lit "BUS")); reflexivity.
Qed.

(** C5. The classifier is total and decides by the first matching rule: on
    every product name it gives the kind of the first rule, in the order
    walk, metro, train, tram, ship, bus, one of whose tokens occurs in the
    name once decomposed, stripped of combining marks and upper-cased; it
    gives exactly that kind, and it gives [bus] when no token occurs, as for
    the empty string. *)
Theorem mapTransportTypeV2_first_match (productName : str) :
  let upper :=
    toUpperCase (stripCombiningMarks (normalizeNFD productName)) in
  (exists kind, mapTransportTypeV2 productName = kind) /\
  (forall kind,
      mapTransportTypeV2 productName = kind <->
      firstMatch upper modeRules kind) /\
  ((forall rule, In rule modeRules -> ~ ruleMatches upper rule) ->
   mapTransportTypeV2 productName = bus) /\
  mapTransportTypeV2 [] = bus.
Proof.
  intros upper. split; [eauto|]. split; [|split].
  - intros kind. rewrite firstMatch_classify.
    now rewrite mapTransportTypeV2_classify.
  - intros None_. rewrite mapTransportTypeV2_classify. fold upper.
    assert (G : forall rules, incl rules modeRules ->
                              classify upper rules = bus).
    { induction rules as [|rule rules IH]; intros I; simpl; [reflexivity|].
      destruct (existsb _ (fst rule)) eqn:E.
      - apply ruleMatches_existsb in E. exfalso.
        apply (None_ rule); [apply I; now left | exact E].
      - apply IH. intros r Hr. apply I. now right. }
    apply G, incl_refl.
  - unfold mapTransportTypeV2. rewrite normalizeNFD_empty. simpl.
    rewrite toUpperCase_empty. reflexivity.
Qed.

End Classifier.

(** ** Merging of consecutive walk legs *)

Section Merging.
Import Js JourneyPlanner Spec.

Lemma In_nonNull {A} (x : A) (xs : list (option A)) :
  In x (JourneyPlanner.nonNull xs) <-> In (Some x) xs.
Proof.
  induction xs as [|[y|] xs IH]; simpl; [tauto| |].
  - rewrite IH. split; intros [E|I]; auto; left; congruence.
  - rewrite IH. split; [auto|]. intros [E|I]; [discriminate | auto].
Qed.

Lemma nonNull_app {A} (xs ys : list (option A)) :
  JourneyPlanner.nonNull (xs ++ ys) =
  JourneyPlanner.nonNull xs ++ JourneyPlanner.nonNull ys.
Proof.
  induction xs as [|[x|] xs IH]; simpl; [reflexivity| |]; now rewrite IH.
Qed.

Lemma lastOf_snoc {A} (l : list A) (x : A) : lastOf (l ++ [x]) = Some x.
Proof.
  induction l as [|y l IH]; [reflexivity|].
  simpl. destruct (l ++ [x]) eqn:E; [|exact IH].
  destruct l; discriminate.
Qed.

Lemma lastOf_none {A} (l : list A) : lastOf l = None -> l = [].
Proof.
  destruct l as [|x l] using rev_ind; [reflexivity|].
  rewrite lastOf_snoc. discriminate.
Qed.

Lemma isWalk_false (t : LegType) : t <> walk -> isWalk t = false.
Proof. destruct t; simpl; congruence. Qed.

Lemma isWalk_true (t : LegType) : isWalk t = true <-> t = walk.
Proof. destruct t; simpl; split; congruence. Qed.

Lemma mergeStep_nil (leg : TripLeg) : mergeStep [] leg = [leg].
Proof. reflexivity. Qed.

Lemma mergeStep_snoc (legs : list TripLeg) (lastLeg leg : TripLeg) :
  mergeStep (legs ++ [lastLeg]) leg =
  if isWalk (type lastLeg) && isWalk (type leg)
  then legs ++ [extendWalk lastLeg leg]
  else legs ++ [lastLeg; leg].
Proof.
  unfold mergeStep. rewrite lastOf_snoc, removelast_last, <- app_assoc.
  reflexivity.
Qed.

Lemma mergeStep_app (front back : list TripLeg) (leg : TripLeg) :
  back <> [] -> mergeStep (front ++ back) leg = front ++ mergeStep back leg.
Proof.
  intros N. destruct (exists_last N) as (b & a & ->).
  rewrite app_assoc, !mergeStep_snoc.
  destruct (isWalk (type a) && isWalk (type leg)); now rewrite app_assoc.
Qed.

Lemma mergeStep_not_nil (legs : list TripLeg) (leg : TripLeg) :
  mergeStep legs leg <> [].
Proof.
  unfold mergeStep. destruct (lastOf legs) as [l|];
    [destruct (isWalk (type l) && isWalk (type leg))|];
    intros E; apply app_eq_nil in E; destruct E; discriminate.
Qed.

(** The loop touches only the end of the list it has built. *)
Lemma fold_mergeStep_app (ls front back : list TripLeg) :
  back <> [] ->
  fold_left mergeStep ls (front ++ back) =
  front ++ fold_left mergeStep ls back.
Proof.
  revert back. induction ls as [|x ls IH]; intros back N; simpl.
  - reflexivity.
  - rewrite mergeStep_app by exact N. apply IH, mergeStep_not_nil.
Qed.

Lemma mergeLegs_snoc (ls : list TripLeg) (x : TripLeg) :
  mergeLegs (ls ++ [x]) = mergeStep (mergeLegs ls) x.
Proof. unfold mergeLegs. now rewrite fold_left_app. Qed.

Lemma mergeLegs_cons (x : TripLeg) (ls : list TripLeg) :
  mergeLegs (x :: ls) = fold_left mergeStep ls [x].
Proof. reflexivity. Qed.

Lemma mergeLegs_not_nil (ls : list TripLeg) : ls <> [] -> mergeLegs ls <> [].
Proof.
  destruct ls as [|x ls] using rev_ind; [congruence|]. intros _.
  rewrite mergeLegs_snoc. apply mergeStep_not_nil.
Qed.

(** The last leg built is of the type of the last leg read. *)
Lemma lastOf_mergeLegs (ls : list TripLeg) :
  option_map type (lastOf (mergeLegs ls)) = option_map type (lastOf ls).
Proof.
  destruct ls as [|x ls _] using rev_ind; [reflexivity|].
  rewrite mergeLegs_snoc, lastOf_snoc. unfold mergeStep.
  destruct (lastOf (mergeLegs ls)) as [l|] eqn:L.
  - destruct (isWalk (type l) && isWalk (type x)) eqn:W.
    + rewrite lastOf_snoc. simpl. apply andb_true_iff in W.
      destruct W as [W1 W2]. apply isWalk_true in W1, W2. congruence.
    + now rewrite lastOf_snoc.
  - now rewrite lastOf_snoc.
Qed.

Lemma extendWalk_type (a b : TripLeg) : type (extendWalk a b) = type a.
Proof. reflexivity. Qed.

Lemma mergedRun_type first rest : type (mergedRun first rest) = type first.
Proof.
  unfold mergedRun. revert first.
  induction rest as [|r rest IH]; intros first; simpl; [reflexivity|].
  now rewrite IH.
Qed.

(** A run of walk legs after a walk leg is folded into that leg. *)
Lemma fold_mergeStep_run (rest front : list TripLeg) (first : TripLeg) :
  type first = walk ->
  Forall (fun leg => type leg = walk) rest ->
  fold_left mergeStep rest (front ++ [first]) =
  front ++ [mergedRun first rest].
Proof.
  unfold mergedRun. revert first.
  induction rest as [|r rest IH]; intros first W F; simpl; [reflexivity|].
  inversion F as [|? ? Wr F']; subst.
  rewrite mergeStep_snoc, W, Wr. simpl. apply IH; auto.
Qed.

(** A non-walk leg starts afresh. *)
Lemma fold_mergeStep_fresh (post front : list TripLeg) :
  (forall leg, hd_error post = Some leg -> type leg <> walk) ->
  fold_left mergeStep post front = front ++ mergeLegs post.
Proof.
  intros Hd. destruct post as [|q qs]; simpl.
  - now rewrite app_nil_r.
  - assert (Q : isWalk (type q) = false).
    { apply isWalk_false, Hd. reflexivity. }
    assert (S1 : mergeStep front q = front ++ [q]).
    { unfold mergeStep. destruct (lastOf front) as [l|]; [|reflexivity].
      now rewrite Q, andb_false_r. }
    rewrite S1, fold_mergeStep_app by discriminate. reflexivity.
Qed.

Lemma mergeLegs_head (q : TripLeg) (qs : list TripLeg) :
  type q <> walk -> exists tail, mergeLegs (q :: qs) = q :: tail.
Proof.
  intros Q. rewrite mergeLegs_cons. destruct qs as [|q1 qs]; simpl.
  - now exists [].
  - change [q] with ([] ++ [q]). rewrite mergeStep_snoc.
    rewrite (isWalk_false _ Q).
    simpl. change [q; q1] with ([q] ++ [q1]).
    rewrite fold_mergeStep_app by discriminate. simpl. eauto.
Qed.

(** The shape of the merged list around a maximal run of walk legs. *)
Lemma mergeLegs_run (pre post rest : list TripLeg) (first : TripLeg) :
  type first = walk ->
  Forall (fun leg => type leg = walk) rest ->
  (forall leg, lastOf pre = Some leg -> type leg <> walk) ->
  (forall leg, hd_error post = Some leg -> type leg <> walk) ->
  mergeLegs (pre ++ (first :: rest) ++ post) =
  mergeLegs pre ++ mergedRun first rest :: mergeLegs post.
Proof.
  intros W F Pre Post. unfold mergeLegs at 1.
  rewrite !fold_left_app. fold (mergeLegs pre). simpl.
  assert (S1 : mergeStep (mergeLegs pre) first = mergeLegs pre ++ [first]).
  { unfold mergeStep. destruct (lastOf (mergeLegs pre)) as [l|] eqn:L;
      [|reflexivity].
    pose proof (lastOf_mergeLegs pre) as T. rewrite L in T. simpl in T.
    destruct (lastOf pre) as [l'|] eqn:L'; [|discriminate].
    simpl in T. injection T as T. specialize (Pre l' eq_refl).
    rewrite T, (isWalk_false _ Pre). reflexivity. }
  rewrite S1, fold_mergeStep_run by assumption.
  rewrite fold_mergeStep_fresh by assumption.
  now rewrite <- app_assoc.
Qed.

Lemma add_assoc (a b c : num) : add (add a b) c = add a (add b c).
Proof. destruct a, b, c; simpl; try reflexivity. now rewrite Z.add_assoc. Qed.

Lemma add_zero_r (a : num) : add a (Fin 0) = a.
Proof. destruct a; simpl; [now rewrite Z.add_0_r | reflexivity]. Qed.

Lemma mergedRun_duration first rest :
  durationSeconds (mergedRun first rest) = sumDurations (first :: rest).
Proof.
  unfold mergedRun, sumDurations. revert first.
  induction rest as [|r rest IH]; intros first; simpl.
  - now rewrite add_zero_r.
  - rewrite IH. simpl. now rewrite add_assoc.
Qed.

Lemma mergedRun_end first rest final :
  lastOf (first :: rest) = Some final -> rest <> [] ->
  arrivalTime (mergedRun first rest) = arrivalTime final /\
  destinationName (mergedRun first rest) = destinationName final.
Proof.
  unfold mergedRun. revert first.
  induction rest as [|r rest IH]; intros first L N; [congruence|].
  destruct rest as [|r' rest].
  - simpl in *. injection L as <-. auto.
  - apply IH; [exact L | discriminate].
Qed.

Lemma mergedRun_start first rest :
  let m := mergedRun first rest in
  departureTime m = departureTime first /\ originName m = originName first /\
  type m = type first /\ line m = line first /\
  direction m = direction first /\ platform m = platform first.
Proof.
  unfold mergedRun. revert first.
  induction rest as [|r rest IH]; intros first; simpl; [tauto|].
  apply (IH (extendWalk first r)).
Qed.

End Merging.

(** ** The journey normaliser *)

Section Journey.
Import Js JourneyPlanner Spec.
Context `{Runtime}.

Lemma lastOf_some {A} (l : list A) : l <> [] -> exists x, lastOf l = Some x.
Proof.
  intros N. destruct (exists_last N) as (b & a & ->).
  exists a. apply lastOf_snoc.
Qed.

(** A journey gives a proposal exactly when some leg of it parses, and the
    legs of the proposal are the parsed legs, merged. *)
Lemma parseJourney_some (journey : RawJourney) (raws : list RawLeg) :
  rawLegs journey = Some raws -> parsedLegs raws <> [] ->
  exists proposal,
    parseJourneyToTripProposal journey = Some proposal /\
    legs proposal = mergeLegs (parsedLegs raws).
Proof.
  intros R N. unfold parseJourneyToTripProposal. rewrite R.
  destruct raws as [|r0 raws]; [now elim N|].
  set (ps := parsedLegs (r0 :: raws)) in *.
  destruct ps as [|p0 ps'] eqn:P; [now elim N|].
  assert (M : mergeLegs (p0 :: ps') <> []) by (apply mergeLegs_not_nil; congruence).
  destruct (lastOf_some _ M) as [l L]. rewrite L.
  destruct (mergeLegs (p0 :: ps')) as [|m ms] eqn:E; [now elim M|].
  simpl hd_error. cbv iota. eexists. split; reflexivity.
Qed.

Lemma parseJourney_legs (journey : RawJourney) (proposal : TripProposal) :
  parseJourneyToTripProposal journey = Some proposal ->
  exists raws,
    rawLegs journey = Some raws /\ parsedLegs raws <> [] /\
    legs proposal = mergeLegs (parsedLegs raws).
Proof.
  intros P. destruct (rawLegs journey) as [raws|] eqn:R.
  - destruct (parsedLegs raws) as [|p0 ps] eqn:E.
    + exfalso. unfold parseJourneyToTripProposal in P. rewrite R in P.
      destruct raws; [discriminate|]. rewrite E in P. discriminate.
    + destruct (parseJourney_some journey raws R) as (q & Q1 & Q2).
      { rewrite E. discriminate. }
      exists raws. rewrite E in *. repeat split; congruence.
  - unfold parseJourneyToTripProposal in P. rewrite R in P. discriminate.
Qed.

Lemma noAdjacentWalks_snoc (legs : list TripLeg) (x : TripLeg) :
  noAdjacentWalks (legs ++ [x]) <->
  noAdjacentWalks legs /\
  (forall a, lastOf legs = Some a -> ~ (type a = walk /\ type x = walk)).
Proof.
  unfold noAdjacentWalks. split.
  - intros N. split.
    + intros before a b after ->. apply (N before a b (after ++ [x])).
      rewrite <- app_assoc. reflexivity.
    + intros a L. destruct legs as [|y legs] using rev_ind;
        [discriminate|]. rewrite lastOf_snoc in L. injection L as ->.
      apply (N legs a x []). rewrite <- app_assoc. reflexivity.
  - intros [N L] before a b after E.
    destruct after as [|z after] using rev_ind.
    + change (before ++ [a; b]) with (before ++ [a] ++ [b]) in E.
      rewrite app_assoc in E. apply app_inj_tail in E. destruct E as [-> ->].
      apply L, lastOf_snoc.
    + clear IHafter.
      change (before ++ a :: b :: after ++ [z])
        with (before ++ (a :: b :: after) ++ [z]) in E.
      rewrite app_assoc in E. apply app_inj_tail in E. destruct E as [-> ->].
      apply (N before a b after). reflexivity.
Qed.

Lemma noAdjacentWalks_mergeLegs (ls : list TripLeg) :
  noAdjacentWalks (mergeLegs ls).
Proof.
  induction ls as [|x ls IH] using rev_ind.
  - intros before a b after E. destruct before; discriminate.
  - rewrite mergeLegs_snoc.
    destruct (mergeLegs ls) as [|l built _] using rev_ind.
    + rewrite mergeStep_nil. intros before a b after E.
      destruct before as [|? [|? ?]]; discriminate.
    + rewrite mergeStep_snoc. apply noAdjacentWalks_snoc in IH.
      destruct IH as [IH1 IH2].
      destruct (isWalk (type l) && isWalk (type x)) eqn:W.
      * apply noAdjacentWalks_snoc. split; [exact IH1|].
        intros a L. rewrite extendWalk_type. apply IH2, L.
      * change (built ++ [l; x]) with (built ++ [l] ++ [x]).
        rewrite app_assoc. apply noAdjacentWalks_snoc. split.
        -- apply noAdjacentWalks_snoc. split; assumption.
        -- intros a L. rewrite lastOf_snoc in L. injection L as <-.
           intros [Wl Wx]. rewrite Wl, Wx in W. discriminate.
Qed.

(** C1. When the parsed legs of a journey hold a maximal run of two or more
    consecutive walk legs, the journey is normalised to a proposal whose legs
    have, in the place of the run, one walk leg: before it come the merged
    legs that precede the run, after it the merged legs that follow, neither
    neighbour is a walk leg, its duration is the sum of the durations of the
    run, and its arrival time and destination name are those of the last leg
    of the run. *)
Theorem merged_walk_run
  (journey : RawJourney) (raws : list RawLeg) (pre run post : list TripLeg) :
  rawLegs journey = Some raws ->
  parsedLegs raws = pre ++ run ++ post ->
  Forall (fun leg => type leg = walk) run ->
  (2 <= List.length run)%nat ->
  (forall leg, lastOf pre = Some leg -> type leg <> walk) ->
  (forall leg, hd_error post = Some leg -> type leg <> walk) ->
  exists proposal merged final,
    parseJourneyToTripProposal journey = Some proposal /\
    legs proposal = mergeLegs pre ++ merged :: mergeLegs post /\
    (forall leg, lastOf (mergeLegs pre) = Some leg -> type leg <> walk) /\
    (forall leg, hd_error (mergeLegs post) = Some leg -> type leg <> walk) /\
    type merged = walk /\
    durationSeconds merged = sumDurations run /\
    lastOf run = Some final /\
    arrivalTime merged = arrivalTime final /\
    destinationName merged = destinationName final.
Proof.
  intros R P F Len Pre Post.
  destruct run as [|first rest]; [simpl in Len; lia|].
  destruct rest as [|second rest]; [simpl in Len; lia|].
  inversion F as [|? ? W F']; subst.
  destruct (parseJourney_some journey raws R) as (proposal & Q & L).
  { rewrite P. destruct pre; discriminate. }
  destruct (lastOf_some (first :: second :: rest)) as [final Last];
    [discriminate|].
  destruct (mergedRun_end first (second :: rest) final Last) as [A D];
    [discriminate|].
  exists proposal, (mergedRun first (second :: rest)), final.
  split; [exact Q|]. split.
  { rewrite L, P. now apply mergeLegs_run. }
  split.
  { intros leg E. pose proof (lastOf_mergeLegs pre) as T. rewrite E in T.
    destruct (lastOf pre) as [l|] eqn:E'; [|discriminate].
    simpl in T. injection T as T. rewrite T. now apply Pre. }
  split.
  { intros leg E. destruct post as [|q qs]; [discriminate|].
    destruct (mergeLegs_head q qs) as [tail T]; [now apply Post|].
    rewrite T in E. injection E as <-. now apply Post. }
  split; [now rewrite mergedRun_type|].
  split; [apply mergedRun_duration|]. auto.
Qed.

(** C7. The legs of a proposal the journey normaliser produces are not empty,
    and no two neighbours among them are both walk legs; so it is for the
    proposal of every journey and for every proposal of a trips response. *)
Theorem proposal_legs_invariant :
  (forall journey proposal,
      parseJourneyToTripProposal journey = Some proposal ->
      legs proposal <> [] /\ noAdjacentWalks (legs proposal)) /\
  (forall journeys proposal,
      In proposal (parseTripsResponse journeys) ->
      legs proposal <> [] /\ noAdjacentWalks (legs proposal)).
Proof.
  assert (P : forall journey proposal,
             parseJourneyToTripProposal journey = Some proposal ->
             legs proposal <> [] /\ noAdjacentWalks (legs proposal)).
  { intros journey proposal P.
    destruct (parseJourney_legs journey proposal P) as (raws & R & N & ->).
    split; [now apply mergeLegs_not_nil | apply noAdjacentWalks_mergeLegs]. }
  split; [exact P|]. intros [js|] proposal I; [|destruct I].
  unfold parseTripsResponse in I. apply In_nonNull, in_map_iff in I.
  destruct I as (journey & E & _). exact (P journey proposal E).
Qed.

(** C8. Merging a run of walk legs changes the arrival time, the duration and
    the destination name only: the walk leg that stands for the run in the
    proposal has the departure time, origin name, type, line, direction and
    platform of the first leg of the run. *)
Theorem merged_walk_keeps_start
  (journey : RawJourney) (raws : list RawLeg)
  (pre post rest : list TripLeg) (first : TripLeg) :
  rawLegs journey = Some raws ->
  parsedLegs raws = pre ++ (first :: rest) ++ post ->
  Forall (fun leg => type leg = walk) (first :: rest) ->
  rest <> [] ->
  (forall leg, lastOf pre = Some leg -> type leg <> walk) ->
  (forall leg, hd_error post = Some leg -> type leg <> walk) ->
  exists proposal merged,
    parseJourneyToTripProposal journey = Some proposal /\
    legs proposal = mergeLegs pre ++ merged :: mergeLegs post /\
    departureTime merged = departureTime first /\
    originName merged = originName first /\
    type merged = type first /\
    line merged = line first /\
    direction merged = direction first /\
    platform merged = platform first.
Proof.
  intros R P F N Pre Post. inversion F as [|? ? W F']; subst.
  destruct (parseJourney_some journey raws R) as (proposal & Q & L).
  { rewrite P. destruct pre; discriminate. }
  exists proposal, (mergedRun first rest).
  split; [exact Q|]. split.
  { rewrite L, P. now apply mergeLegs_run. }
  apply mergedRun_start.
Qed.

End Journey.

(** ** The departure normaliser *)

Section Departures.
Import Js Transport DepartureSpec.
Context `{Runtime}.

(** What a record that is kept is made of. *)
Lemma parseDeparture_some (raw : RawDeparture) (now : Date) (d : Departure) :
  parseDeparture raw now = Some d ->
  exists sched,
    scheduled raw = Some sched /\ sched <> [] /\
    scheduledTime d = newDate sched /\
    expectedTime d = newDate (or_default (expected raw) sched) /\
    lt (roundDiv (sub (getTime (expectedTime d)) (getTime now)) 60000)
       (Fin (-1)) = false /\
    minutesUntil d =
      max0 (roundDiv (sub (getTime (expectedTime d)) (getTime now)) 60000) /\
    isDelayed d =
      gt (sub (getTime (expectedTime d)) (getTime (scheduledTime d)))
         (Fin 60000).
Proof.
  unfold parseDeparture. destruct (scheduled raw) as [[|c s]|];
    try discriminate.
  destruct (lt _ (Fin (-1))) eqn:Stale; [discriminate|].
  intros E. injection E as <-. exists (c :: s). simpl.
  repeat split; try reflexivity; [discriminate | exact Stale].
Qed.

(** Whether a record with a scheduled time is kept is decided by the rounded
    minutes until its expected time. *)
Lemma parseDeparture_none (raw : RawDeparture) (now : Date) (sched : str) :
  scheduled raw = Some sched -> sched <> [] ->
  (parseDeparture raw now = None <->
   lt (roundDiv (sub (getTime (newDate (or_default (expected raw) sched)))
                     (getTime now)) 60000) (Fin (-1)) = true).
Proof.
  intros S N. unfold parseDeparture. rewrite S.
  destruct sched as [|c s]; [now elim N|].
  destruct (lt _ (Fin (-1))); split; congruence.
Qed.

Lemma roundDiv_minutes_stale (x : Z) :
  ((2 * x + 60000) / (2 * 60000) <? -1) = true <-> x < -90000.
Proof.
  rewrite Z.ltb_lt. split; intros L.
  - pose proof (Z.mul_div_le (2 * x + 60000) (2 * 60000)) as D.
    pose proof (Z.mul_succ_div_gt (2 * x + 60000) (2 * 60000)) as D'.
    lia.
  - apply Z.div_lt_upper_bound; lia.
Qed.

Lemma insertBy_perm {A} (cmp : A -> A -> num) (x : A) (l : list A) :
  Permutation (x :: l) (insertBy cmp x l).
Proof.
  induction l as [|y l IH]; cbn [insertBy]; [reflexivity|].
  destruct (gt (cmp x y) (Fin 0)); [|reflexivity].
  rewrite perm_swap. now apply perm_skip.
Qed.

Lemma sortBy_perm {A} (cmp : A -> A -> num) (l : list A) :
  Permutation l (sortBy cmp l).
Proof.
  induction l as [|x l IH]; simpl; [reflexivity|].
  rewrite <- insertBy_perm. now apply perm_skip.
Qed.

Lemma In_firstn {A} (n : nat) (x : A) (l : list A) :
  In x (firstn n l) -> In x l.
Proof.
  intros I. rewrite <- (firstn_skipn n l). apply in_or_app. now left.
Qed.

(** Every departure of the output is the parse of a record of the input. *)
Lemma response_from_record
  (data : option (list RawDeparture)) (clock : Z) (d : Departure) :
  In d (parseDeparturesResponse data clock) ->
  exists records raw,
    data = Some records /\ In raw records /\
    parseDeparture raw (mkDate (Fin clock)) = Some d.
Proof.
  destruct data as [records|]; unfold parseDeparturesResponse;
    [|intros []]. intros I.
  apply In_firstn in I.
  apply (Permutation_in _ (Permutation_sym (sortBy_perm _ _))) in I.
  apply In_nonNull, in_map_iff in I. destruct I as (raw & E & I).
  eauto.
Qed.

Lemma delayed_iff_late (d : Departure) :
  isDelayed d =
    gt (sub (getTime (expectedTime d)) (getTime (scheduledTime d)))
       (Fin 60000) ->
  (isDelayed d = true <->
   exists e s, getTime (expectedTime d) = Fin e /\
               getTime (scheduledTime d) = Fin s /\ 60000 < e - s).
Proof.
  intros ->. destruct (getTime (expectedTime d)) as [e|],
    (getTime (scheduledTime d)) as [s|]; simpl.
  - rewrite Z.ltb_lt. split.
    + intros L. exists e, s. auto.
    + intros (e' & s' & E & S & L). congruence.
  - split; [discriminate | intros (e' & s' & _ & S & _); discriminate].
  - split; [discriminate | intros (e' & s' & E & _); discriminate].
  - split; [discriminate | intros (e' & s' & E & _); discriminate].
Qed.

(** C4. A departure the normaliser produces is flagged delayed exactly when
    its expected time is more than 60000 milliseconds after its scheduled
    time; this holds of the parse of every record and of every entry of the
    normalised response. *)
Theorem isDelayed_iff :
  (forall raw now d,
      parseDeparture raw now = Some d ->
      (isDelayed d = true <->
       exists e s, getTime (expectedTime d) = Fin e /\
                   getTime (scheduledTime d) = Fin s /\ 60000 < e - s)) /\
  (forall data clock d,
      In d (parseDeparturesResponse data clock) ->
      (isDelayed d = true <->
       exists e s, getTime (expectedTime d) = Fin e /\
                   getTime (scheduledTime d) = Fin s /\ 60000 < e - s)).
Proof.
  assert (P : forall raw now d,
             parseDeparture raw now = Some d ->
             (isDelayed d = true <->
              exists e s, getTime (expectedTime d) = Fin e /\
                          getTime (scheduledTime d) = Fin s /\ 60000 < e - s)).
  { intros raw now d E. apply delayed_iff_late.
    destruct (parseDeparture_some raw now d E) as (? & ? & ? & ? & ? & ? & ? & D).
    exact D. }
  split; [exact P|]. intros data clock d I.
  destruct (response_from_record data clock d I) as (records & raw & _ & _ & E).
  exact (P raw _ d E).
Qed.

(** C9. A record with a scheduled time and no expected time of its own is
    parsed with its expected time equal to its scheduled time, and is not
    flagged delayed. *)
Theorem expected_defaults_to_scheduled
  (raw : RawDeparture) (now : Date) (d : Departure) :
  truthy (scheduled raw) = true ->
  expected raw = None ->
  parseDeparture raw now = Some d ->
  expectedTime d = scheduledTime d /\ isDelayed d = false.
Proof.
  intros S E P.
  destruct (parseDeparture_some raw now d P)
    as (sched & Sc & _ & St & Et & _ & _ & D).
  rewrite E in Et. simpl in Et.
  assert (Eq : expectedTime d = scheduledTime d) by congruence.
  split; [exact Eq|]. rewrite D, Eq.
  destruct (getTime (scheduledTime d)) as [t|]; simpl; [|reflexivity].
  apply Z.ltb_ge. lia.
Qed.

(** C3, as the code has it.  A record with a scheduled time whose expected
    time is a date is dropped exactly when the expected time is more than
    90000 milliseconds before now, the minutes until it rounding below minus
    one; a dropped record leaves no trace in the normalised response. *)
Theorem stale_departure_excluded
  (raw : RawDeparture) (clock e : Z) (from : str) :
  expectedString raw from ->
  getTime (newDate from) = Fin e ->
  (parseDeparture raw (mkDate (Fin clock)) = None <-> e - clock < -90000) /\
  (e - clock < -90000 ->
   forall before after,
     parseDeparturesResponse (Some (before ++ raw :: after)) clock =
     parseDeparturesResponse (Some (before ++ after)) clock).
Proof.
  intros (sched & S & N & ->) T.
  assert (I : parseDeparture raw (mkDate (Fin clock)) = None
              <-> e - clock < -90000).
  { rewrite (parseDeparture_none raw _ sched S N), T. simpl.
    apply roundDiv_minutes_stale. }
  split; [exact I|]. intros L before after. apply I in L.
  unfold parseDeparturesResponse.
  rewrite !map_app, !nonNull_app. cbn [map]. rewrite L. reflexivity.
Qed.

(** *** Order, cap and minutes of the response *)

Lemma notLater_or_gt (a b : Departure) :
  validExpected a -> validExpected b ->
  if gt (byExpectedTime a b) (Fin 0) then notLater b a else notLater a b.
Proof.
  intros [x X] [y Y]. unfold byExpectedTime, notLater. rewrite X, Y. simpl.
  destruct (0 <? x - y) eqn:C.
  - apply Z.ltb_lt in C. apply Z.leb_le. lia.
  - apply Z.ltb_ge in C. apply Z.leb_le. lia.
Qed.

Lemma insertBy_HdRel (a x : Departure) (l : list Departure) :
  notLater a x -> HdRel notLater a l ->
  HdRel notLater a (insertBy byExpectedTime x l).
Proof.
  intros A Hd. destruct l as [|y l]; cbn [insertBy]; [now constructor|].
  inversion Hd; subst.
  destruct (gt (byExpectedTime x y) (Fin 0)); now constructor.
Qed.

Lemma insertBy_sorted (x : Departure) (l : list Departure) :
  validExpected x -> Forall validExpected l ->
  Sorted notLater l -> Sorted notLater (insertBy byExpectedTime x l).
Proof.
  intros X V S. induction S as [|y l S IH Hd]; cbn [insertBy].
  - repeat constructor.
  - inversion V as [|? ? Y V']; subst.
    pose proof (notLater_or_gt x y X Y) as C.
    destruct (gt (byExpectedTime x y) (Fin 0)).
    + constructor; [now apply IH | now apply insertBy_HdRel].
    + repeat constructor; assumption.
Qed.

Lemma sortBy_sorted (l : list Departure) :
  Forall validExpected l -> Sorted notLater (sortBy byExpectedTime l).
Proof.
  induction 1 as [|x l X V IH]; simpl; [constructor|].
  apply insertBy_sorted; [exact X | | exact IH].
  rewrite Forall_forall in *. intros d I. apply V.
  exact (Permutation_in _ (Permutation_sym (sortBy_perm byExpectedTime l)) I).
Qed.

Lemma Sorted_firstn (n : nat) (l : list Departure) :
  Sorted notLater l -> Sorted notLater (firstn n l).
Proof.
  intros S. revert n. induction S as [|x l S IH Hd]; intros [|n];
    cbn [firstn]; try constructor.
  - apply IH.
  - destruct Hd; destruct n; cbn [firstn]; now constructor.
Qed.

Lemma parseDeparture_valid (raw : RawDeparture) (now : Date) (d : Departure) :
  validTimes raw -> parseDeparture raw now = Some d -> validExpected d.
Proof.
  intros V P. destruct (parseDeparture_some raw now d P)
    as (sched & S & _ & _ & E & _).
  unfold validExpected. rewrite E.
  destruct (expected raw) as [[|c x]|] eqn:X; simpl; apply V; auto.
Qed.

(** The response holds at most 30 departures, whatever the payload. *)
Lemma response_capped (data : option (list RawDeparture)) (clock : Z) :
  (List.length (parseDeparturesResponse data clock) <= 30)%nat.
Proof.
  destruct data as [records|]; unfold parseDeparturesResponse.
  - apply firstn_le_length.
  - simpl. lia.
Qed.

(** When the time strings of every record denote dates, the response is in
    non-decreasing order of expected time and the minutes of every entry are
    a number that is not negative. *)
Lemma response_sorted_when_valid
  (records : list RawDeparture) (clock : Z) :
  Forall validTimes records ->
  Sorted notLater (parseDeparturesResponse (Some records) clock) /\
  (forall d, In d (parseDeparturesResponse (Some records) clock) ->
             exists m, minutesUntil d = Fin m /\ 0 <= m).
Proof.
  intros V. rewrite Forall_forall in V. split.
  - unfold parseDeparturesResponse. apply Sorted_firstn, sortBy_sorted.
    apply Forall_forall. intros d I.
    apply In_nonNull, in_map_iff in I. destruct I as (raw & E & I).
    exact (parseDeparture_valid raw _ d (V raw I) E).
  - intros d I.
    destruct (response_from_record _ _ _ I) as (rs & raw & R & Ir & E).
    injection R as <-.
    destruct (parseDeparture_valid raw _ d (V raw Ir) E) as [t T].
    destruct (parseDeparture_some raw _ d E) as (? & _ & _ & _ & _ & _ & M & _).
    rewrite M, T. simpl. eexists. split; [reflexivity|]. lia.
Qed.

End Departures.

(** ** The origin of a trip *)

Section Origin.
Import Js Config OriginSpec.

Lemma nonBlank_present (v : option str) (t : str) :
  present v t -> nonBlank v = Some t.
Proof.
  intros (s & -> & -> & N). unfold nonBlank.
  destruct s as [|c s]; [now elim N|].
  destruct (trim (c :: s)); [now elim N | reflexivity].
Qed.

Lemma nonBlank_absent (v : option str) : absent v -> nonBlank v = None.
Proof.
  intros A. unfold nonBlank. destruct v as [[|c s]|]; try reflexivity.
  specialize (A _ eq_refl). apply trim_empty in A. now rewrite A.
Qed.

(** C10. The origin is the first value present among the command-line value,
    the variable SLCLI_ORIGIN and the origin key of the config file, in this
    order, trimmed; a value of white space only counts as not set; with no
    value present the result is undefined.  The config file is consulted
    only when the first two sources hold nothing. *)
Theorem resolveOrigin_precedence
  (cliValue env : option str) (file : ConfigFile) :
  (forall t, present cliValue t ->
             resolveOrigin cliValue env file = Returns (Some t)) /\
  (absent cliValue ->
   forall t, present env t ->
             resolveOrigin cliValue env file = Returns (Some t)) /\
  (absent cliValue -> absent env ->
   forall config, readConfig file = Returns config ->
     (forall t, present (origin config) t ->
                resolveOrigin cliValue env file = Returns (Some t)) /\
     (absent (origin config) ->
      resolveOrigin cliValue env file = Returns None)).
Proof.
  unfold resolveOrigin. split; [|split].
  - intros t P. now rewrite (nonBlank_present _ _ P).
  - intros A t P.
    now rewrite (nonBlank_absent _ A), (nonBlank_present _ _ P).
  - intros A1 A2 config R.
    rewrite (nonBlank_absent _ A1), (nonBlank_absent _ A2), R. split.
    + intros t P. now rewrite (nonBlank_present _ _ P).
    + intros A3. now rewrite (nonBlank_absent _ A3).
Qed.

End Origin.

(** ** The stop resolver *)

Section Resolver.
Import Js Transport Cli Spec.
Context `{Runtime}.
Variable nearest : list TransportSite -> str -> outcome (option TransportSite).

Lemma find_firstWith {A} (p : A -> bool) (P : A -> Prop) (l : list A) (x : A) :
  (forall y, p y = true <-> P y) -> firstWith P l x -> find p l = Some x.
Proof.
  intros S (before & after & -> & Px & F).
  induction before as [|b before IH]; simpl.
  - apply S in Px. now rewrite Px.
  - inversion F as [|? ? Nb F']; subst.
    destruct (p b) eqn:E; [apply S in E; contradiction | now apply IH].
Qed.

Lemma find_absent {A} (p : A -> bool) (P : A -> Prop) (l : list A) :
  (forall y, p y = true <-> P y) ->
  (forall y, In y l -> ~ P y) -> find p l = None.
Proof.
  intros S N. induction l as [|b l IH]; simpl; [reflexivity|].
  destruct (p b) eqn:E.
  - apply S in E. elim (N b); [now left | exact E].
  - apply IH. intros y I. apply N. now right.
Qed.

Lemma find_filter {A} (p q : A -> bool) (l : list A) :
  (forall y, p y = true -> q y = true) -> find p (filter q l) = find p l.
Proof.
  intros I. induction l as [|b l IH]; simpl; [reflexivity|].
  destruct (q b) eqn:Q; simpl.
  - now rewrite IH.
  - destruct (p b) eqn:P; [apply I in P; congruence | exact IH].
Qed.

Lemma head_filter {A} (q : A -> bool) (l : list A) :
  hd_error (filter q l) = find q l.
Proof.
  induction l as [|b l IH]; simpl; [reflexivity|].
  destruct (q b); [reflexivity | exact IH].
Qed.

(** The resolver on a stop query, none of the two branches of it left
    implicit. *)
Lemma resolveSite_stop (sites : list TransportSite) (query : str) :
  query <> [] ->
  let trimmed := trim query in
  let q := toLowerCase trimmed in
  resolveSite nearest sites (Some query) None =
  if allDigits trimmed then
    match find (fun site => eqb (id site) trimmed) sites with
    | Some site => Returns (Some site)
    | None => Returns (Some (mkTransportSite trimmed trimmed None []))
    end
  else
    match find (fun site => eqb (toLowerCase (name site)) q) sites with
    | Some site => Returns (Some site)
    | None =>
        match find (fun site => startsWith (toLowerCase (name site)) q)
                   sites with
        | Some site => Returns (Some site)
        | None =>
            match find (fun site => includes (toLowerCase (name site)) q)
                       sites with
            | Some site => Returns (Some site)
            | None => Returns None
            end
        end
    end.
Proof.
  intros N trimmed q. unfold resolveSite.
  destruct query as [|c s]; [now elim N|]. fold trimmed. fold q.
  destruct (allDigits trimmed); [reflexivity|].
  set (inc := fun site => includes (toLowerCase (name site)) q).
  pose proof (head_filter inc sites) as Hd.
  rewrite <- (find_filter (fun site => eqb (toLowerCase (name site)) q) inc
                sites)
    by (intros y E; apply startsWith_includes, eqb_startsWith, E).
  rewrite <- (find_filter
                (fun site => startsWith (toLowerCase (name site)) q) inc
                sites)
    by (intros y E; apply startsWith_includes, E).
  destruct (filter inc sites) as [|first rest] eqn:F.
  - simpl in *. now rewrite <- Hd.
  - simpl in Hd. rewrite <- Hd.
    destruct (find _ (first :: rest)); [reflexivity|].
    destruct (find _ (first :: rest)); reflexivity.
Qed.

(** C6, as the code has it by design.  The resolver works on the stop query
    with the white space around it removed.  When the trimmed query is made
    of digits the result is always a site: the first site with that id, or
    else a placeholder with the trimmed query as id and as name; a query
    made of digits is its own trimmed form.  When the trimmed query is not
    empty and not made of digits, names are compared to it without regard to
    case: the result is the first site whose name equals it, or else the
    first whose name begins with it, or else the first whose name contains
    it, and nothing when no name contains it.  The empty string resolves to
    nothing.  Nothing is said of a query made of white space only. *)
Theorem resolveSite_by_stop (sites : list TransportSite) (query : str) :
  let result := resolveSite nearest sites (Some query) None in
  let trimmed := trim query in
  let q := toLowerCase trimmed in
  let equals site := toLowerCase (name site) = q in
  let begins site := prefix q (toLowerCase (name site)) in
  let contains site := substring q (toLowerCase (name site)) in
  (query = [] -> result = Returns None) /\
  (allDigits query = true -> trimmed = query) /\
  (allDigits trimmed = true ->
   (forall site, firstWith (fun s => id s = trimmed) sites site ->
                 result = Returns (Some site)) /\
   ((forall s, In s sites -> id s <> trimmed) ->
    result = Returns (Some (mkTransportSite trimmed trimmed None [])))) /\
  (trimmed <> [] -> allDigits trimmed = false ->
   (forall site, firstWith equals sites site ->
                 result = Returns (Some site)) /\
   ((forall s, In s sites -> ~ equals s) ->
    forall site, firstWith begins sites site ->
                 result = Returns (Some site)) /\
   ((forall s, In s sites -> ~ begins s) ->
    forall site, firstWith contains sites site ->
                 result = Returns (Some site)) /\
   ((forall s, In s sites -> ~ contains s) -> result = Returns None)).
Proof.
  intros result trimmed q equals begins contains.
  assert (Eq : forall y, eqb (toLowerCase (name y)) q = true <-> equals y)
    by (intros y; apply eqb_eq).
  assert (Bg : forall y, startsWith (toLowerCase (name y)) q = true
                         <-> begins y)
    by (intros y; apply startsWith_prefix).
  assert (Ct : forall y, includes (toLowerCase (name y)) q = true
                         <-> contains y)
    by (intros y; apply includes_substring).
  assert (Id : forall y, eqb (id y) trimmed = true <-> id y = trimmed)
    by (intros y; apply eqb_eq).
  assert (Given : trimmed <> [] -> query <> []).
  { intros T ->. now apply T. }
  split; [intros ->; reflexivity|].
  split; [apply trim_digits|].
  split.
  - intros D.
    assert (N : query <> []).
    { apply Given. intros T. rewrite T in D. discriminate D. }
    unfold result. rewrite (resolveSite_stop sites query N).
    fold trimmed. rewrite D. split.
    + intros site F. now rewrite (find_firstWith _ _ _ _ Id F).
    + intros A. now rewrite (find_absent _ _ _ Id A).
  - intros T D. pose proof (Given T) as N.
    unfold result. rewrite (resolveSite_stop sites query N).
    fold trimmed. fold q. rewrite D. split; [|split; [|split]].
    + intros site F. now rewrite (find_firstWith _ _ _ _ Eq F).
    + intros A site F.
      now rewrite (find_absent _ _ _ Eq A), (find_firstWith _ _ _ _ Bg F).
    + intros A site F.
      assert (A' : forall s, In s sites -> ~ equals s).
      { intros s I E. apply (A s I). apply Bg, eqb_startsWith, Eq, E. }
      now rewrite (find_absent _ _ _ Eq A'), (find_absent _ _ _ Bg A),
        (find_firstWith _ _ _ _ Ct F).
    + intros A.
      assert (A1 : forall s, In s sites -> ~ begins s).
      { intros s I E. apply (A s I). apply Ct, startsWith_includes, Bg, E. }
      assert (A0 : forall s, In s sites -> ~ equals s).
      { intros s I E. apply (A1 s I). apply Bg, eqb_startsWith, Eq, E. }
      now rewrite (find_absent _ _ _ Eq A0), (find_absent _ _ _ Bg A1),
        (find_absent _ _ _ Ct A).
Qed.

End Resolver.

(** * The properties on sample data *)

Section Samples.
Import Js.

Example iso_epoch :
  Host.parseIso (lit "1970-01-01T00:00:00.000Z") = Fin 0.
Proof. reflexivity. Qed.

Example iso_noon :
  Host.parseIso (lit "2026-01-17T12:00:00Z") = Fin Examples.noon.
Proof. vm_compute. reflexivity. Qed.

Example iso_not_a_date : Host.parseIso (lit "not-a-date") = NaN.
Proof. reflexivity. Qed.

(** "Pendeltåg", with its a-ring, is a train. *)
Example classify_pendeltag :
  @JourneyPlanner.mapTransportTypeV2 Host.runtime
    (lit "Pendelt" ++ [229%N] ++ lit "g") = JourneyPlanner.train.
Proof. vm_compute. reflexivity. Qed.

(** "Pendelbåt": the train rule comes before the ship rule. *)
Example classify_pendelbat :
  @JourneyPlanner.mapTransportTypeV2 Host.runtime
    (lit "Pendelb" ++ [229%N] ++ lit "t") = JourneyPlanner.train.
Proof. vm_compute. reflexivity. Qed.

Example classify_sparvagn :
  @JourneyPlanner.mapTransportTypeV2 Host.runtime
    (lit "Sp" ++ [229%N] ++ lit "rvagn") = JourneyPlanner.tram.
Proof. vm_compute. reflexivity. Qed.

Example summary_of_sample_journey :
  option_map JourneyPlanner.routeSummary
    (@JourneyPlanner.parseJourneyToTripProposal Host.runtime Examples.journey)
  = Some (lit "bus 4 -> metro 17").
Proof. vm_compute. reflexivity. Qed.

End Samples.

Section JourneyWitnesses.
Import Js JourneyPlanner Spec.

(** The classifier on "Taxi", where no rule matches. *)
Lemma mapTransportTypeV2_first_match_witness :
  @mapTransportTypeV2 Host.runtime (lit "Taxi") = bus.
Proof.
  destruct (@mapTransportTypeV2_first_match Host.runtime (lit "Taxi"))
    as (_ & _ & Default & _).
  apply Default. intros rule I M. apply (@ruleMatches_existsb (lit "TAXI") rule) in M.
  simpl in I.
  repeat (destruct I as [<-|I]; [vm_compute in M; discriminate|]).
  exact I.
Defined.

(** The sample journey: the two walks between the bus and the metro become
    one walk of 300 seconds that ends at the platform. *)
Lemma merged_walk_run_witness :
  exists proposal merged final,
    @parseJourneyToTripProposal Host.runtime Examples.journey = Some proposal /\
    legs proposal =
      mergeLegs (@parsedLegs Host.runtime [Examples.busLeg])
      ++ merged :: mergeLegs (@parsedLegs Host.runtime [Examples.metroLeg]) /\
    (forall leg,
        lastOf (mergeLegs (@parsedLegs Host.runtime [Examples.busLeg]))
        = Some leg -> type leg <> walk) /\
    (forall leg,
        hd_error (mergeLegs (@parsedLegs Host.runtime [Examples.metroLeg]))
        = Some leg -> type leg <> walk) /\
    type merged = walk /\
    durationSeconds merged =
      sumDurations
        (@parsedLegs Host.runtime [Examples.walkLeg1; Examples.walkLeg2]) /\
    lastOf (@parsedLegs Host.runtime [Examples.walkLeg1; Examples.walkLeg2])
    = Some final /\
    arrivalTime merged = arrivalTime final /\
    destinationName merged = destinationName final.
Proof.
  apply (@merged_walk_run Host.runtime Examples.journey
           [Examples.busLeg; Examples.walkLeg1; Examples.walkLeg2;
            Examples.metroLeg]).
  - reflexivity.
  - vm_compute. reflexivity.
  - repeat constructor.
  - simpl. lia.
  - intros leg E. vm_compute in E. injection E as <-. discriminate.
  - intros leg E. vm_compute in E. injection E as <-. discriminate.
Defined.

(** The proposal of the sample journey keeps the invariant. *)
Lemma proposal_legs_invariant_witness :
  exists proposal,
    @parseJourneyToTripProposal Host.runtime Examples.journey = Some proposal /\
    legs proposal <> [] /\ noAdjacentWalks (legs proposal).
Proof.
  destruct (@parseJourneyToTripProposal Host.runtime Examples.journey)
    as [proposal|] eqn:E; [|vm_compute in E; discriminate].
  exists proposal. split; [reflexivity|].
  exact (proj1 (@proposal_legs_invariant Host.runtime)
           Examples.journey proposal E).
Defined.

(** The merged walk of the sample journey starts as its first walk does. *)
Lemma merged_walk_keeps_start_witness :
  exists proposal merged first,
    @parsedLegs Host.runtime [Examples.walkLeg1] = [first] /\
    @parseJourneyToTripProposal Host.runtime Examples.journey = Some proposal /\
    legs proposal =
      mergeLegs (@parsedLegs Host.runtime [Examples.busLeg])
      ++ merged :: mergeLegs (@parsedLegs Host.runtime [Examples.metroLeg]) /\
    departureTime merged = departureTime first /\
    originName merged = originName first /\
    type merged = type first /\
    line merged = line first /\
    direction merged = direction first /\
    platform merged = platform first.
Proof.
  destruct (@parsedLegs Host.runtime [Examples.walkLeg1]) as [|first [|]] eqn:F;
    try (vm_compute in F; discriminate).
  destruct (@merged_walk_keeps_start Host.runtime Examples.journey
              [Examples.busLeg; Examples.walkLeg1; Examples.walkLeg2;
               Examples.metroLeg]
              (@parsedLegs Host.runtime [Examples.busLeg])
              (@parsedLegs Host.runtime [Examples.metroLeg])
              (@parsedLegs Host.runtime [Examples.walkLeg2])
              first)
    as (proposal & merged & P).
  - reflexivity.
  - change (@parsedLegs Host.runtime
              [Examples.busLeg; Examples.walkLeg1; Examples.walkLeg2;
               Examples.metroLeg])
      with (@parsedLegs Host.runtime [Examples.busLeg]
            ++ (@parsedLegs Host.runtime [Examples.walkLeg1]
                ++ @parsedLegs Host.runtime [Examples.walkLeg2])
            ++ @parsedLegs Host.runtime [Examples.metroLeg]).
    rewrite F. reflexivity.
  - vm_compute in F. injection F as <-. repeat constructor.
  - vm_compute. discriminate.
  - intros leg E. vm_compute in E. injection E as <-. discriminate.
  - intros leg E. vm_compute in E. injection E as <-. discriminate.
  - exists proposal, merged, first. split; [reflexivity | exact P].
Defined.

End JourneyWitnesses.

Section DepartureWitnesses.
Import Js Transport DepartureSpec.

(** C2.  A record whose scheduled time is no date is kept, and its minutes
    are NaN, which is not a number at or above zero: on the payload made of
    the one record [Examples.unparseable] the response has one entry, with
    such minutes. *)
Theorem unparseable_time_kept :
  exists d,
    @parseDeparturesResponse Host.runtime (Some [Examples.unparseable])
      Examples.noon = [d] /\
    getTime (expectedTime d) = NaN /\
    minutesUntil d = NaN /\
    ge (minutesUntil d) (Fin 0) = false.
Proof. eexists. split; [vm_compute; reflexivity|]. repeat split. Qed.

(** A departure expected 60001 milliseconds before now, more than a minute
    in the past, is in the response. *)
Lemma stale_by_a_minute_kept :
  getTime (@newDate Host.runtime (lit "2026-01-17T12:00:00Z"))
  = Fin Examples.noon /\
  Examples.noon - (Examples.noon + 60001) < -60000 /\
  exists d,
    @parseDeparture Host.runtime Examples.atNoon
      (mkDate (Fin (Examples.noon + 60001))) = Some d /\
    expectedTime d = @newDate Host.runtime (lit "2026-01-17T12:00:00Z") /\
    @parseDeparturesResponse Host.runtime (Some [Examples.atNoon])
      (Examples.noon + 60001) = [d].
Proof.
  split; [vm_compute; reflexivity|]. split; [lia|].
  eexists. split; [vm_compute; reflexivity|].
  split; vm_compute; reflexivity.
Qed.

(** A departure expected 90001 milliseconds before now is dropped. *)
Lemma stale_departure_excluded_witness :
  (@parseDeparture Host.runtime Examples.atNoon
     (mkDate (Fin (Examples.noon + 90001))) = None
   <-> Examples.noon - (Examples.noon + 90001) < -90000) /\
  (Examples.noon - (Examples.noon + 90001) < -90000 ->
   forall before after,
     @parseDeparturesResponse Host.runtime
       (Some (before ++ Examples.atNoon :: after)) (Examples.noon + 90001) =
     @parseDeparturesResponse Host.runtime
       (Some (before ++ after)) (Examples.noon + 90001)).
Proof.
  apply (@stale_departure_excluded Host.runtime Examples.atNoon
           (Examples.noon + 90001) Examples.noon
           (lit "2026-01-17T12:00:00Z")).
  - exists (lit "2026-01-17T12:00:00Z").
    split; [reflexivity|]. split; [discriminate | reflexivity].
  - vm_compute. reflexivity.
Defined.

(** The departure expected two minutes after its scheduled time is flagged
    delayed, by its two times. *)
Lemma isDelayed_iff_witness :
  exists d,
    @parseDeparture Host.runtime Examples.late (mkDate (Fin Examples.noon))
    = Some d /\
    (isDelayed d = true <->
     exists e s, getTime (expectedTime d) = Fin e /\
                 getTime (scheduledTime d) = Fin s /\ 60000 < e - s).
Proof.
  destruct (@parseDeparture Host.runtime Examples.late
              (mkDate (Fin Examples.noon))) as [d|] eqn:E;
    [|vm_compute in E; discriminate].
  exists d. split; [reflexivity|].
  exact (proj1 (@isDelayed_iff Host.runtime) Examples.late _ d E).
Defined.

(** The departure with no expected time of its own. *)
Lemma expected_defaults_to_scheduled_witness :
  exists d,
    @parseDeparture Host.runtime Examples.onTime (mkDate (Fin Examples.noon))
    = Some d /\
    expectedTime d = scheduledTime d /\ isDelayed d = false.
Proof.
  destruct (@parseDeparture Host.runtime Examples.onTime
              (mkDate (Fin Examples.noon))) as [d|] eqn:E;
    [|vm_compute in E; discriminate].
  exists d. split; [reflexivity|].
  apply (@expected_defaults_to_scheduled Host.runtime Examples.onTime
           (mkDate (Fin Examples.noon)) d);
    [reflexivity | reflexivity | exact E].
Defined.

End DepartureWitnesses.

Section OriginWitnesses.
Import Js Config OriginSpec.

(** A blank command-line value, SLCLI_ORIGIN set to " Odenplan " and a
    config file that cannot be read: the origin is "Odenplan". *)
Lemma resolveOrigin_precedence_witness :
  resolveOrigin (Some (lit "  ")) (Some (lit " Odenplan ")) Unreadable
  = Returns (Some (lit "Odenplan")).
Proof.
  destruct (resolveOrigin_precedence (Some (lit "  "))
              (Some (lit " Odenplan ")) Unreadable) as (_ & Env & _).
  apply Env.
  - intros s E. injection E as <-. repeat constructor.
  - exists (lit " Odenplan "). split; [reflexivity|].
    split; [reflexivity | discriminate].
Defined.

End OriginWitnesses.

Section ResolverWitnesses.
Import Js Transport Cli Spec.

(** The query " slussen" is not made of digits and no site name contains it,
    whatever the case of the letters; the resolver answers with Slussen. *)
Lemma padded_query_resolves :
  allDigits (lit " slussen") = false /\
  (forall s, In s Examples.sites ->
             ~ substring (@toLowerCase Host.runtime (lit " slussen"))
                         (@toLowerCase Host.runtime (name s))) /\
  @resolveSite Host.runtime Examples.noNearest Examples.sites
    (Some (lit " slussen")) None
  = Returns (Some (Examples.site "9192" "Slussen")).
Proof.
  split; [reflexivity|]. split; [|vm_compute; reflexivity].
  intros s I. apply includes_false.
  repeat (destruct I as [<-|I]; [vm_compute; reflexivity|]).
  destruct I.
Qed.

(** On the sample sites: "1234" gives a placeholder, "oden" gives Odenplan,
    the first site whose name begins with it. *)
Lemma resolveSite_by_stop_witness :
  @resolveSite Host.runtime Examples.noNearest Examples.sites
    (Some (lit "1234")) None
  = Returns (Some (mkTransportSite (lit "1234") (lit "1234") None [])) /\
  @resolveSite Host.runtime Examples.noNearest Examples.sites
    (Some (lit "oden")) None
  = Returns (Some (Examples.site "9117" "Odenplan")).
Proof.
  split.
  - destruct (@resolveSite_by_stop Host.runtime Examples.noNearest
                Examples.sites (lit "1234")) as (_ & _ & Numeric & _).
    apply Numeric; [reflexivity|].
    intros s I E. apply eqb_eq in E.
    repeat (destruct I as [<-|I]; [vm_compute in E; discriminate|]).
    destruct I.
  - destruct (@resolveSite_by_stop Host.runtime Examples.noNearest
                Examples.sites (lit "oden")) as (_ & _ & _ & Named).
    destruct Named as (_ & Begins & _);
      [vm_compute; discriminate | reflexivity|].
    apply Begins.
    + intros s I E. apply eqb_eq in E.
      repeat (destruct I as [<-|I]; [vm_compute in E; discriminate|]).
      destruct I.
    + exists [Examples.site "9192" "Slussen"],
        [Examples.site "9001" "T-Centralen"].
      split; [reflexivity|]. split.
      * apply startsWith_prefix. vm_compute. reflexivity.
      * constructor; [|constructor]. intros P.
        apply startsWith_prefix in P. vm_compute in P. discriminate.
Defined.

End ResolverWitnesses.

(** * Further properties of the journey normaliser *)

Section JourneyInvariants.
Import Js JourneyPlanner Spec JourneySpec.
Context `{Runtime}.

Lemma add_zero_l (a : num) : add (Fin 0) a = a.
Proof. destruct a; reflexivity. Qed.

Lemma sumDurations_app (a b : list TripLeg) :
  sumDurations (a ++ b) = add (sumDurations a) (sumDurations b).
Proof.
  unfold sumDurations. induction a as [|x a IH]; simpl.
  - destruct (fold_right add (Fin 0) (map durationSeconds b)); reflexivity.
  - rewrite IH. now rewrite add_assoc.
Qed.

(** What one iteration of the loop does to the list built so far, by the
    shape of that list. *)
Lemma mergeStep_cases (built : list TripLeg) (x : TripLeg) :
  (built = [] /\ mergeStep built x = [x]) \/
  (exists b l, built = b ++ [l] /\ type l = walk /\ type x = walk /\
               mergeStep built x = b ++ [extendWalk l x]) \/
  (exists b l, built = b ++ [l] /\ ~ (type l = walk /\ type x = walk) /\
               mergeStep built x = built ++ [x]).
Proof.
  destruct built as [|l b _] using rev_ind; [left; auto|]. right.
  rewrite mergeStep_snoc.
  destruct (isWalk (type l) && isWalk (type x)) eqn:W.
  - left. apply andb_true_iff in W. destruct W as [W1 W2].
    apply isWalk_true in W1, W2. exists b, l. auto.
  - right. exists b, l. split; [reflexivity|]. split.
    + intros [W1 W2]. rewrite W1, W2 in W. discriminate.
    + now rewrite <- app_assoc.
Qed.

Lemma transportOnly_mergeLegs (ls : list TripLeg) :
  transportOnly (mergeLegs ls) = transportOnly ls.
Proof.
  unfold transportOnly.
  induction ls as [|x ls IH] using rev_ind; [reflexivity|].
  rewrite mergeLegs_snoc, filter_app, <- IH.
  destruct (mergeStep_cases (mergeLegs ls) x)
    as [[E S] | [(b & l & E & Wl & Wx & S) | (b & l & E & N & S)]];
    rewrite S.
  - now rewrite E.
  - rewrite E, !filter_app. simpl. rewrite Wl, Wx. simpl.
    now rewrite !app_nil_r.
  - now rewrite filter_app.
Qed.

Lemma sumDurations_mergeLegs (ls : list TripLeg) :
  sumDurations (mergeLegs ls) = sumDurations ls.
Proof.
  induction ls as [|x ls IH] using rev_ind; [reflexivity|].
  rewrite mergeLegs_snoc, sumDurations_app, <- IH.
  destruct (mergeStep_cases (mergeLegs ls) x)
    as [[E S] | [(b & l & E & Wl & Wx & S) | (b & l & E & N & S)]];
    rewrite S.
  - rewrite E. unfold sumDurations. simpl.
    destruct (durationSeconds x); reflexivity.
  - rewrite E, !sumDurations_app. unfold sumDurations. simpl.
    rewrite !add_zero_r. now rewrite add_assoc.
  - now rewrite sumDurations_app.
Qed.

Lemma length_mergeLegs (ls : list TripLeg) :
  (List.length (mergeLegs ls) <= List.length ls)%nat.
Proof.
  induction ls as [|x ls IH] using rev_ind; [simpl; lia|].
  rewrite mergeLegs_snoc, length_app. simpl.
  destruct (mergeStep_cases (mergeLegs ls) x)
    as [[E S] | [(b & l & E & Wl & Wx & S) | (b & l & E & N & S)]];
    rewrite S.
  - simpl. lia.
  - rewrite E in IH. rewrite length_app in *. simpl in *. lia.
  - rewrite length_app. simpl. lia.
Qed.

(** Legs with no two walk legs in a row are left as they are. *)
Lemma mergeLegs_fixed (ls : list TripLeg) :
  noAdjacentWalks ls -> mergeLegs ls = ls.
Proof.
  induction ls as [|x ls IH] using rev_ind; [reflexivity|].
  intros N. apply noAdjacentWalks_snoc in N. destruct N as [N L].
  rewrite mergeLegs_snoc, (IH N).
  destruct (mergeStep_cases ls x)
    as [[E S] | [(b & l & E & Wl & Wx & S) | (b & l & E & _ & S)]].
  - now rewrite S, E.
  - exfalso. apply (L l); [rewrite E; apply lastOf_snoc | auto].
  - exact S.
Qed.

Lemma mergeStep_head (built : list TripLeg) (x : TripLeg) :
  built <> [] ->
  option_map departureTime (hd_error (mergeStep built x)) =
  option_map departureTime (hd_error built).
Proof.
  intros N.
  destruct (mergeStep_cases built x)
    as [[E S] | [(b & l & E & Wl & Wx & S) | (b & l & E & _ & S)]];
    [contradiction | |]; rewrite S.
  - rewrite E. destruct b; reflexivity.
  - destruct built; [contradiction | reflexivity].
Qed.

Lemma fold_mergeStep_head (ls built : list TripLeg) :
  built <> [] ->
  option_map departureTime (hd_error (fold_left mergeStep ls built)) =
  option_map departureTime (hd_error built).
Proof.
  revert built. induction ls as [|x ls IH]; intros built N; simpl;
    [reflexivity|].
  rewrite IH by apply mergeStep_not_nil. now apply mergeStep_head.
Qed.

Lemma mergeLegs_first (ls : list TripLeg) :
  option_map departureTime (hd_error (mergeLegs ls)) =
  option_map departureTime (hd_error ls).
Proof.
  destruct ls as [|x ls]; [reflexivity|].
  rewrite mergeLegs_cons, fold_mergeStep_head by discriminate. reflexivity.
Qed.

Lemma mergeLegs_last (ls : list TripLeg) :
  option_map arrivalTime (lastOf (mergeLegs ls)) =
  option_map arrivalTime (lastOf ls).
Proof.
  destruct ls as [|x ls _] using rev_ind; [reflexivity|].
  rewrite mergeLegs_snoc, lastOf_snoc.
  destruct (mergeStep_cases (mergeLegs ls) x)
    as [[E S] | [(b & l & E & Wl & Wx & S) | (b & l & E & N & S)]];
    rewrite S; try rewrite lastOf_snoc; reflexivity.
Qed.

(** Every field of a proposal, from the merged legs. *)
Lemma parseJourney_fields (journey : RawJourney) (proposal : TripProposal) :
  parseJourneyToTripProposal journey = Some proposal ->
  exists raws firstLeg lastLeg,
    rawLegs journey = Some raws /\
    legs proposal = mergeLegs (parsedLegs raws) /\
    hd_error (legs proposal) = Some firstLeg /\
    lastOf (legs proposal) = Some lastLeg /\
    tripDepartureTime proposal = departureTime firstLeg /\
    tripArrivalTime proposal = arrivalTime lastLeg /\
    routeSummary proposal = buildRouteSummary (legs proposal) /\
    walkToFirstLegSeconds proposal =
      match findIndex (fun leg => negb (isWalk (type leg))) (legs proposal)
      with
      | None => Fin 0
      | Some i =>
          fold_left add (map durationSeconds (firstn i (legs proposal)))
                    (Fin 0)
      end /\
    durationMinutes proposal =
      max0 (roundDiv
              match tripDuration journey with
              | Some n => Fin n
              | None =>
                  max0 (roundDiv (sub (getTime (arrivalTime lastLeg))
                                      (getTime (departureTime firstLeg)))
                                 1000)
              end 60).
Proof.
  unfold parseJourneyToTripProposal.
  destruct (rawLegs journey) as [[|r0 raws]|]; try discriminate.
  destruct (parsedLegs (r0 :: raws)) as [|p0 ps] eqn:P; [discriminate|].
  destruct (hd_error (mergeLegs (p0 :: ps))) as [firstLeg|] eqn:Hd;
    [|discriminate].
  destruct (lastOf (mergeLegs (p0 :: ps))) as [lastLeg|] eqn:L;
    [|discriminate].
  intros E. injection E as <-. exists (r0 :: raws), firstLeg, lastLeg.
  cbn [legs tripDepartureTime tripArrivalTime routeSummary
       walkToFirstLegSeconds durationMinutes].
  rewrite P. repeat split; auto.
Qed.

End JourneyInvariants.

Section JourneyExtras.
Import Js JourneyPlanner Spec JourneySpec.
Context `{Runtime}.

Lemma buildRouteSummary_mergeLegs (ls : list TripLeg) :
  buildRouteSummary (mergeLegs ls) = buildRouteSummary ls.
Proof.
  unfold buildRouteSummary. fold (transportOnly (mergeLegs ls)).
  fold (transportOnly ls). now rewrite transportOnly_mergeLegs.
Qed.

(** X1. Merging touches walk legs only: the legs of a proposal that are not
    walks are the parsed legs that are not walks, in the same order, and the
    route summary of the proposal is the one of the parsed legs. *)
Theorem proposal_transport_legs
  (journey : RawJourney) (proposal : TripProposal) :
  parseJourneyToTripProposal journey = Some proposal ->
  exists raws,
    rawLegs journey = Some raws /\
    transportOnly (legs proposal) = transportOnly (parsedLegs raws) /\
    routeSummary proposal = buildRouteSummary (parsedLegs raws).
Proof.
  intros P. destruct (parseJourney_fields journey proposal P)
    as (raws & f & l & R & L & _ & _ & _ & _ & S & _).
  exists raws. split; [exact R|]. rewrite S, L. split.
  - apply transportOnly_mergeLegs.
  - apply buildRouteSummary_mergeLegs.
Qed.

(** X2. Merging loses no time and adds no leg: the durations of the legs of
    a proposal sum to what the durations of the parsed legs sum to, and the
    proposal has at most as many legs as were parsed. *)
Theorem proposal_keeps_total_duration
  (journey : RawJourney) (proposal : TripProposal) :
  parseJourneyToTripProposal journey = Some proposal ->
  exists raws,
    rawLegs journey = Some raws /\
    sumDurations (legs proposal) = sumDurations (parsedLegs raws) /\
    (List.length (legs proposal) <= List.length (parsedLegs raws))%nat.
Proof.
  intros P. destruct (parseJourney_legs journey proposal P)
    as (raws & R & _ & ->).
  exists raws. split; [exact R|]. split.
  - apply sumDurations_mergeLegs.
  - apply length_mergeLegs.
Qed.

(** X3. A proposal departs when the first parsed leg departs and arrives
    when the last parsed leg arrives, merged or not. *)
Theorem proposal_endpoints
  (journey : RawJourney) (proposal : TripProposal) :
  parseJourneyToTripProposal journey = Some proposal ->
  exists raws firstParsed lastParsed,
    rawLegs journey = Some raws /\
    hd_error (parsedLegs raws) = Some firstParsed /\
    lastOf (parsedLegs raws) = Some lastParsed /\
    tripDepartureTime proposal = departureTime firstParsed /\
    tripArrivalTime proposal = arrivalTime lastParsed.
Proof.
  intros P. destruct (parseJourney_fields journey proposal P)
    as (raws & f & l & R & L & Hd & La & D & A & _).
  pose proof (mergeLegs_first (parsedLegs raws)) as F.
  pose proof (mergeLegs_last (parsedLegs raws)) as G.
  rewrite <- L, Hd in F. rewrite <- L, La in G.
  destruct (hd_error (parsedLegs raws)) as [fp|] eqn:Hp; [|discriminate].
  destruct (lastOf (parsedLegs raws)) as [lp|] eqn:Lp; [|discriminate].
  simpl in F, G. injection F as F. injection G as G.
  exists raws, fp, lp. repeat split; congruence.
Qed.

(** X4. The walk to the first transport leg is the duration of the first leg
    of the proposal when that leg is a walk and a leg that is no walk
    follows; it is zero when the proposal begins with a transport leg or has
    walk legs only. *)
Theorem walk_to_first_leg
  (journey : RawJourney) (proposal : TripProposal) :
  parseJourneyToTripProposal journey = Some proposal ->
  exists firstLeg,
    hd_error (legs proposal) = Some firstLeg /\
    (type firstLeg = walk -> transportOnly (legs proposal) <> [] ->
     walkToFirstLegSeconds proposal = durationSeconds firstLeg) /\
    (type firstLeg <> walk \/ transportOnly (legs proposal) = [] ->
     walkToFirstLegSeconds proposal = Fin 0).
Proof.
  intros P. destruct (parseJourney_fields journey proposal P)
    as (raws & f & l & R & L & Hd & _ & _ & _ & _ & W & _).
  pose proof (noAdjacentWalks_mergeLegs (parsedLegs raws)) as N.
  rewrite <- L in N. exists f. split; [exact Hd|].
  rewrite W. clear W. unfold transportOnly.
  destruct (legs proposal) as [|x rest]; [discriminate|].
  simpl in Hd. injection Hd as ->.
  cbn [findIndex filter].
  destruct (isWalk (type f)) eqn:Wf; cbn [negb].
  - apply isWalk_true in Wf. destruct rest as [|y rest].
    + simpl. split; [congruence | reflexivity].
    + assert (Wy : isWalk (type y) = false).
      { apply isWalk_false. intros Wy. apply (N [] f y rest eq_refl). auto. }
      cbn [findIndex filter]. rewrite Wy. cbn [negb firstn map fold_left].
      rewrite add_zero_l. split; [reflexivity|].
      intros [C|C]; [contradiction | discriminate].
  - cbn [firstn map fold_left]. split; [|reflexivity].
    intros Wf'. rewrite Wf' in Wf. discriminate.
Qed.

(** X5. A journey of walk legs only becomes a proposal of one leg, the run
    merged: its duration is the sum of the walks, its summary is "walk" and
    its walk to the first transport leg is zero. *)
Theorem all_walk_journey
  (journey : RawJourney) (raws : list RawLeg)
  (first : TripLeg) (rest : list TripLeg) :
  rawLegs journey = Some raws ->
  parsedLegs raws = first :: rest ->
  Forall (fun leg => type leg = walk) (first :: rest) ->
  exists proposal,
    parseJourneyToTripProposal journey = Some proposal /\
    legs proposal = [mergedRun first rest] /\
    durationSeconds (mergedRun first rest) = sumDurations (first :: rest) /\
    routeSummary proposal = lit "walk" /\
    walkToFirstLegSeconds proposal = Fin 0.
Proof.
  intros R P F. inversion F as [|? ? W F']; subst.
  destruct (parseJourney_some journey raws R) as (proposal & Q & L).
  { rewrite P. discriminate. }
  assert (M : legs proposal = [mergedRun first rest]).
  { rewrite L, P, mergeLegs_cons.
    exact (fold_mergeStep_run rest [] first W F'). }
  exists proposal. split; [exact Q|]. split; [exact M|].
  split; [apply mergedRun_duration|].
  destruct (parseJourney_fields journey proposal Q)
    as (_ & _ & _ & _ & _ & _ & _ & _ & _ & S & Wk & _).
  rewrite S, Wk, M. unfold buildRouteSummary. cbn [filter findIndex].
  rewrite mergedRun_type, W. split; reflexivity.
Qed.

(** X6. Merging is idempotent: the merged legs merge to themselves. *)
Theorem mergeLegs_idempotent (ls : list TripLeg) :
  mergeLegs (mergeLegs ls) = mergeLegs ls.
Proof. apply mergeLegs_fixed, noAdjacentWalks_mergeLegs. Qed.

Lemma parsedLegs_nil (raws : list RawLeg) :
  parsedLegs raws = [] <-> Forall (fun r => parseLegV2 r = None) raws.
Proof.
  unfold parsedLegs. induction raws as [|r raws IH]; simpl.
  - split; auto.
  - destruct (parseLegV2 r) eqn:E; simpl.
    + split; [discriminate|]. intros F. inversion F; congruence.
    + rewrite IH. split; [intros; constructor; auto|].
      intros F. inversion F; auto.
Qed.

(** X7. A journey whose legs are not an array, or of whose legs not one
    parses, yields no proposal; a journey with an empty array of legs is
    such a case.  A journey that yields a proposal has an array of legs of
    which one at least parses. *)
Theorem journey_dropped (journey : RawJourney) :
  (rawLegs journey = None \/
   (exists raws, rawLegs journey = Some raws /\
                 Forall (fun r => parseLegV2 r = None) raws) ->
   parseJourneyToTripProposal journey = None) /\
  (forall proposal,
      parseJourneyToTripProposal journey = Some proposal ->
      exists raws, rawLegs journey = Some raws /\
                   Exists (fun r => parseLegV2 r <> None) raws).
Proof.
  split.
  - intros [R | (raws & R & F)].
    + unfold parseJourneyToTripProposal. now rewrite R.
    + apply parsedLegs_nil in F.
      destruct (parseJourneyToTripProposal journey) as [p|] eqn:P;
        [|reflexivity].
      destruct (parseJourney_legs journey p P) as (raws' & R' & N & _).
      congruence.
  - intros proposal P.
    destruct (parseJourney_legs journey proposal P) as (raws & R & N & _).
    exists raws. split; [exact R|].
    apply neg_Forall_Exists_neg.
    + intros r. destruct (parseLegV2 r); [right; discriminate | now left].
    + intros F. apply N, parsedLegs_nil, F.
Qed.

Lemma roundDiv_sixty (n : Z) :
  let m := Z.max 0 ((2 * n + 60) / (2 * 60)) in
  0 <= m /\ (-30 <= n -> 60 * m - 30 <= n < 60 * m + 30) /\
  (n < -30 -> m = 0).
Proof.
  intros m. subst m.
  pose proof (Z.mul_div_le (2 * n + 60) (2 * 60)) as D.
  pose proof (Z.mul_succ_div_gt (2 * n + 60) (2 * 60)) as D'.
  split; [lia|]. split; intros L; lia.
Qed.

(** X8. The duration of a proposal in minutes is never negative.  When the
    journey carries its duration in seconds, the minutes are that duration
    rounded to the nearest minute, within half a minute of it, and zero for
    a duration below zero. *)
Theorem duration_minutes_bounds
  (journey : RawJourney) (proposal : TripProposal) :
  parseJourneyToTripProposal journey = Some proposal ->
  lt (durationMinutes proposal) (Fin 0) = false /\
  (forall n, tripDuration journey = Some n ->
     exists m, durationMinutes proposal = Fin m /\ 0 <= m /\
               (-30 <= n -> 60 * m - 30 <= n < 60 * m + 30) /\
               (n < -30 -> m = 0)).
Proof.
  intros P. destruct (parseJourney_fields journey proposal P)
    as (_ & f & l & _ & _ & _ & _ & _ & _ & _ & _ & D).
  rewrite D. split.
  - destruct (roundDiv _ 60) as [z|]; simpl; [|reflexivity].
    apply Z.ltb_ge. lia.
  - intros n T. rewrite T. simpl. eexists. split; [reflexivity|].
    apply roundDiv_sixty.
Qed.

Lemma or_undefined_not_empty (a : option str) : or_undefined a <> Some [].
Proof. unfold or_undefined. destruct a as [[|c s]|]; simpl; congruence. Qed.

Lemma or_default_not_empty (a : option str) (d : str) :
  d <> [] -> or_default a d <> [].
Proof. destruct a as [[|c s]|]; simpl; congruence. Qed.

(** X9. A parsed leg has an origin name and a destination name that are not
    empty, and its line, direction and platform are never the empty string.
    Its duration is the one the record gives when it gives one, and is
    otherwise computed from the two times and never negative. *)
Theorem parsed_leg_invariants (rawLeg : RawLeg) (leg : TripLeg) :
  parseLegV2 rawLeg = Some leg ->
  originName leg <> [] /\ destinationName leg <> [] /\
  line leg <> Some [] /\ direction leg <> Some [] /\
  platform leg <> Some [] /\
  (forall n, duration rawLeg = Some n -> durationSeconds leg = Fin n) /\
  (duration rawLeg = None ->
   durationSeconds leg =
     max0 (roundDiv (sub (getTime (arrivalTime leg))
                         (getTime (departureTime leg))) 1000) /\
   lt (durationSeconds leg) (Fin 0) = false).
Proof.
  unfold parseLegV2.
  destruct (origin rawLeg) as [o|]; [|discriminate].
  destruct (destination rawLeg) as [d|]; [|discriminate].
  destruct (transportation rawLeg) as [t|]; [|discriminate].
  destruct (_ ||| departureTimeBaseTimetable o) as [[|c1 s1]|];
    try discriminate.
  destruct (_ ||| arrivalTimeBaseTimetable d) as [[|c2 s2]|];
    try discriminate.
  intros E. injection E as <-. cbn.
  split; [apply or_default_not_empty; discriminate|].
  split; [apply or_default_not_empty; discriminate|].
  split; [apply or_undefined_not_empty|].
  split; [apply or_undefined_not_empty|].
  split; [apply or_undefined_not_empty|].
  split.
  - intros n D. now rewrite D.
  - intros D. rewrite D. split; [reflexivity|].
    destruct (roundDiv _ 1000) as [z|]; simpl; [|reflexivity].
    apply Z.ltb_ge. lia.
Qed.

End JourneyExtras.

(** * Further properties of the departure normaliser *)

Section DepartureExtras.
Import Js Transport DepartureSpec.
Context `{Runtime}.

Lemma notLater_trans (a b c : Departure) :
  notLater a b -> notLater b c -> notLater a c.
Proof.
  unfold notLater.
  destruct (getTime (expectedTime a)), (getTime (expectedTime b)),
    (getTime (expectedTime c)); simpl; try discriminate.
  rewrite !Z.leb_le. lia.
Qed.

Lemma sorted_split (front back : list Departure) :
  Sorted notLater (front ++ back) ->
  forall a b, In a front -> In b back -> notLater a b.
Proof.
  intros S. apply Sorted_StronglySorted in S;
    [|intros x y z; apply notLater_trans].
  induction front as [|x front IH]; intros a b Ia Ib; [destruct Ia|].
  simpl in S. apply StronglySorted_inv in S. destruct S as [S F].
  destruct Ia as [<-|Ia].
  - rewrite Forall_forall in F. apply F, in_or_app. now right.
  - now apply IH.
Qed.

(** X10. The response has as many entries as records were kept, up to 30,
    and they are kept records: the parsed departures are the entries of the
    response and some rest, rearranged, and every entry is the parse of a
    record of the payload that has a scheduled time. *)
Theorem response_keeps_parsed (records : list RawDeparture) (clock : Z) :
  let parsed :=
    JourneyPlanner.nonNull
      (map (fun raw => parseDeparture raw (mkDate (Fin clock))) records) in
  let out := parseDeparturesResponse (Some records) clock in
  List.length out = Nat.min 30 (List.length parsed) /\
  (exists rest, Permutation parsed (out ++ rest)) /\
  (forall d, In d out ->
     exists raw, In raw records /\ truthy (scheduled raw) = true /\
                 parseDeparture raw (mkDate (Fin clock)) = Some d).
Proof.
  intros parsed out. unfold out, parseDeparturesResponse. fold parsed.
  split; [|split].
  - rewrite length_firstn.
    now rewrite <- (Permutation_length (sortBy_perm byExpectedTime parsed)).
  - exists (skipn 30 (sortBy byExpectedTime parsed)).
    rewrite firstn_skipn. apply sortBy_perm.
  - intros d I.
    destruct (response_from_record (Some records) clock d I)
      as (rs & raw & R & Ir & E).
    injection R as <-. exists raw. split; [exact Ir|]. split; [|exact E].
    destruct (parseDeparture_some raw _ d E) as (sched & S & N & _).
    rewrite S. destruct sched; [contradiction | reflexivity].
Qed.

(** X11. When the time strings of every record denote dates, the response is
    in non-decreasing order of expected time, the minutes of every entry are
    a number at or above zero, and the entries are the earliest: a parsed
    departure that the cap leaves out is expected no earlier than any entry
    of the response. *)
Theorem response_earliest_when_valid
  (records : list RawDeparture) (clock : Z) :
  Forall validTimes records ->
  let parsed :=
    JourneyPlanner.nonNull
      (map (fun raw => parseDeparture raw (mkDate (Fin clock))) records) in
  let out := parseDeparturesResponse (Some records) clock in
  Sorted notLater out /\
  (forall d, In d out -> exists m, minutesUntil d = Fin m /\ 0 <= m) /\
  exists rest,
    Permutation parsed (out ++ rest) /\
    forall a b, In a out -> In b rest -> notLater a b.
Proof.
  intros V parsed out.
  destruct (response_sorted_when_valid records clock V) as [S M].
  split; [exact S|]. split; [exact M|].
  exists (skipn 30 (sortBy byExpectedTime parsed)).
  unfold out, parseDeparturesResponse. fold parsed. split.
  - rewrite firstn_skipn. apply sortBy_perm.
  - apply sorted_split. rewrite firstn_skipn. apply sortBy_sorted.
    rewrite Forall_forall in *. intros d I.
    apply In_nonNull, in_map_iff in I. destruct I as (raw & E & I).
    exact (parseDeparture_valid raw _ d (V raw I) E).
Qed.

Lemma roundDiv_minute (x : Z) :
  let r := (2 * x + 60000) / (2 * 60000) in
  (-1 <= r <-> -90000 <= x) /\
  (-30000 <= x -> 0 <= r /\ 60000 * r - 30000 <= x < 60000 * r + 30000) /\
  (x < -30000 -> r < 0).
Proof.
  intros r. subst r.
  pose proof (Z.mul_div_le (2 * x + 60000) (2 * 60000)) as D.
  pose proof (Z.mul_succ_div_gt (2 * x + 60000) (2 * 60000)) as D'.
  repeat split; intros; lia.
Qed.

(** X12. A departure that is kept and whose expected time is a date is
    expected no more than 90000 milliseconds before now; its minutes are the
    time until then rounded to the nearest minute, within half a minute of
    it, and zero once the expected time is more than half a minute past. *)
Theorem minutes_until_bounds
  (raw : RawDeparture) (clock e : Z) (d : Departure) :
  parseDeparture raw (mkDate (Fin clock)) = Some d ->
  getTime (expectedTime d) = Fin e ->
  -90000 <= e - clock /\
  exists m,
    minutesUntil d = Fin m /\ 0 <= m /\
    (-30000 <= e - clock ->
     60000 * m - 30000 <= e - clock < 60000 * m + 30000) /\
    (e - clock < -30000 -> m = 0).
Proof.
  intros P T.
  destruct (parseDeparture_some raw _ d P)
    as (sched & _ & _ & _ & _ & Stale & M & _).
  rewrite T in Stale, M. cbn [lt roundDiv sub max0 getTime] in Stale, M.
  destruct (roundDiv_minute (e - clock)) as (K & B & Z0).
  apply Z.ltb_ge in Stale. split; [apply K; lia|].
  eexists. split; [exact M|]. split; [lia|]. split.
  - intros L. destruct (B L) as [R0 R]. rewrite Z.max_r by lia. exact R.
  - intros L. specialize (Z0 L). lia.
Qed.

End DepartureExtras.

(** * Further properties of the stop resolver and of the origin *)

Section ResolverExtras.
Import Js Transport Cli Spec.
Context `{Runtime}.
Variable nearest : list TransportSite -> str -> outcome (option TransportSite).

(** X13. Without coordinates to search near, the resolver throws exactly
    when the request for the sites fails.  On the sites fetched, a query
    that trims to digits resolves to a site of that id, one of the sites or
    the placeholder with no coordinate and no products.  For any other
    query the result is nothing exactly when no site name contains the
    trimmed query, letter case apart, and a site it gives is one of the
    sites, with a name that contains the trimmed query. *)
Theorem resolveSite_sound
  (fetchedSites : outcome (list TransportSite)) (query : str) :
  let result :=
    Commands.resolveFetchedSite nearest fetchedSites (Some query) None in
  let trimmed := trim query in
  let q := toLowerCase trimmed in
  let contains site := substring q (toLowerCase (name site)) in
  (result = Throws <-> fetchedSites = Throws) /\
  (forall sites, fetchedSites = Returns sites ->
     (query <> [] -> allDigits trimmed = true ->
      exists site, result = Returns (Some site) /\ id site = trimmed /\
                   (In site sites \/
                    site = mkTransportSite trimmed trimmed None [])) /\
     (query <> [] -> allDigits trimmed = false ->
      (result = Returns None <-> forall s, In s sites -> ~ contains s) /\
      (forall site, result = Returns (Some site) ->
                    In site sites /\ contains site))).
Proof.
  intros result trimmed q contains.
  assert (Ct : forall y, includes (toLowerCase (name y)) q = true
                         <-> contains y)
    by (intros y; apply includes_substring).
  destruct fetchedSites as [sites|]; cbn [Commands.resolveFetchedSite] in *;
    [|split; [split; reflexivity | discriminate]].
  assert (Sites : forall sites' : list TransportSite,
             Returns sites = Returns sites' -> sites' = sites)
    by (intros sites' E; now injection E).
  destruct query as [|c s].
  { split; [split; discriminate|]. intros sites' _.
    split; intros N; now elim N. }
  unfold result. rewrite (resolveSite_stop nearest sites (c :: s))
    by discriminate.
  fold trimmed. fold q.
  set (byId := fun site => eqb (id site) trimmed).
  set (eq := fun site => eqb (toLowerCase (name site)) q).
  set (st := fun site => startsWith (toLowerCase (name site)) q).
  set (inc := fun site => includes (toLowerCase (name site)) q).
  split; [split; [|discriminate]|intros sites' E; apply Sites in E;
                                 subst sites'; split].
  - destruct (allDigits trimmed).
    + destruct (find byId sites); discriminate.
    + destruct (find eq sites); [discriminate|].
      destruct (find st sites); [discriminate|].
      destruct (find inc sites); discriminate.
  - intros _ D. rewrite D. destruct (find byId sites) as [site|] eqn:F.
    + apply find_some in F. destruct F as [I E]. apply eqb_eq in E.
      exists site. auto.
    + eexists. split; [reflexivity|]. split; [reflexivity | now right].
  - intros _ D. rewrite D.
    assert (Sound : forall p site,
               (forall y, p y = true -> inc y = true) ->
               find p sites = Some site -> In site sites /\ contains site).
    { intros p site Imp F. apply find_some in F. destruct F as [I E].
      split; [exact I|]. apply Ct, Imp, E. }
    assert (EqInc : forall y, eq y = true -> inc y = true)
      by (intros y E; apply startsWith_includes, eqb_startsWith, E).
    assert (StInc : forall y, st y = true -> inc y = true)
      by (intros y E; apply startsWith_includes, E).
    destruct (find eq sites) as [s1|] eqn:F1.
    { split.
      - split; [discriminate|]. intros A. exfalso.
        destruct (Sound eq s1 EqInc F1) as [I C]. exact (A s1 I C).
      - intros site E. injection E as <-. exact (Sound eq s1 EqInc F1). }
    destruct (find st sites) as [s2|] eqn:F2.
    { split.
      - split; [discriminate|]. intros A. exfalso.
        destruct (Sound st s2 StInc F2) as [I C]. exact (A s2 I C).
      - intros site E. injection E as <-. exact (Sound st s2 StInc F2). }
    destruct (find inc sites) as [s3|] eqn:F3.
    { split.
      - split; [discriminate|]. intros A. exfalso.
        destruct (Sound inc s3 (fun y E => E) F3) as [I C]. exact (A s3 I C).
      - intros site E. injection E as <-.
        exact (Sound inc s3 (fun y E => E) F3). }
    split.
    + split; [|reflexivity]. intros _ y I C. apply Ct in C.
      pose proof (find_none _ _ F3 y I) as N. unfold inc in N. congruence.
    + discriminate.
Qed.

End ResolverExtras.

Section OriginExtras.
Import Js Config OriginSpec.

Lemma trimStart_suffix (s : str) : exists pre, s = pre ++ trimStart s.
Proof.
  induction s as [|c s [pre IH]]; [now exists []|]. simpl.
  destruct (isWhiteSpace c).
  - exists (c :: pre). simpl. now rewrite <- IH.
  - now exists [].
Qed.

Lemma trimStart_head_kept (s : str) (c : N) (r : str) :
  trimStart s = c :: r -> isWhiteSpace c = false.
Proof.
  induction s as [|x s IH]; simpl; [discriminate|].
  destruct (isWhiteSpace x) eqn:W; [exact IH|]. congruence.
Qed.

Lemma trimStart_fixed (s : str) (c : N) (r : str) :
  s = c :: r -> isWhiteSpace c = false -> trimStart s = s.
Proof. intros -> W. now apply trimStart_head. Qed.

(** A trimmed string trims to itself. *)
Lemma trim_trim (s : str) : trim (trim s) = trim s.
Proof.
  unfold trim. set (a := trimStart s).
  destruct (trimStart_suffix (rev a)) as [pre E].
  set (u := trimStart (rev a)) in *.
  destruct u as [|c u'] eqn:U; [reflexivity|].
  assert (Wc : isWhiteSpace c = false)
    by (exact (trimStart_head_kept (rev a) c u' U)).
  assert (A : a = rev (c :: u') ++ rev pre).
  { rewrite <- rev_app_distr, <- E. now rewrite rev_involutive. }
  assert (R : trimStart (rev (c :: u')) = rev (c :: u')).
  { destruct (rev (c :: u')) as [|x r] eqn:X.
    - apply (f_equal (@List.length N)) in X. rewrite length_rev in X.
      discriminate.
    - apply trimStart_head. simpl in A.
      unfold a in A. exact (trimStart_head_kept s x _ A). }
  rewrite R, rev_involutive. now rewrite (trimStart_head c u' Wc).
Qed.

Lemma nonBlank_some (v : option str) (t : str) :
  nonBlank v = Some t -> present v t.
Proof.
  unfold nonBlank, present. destruct v as [[|c s]|]; try discriminate.
  destruct (trim (c :: s)) as [|x r] eqn:T; [discriminate|].
  intros E. injection E as <-. exists (c :: s).
  split; [reflexivity|]. split; [now rewrite T | discriminate].
Qed.

Lemma nonBlank_none (v : option str) : nonBlank v = None -> absent v.
Proof.
  unfold nonBlank, absent. intros N s ->. destruct s as [|c s];
    [constructor|].
  apply trim_empty. destruct (trim (c :: s)); [reflexivity | discriminate].
Qed.

(** X14. An origin that is returned is never blank and never padded: it is
    not empty, trimming leaves it as it is, and it is the trimmed value of
    the command line, of SLCLI_ORIGIN or of the origin key of the config
    file that was read. *)
Theorem resolveOrigin_trimmed
  (cliValue env : option str) (file : ConfigFile) (t : str) :
  resolveOrigin cliValue env file = Returns (Some t) ->
  t <> [] /\ trim t = t /\
  (present cliValue t \/ present env t \/
   exists config, readConfig file = Returns config /\
                  present (origin config) t).
Proof.
  intros R.
  assert (P : exists v, present v t /\
                (v = cliValue \/ v = env \/
                 exists config, readConfig file = Returns config /\
                                v = origin config)).
  { unfold resolveOrigin in R.
    destruct (nonBlank cliValue) as [a|] eqn:A.
    { injection R as <-. exists cliValue. split;
        [now apply nonBlank_some | auto]. }
    destruct (nonBlank env) as [b|] eqn:B.
    { injection R as <-. exists env. split;
        [now apply nonBlank_some | auto]. }
    destruct (readConfig file) as [config|] eqn:C; [|discriminate].
    destruct (nonBlank (origin config)) as [o|] eqn:O; [|discriminate].
    injection R as <-. exists (origin config). split;
      [now apply nonBlank_some|]. right. right. exists config. auto. }
  destruct P as (v & Pv & Src).
  pose proof Pv as (s & _ & T & N).
  split; [exact N|]. split; [rewrite T; apply trim_trim|].
  destruct Src as [-> | [-> | (config & C & ->)]]; eauto.
Qed.

(** X15. Resolving the origin throws only when nothing is given on the
    command line or in SLCLI_ORIGIN and there is a config file: an origin
    given by either of the two is returned without the file being read, and
    a missing config file is no error, the origin then being none.  With
    nothing given and a config file that cannot be read or parsed,
    resolving the origin throws. *)
Theorem resolveOrigin_throws
  (cliValue env : option str) (file : ConfigFile) :
  (resolveOrigin cliValue env file = Throws ->
   absent cliValue /\ absent env /\ file <> NoEntry) /\
  (absent cliValue -> absent env ->
   (file = Unreadable -> resolveOrigin cliValue env file = Throws) /\
   (file = NoEntry -> resolveOrigin cliValue env file = Returns None)).
Proof.
  unfold resolveOrigin. split.
  - destruct (nonBlank cliValue) eqn:A; [discriminate|].
    destruct (nonBlank env) eqn:B; [discriminate|].
    intros T. split; [now apply nonBlank_none|].
    split; [now apply nonBlank_none|].
    intros ->. discriminate T.
  - intros A B.
    rewrite (nonBlank_absent _ A), (nonBlank_absent _ B).
    split; intros ->; reflexivity.
Qed.

End OriginExtras.

(** * The nearest stop *)

Section NearestExtras.
Import Js Transport Commands.
Variable haversineDistance : Q -> Q -> Q -> Q -> Q.
Variables lat0 lon0 : Q.

Local Abbreviation distanceTo :=
  (NearestSpec.distanceTo haversineDistance lat0 lon0).
Local Abbreviation scanned :=
  (NearestSpec.scanned haversineDistance lat0 lon0).

Lemma scanned_step seen state site :
  scanned seen state ->
  scanned (seen ++ [site]) (nearestStep haversineDistance lat0 lon0 state site).
Proof.
  unfold nearestStep, NearestSpec.scanned.
  destruct state as [[best|] [bd|]]; simpl; try contradiction.
  - intros (c & before & after & -> & Cb & -> & B & A).
    destruct (coord site) as [cs|] eqn:Cs.
    + fold (distanceTo cs). destruct (Qle_bool (distanceTo c) (distanceTo cs)) eqn:L;
        simpl.
      * apply Qle_bool_iff in L. exists c, before, (after ++ [site]).
        split; [now rewrite <- app_assoc|]. repeat split; auto.
        intros s c' I Cs'. apply in_app_or in I. destruct I as [I|[<-|[]]].
        -- now apply (A s).
        -- congruence.
      * assert (Lt : (distanceTo cs < distanceTo c)%Q).
        { apply Qnot_le_lt. intros C. apply Qle_bool_iff in C. congruence. }
        exists cs, (before ++ best :: after), [].
        split; [reflexivity|]. repeat split; auto; [|intros s c' []].
        intros s c' I Cs'. apply in_app_or in I.
        destruct I as [I|[<-|I]].
        -- apply (Qlt_trans _ (distanceTo c)); [exact Lt | now apply (B s)].
        -- congruence.
        -- apply (Qlt_le_trans _ (distanceTo c)); [exact Lt | now apply (A s)].
    + exists c, before, (after ++ [site]).
      split; [now rewrite <- app_assoc|]. repeat split; auto.
      intros s c' I Cs'. apply in_app_or in I. destruct I as [I|[<-|[]]].
      * now apply (A s).
      * congruence.
  - intros None_. destruct (coord site) as [cs|] eqn:Cs; simpl.
    + exists cs, seen, []. split; [reflexivity|]. repeat split; auto.
      * intros s c' I Cs'. rewrite (None_ s I) in Cs'. discriminate.
      * intros s c' [].
    + intros s I. apply in_app_or in I. destruct I as [I|[<-|[]]]; auto.
Qed.

Lemma scanned_fold sites :
  scanned sites
    (fold_left (nearestStep haversineDistance lat0 lon0) sites (None, None)).
Proof.
  induction sites as [|site sites IH] using rev_ind.
  - simpl. intros s [].
  - rewrite fold_left_app. simpl. now apply scanned_step.
Qed.

(** X16. The nearest-stop scan returns nothing exactly when no site has a
    coordinate.  The site it returns has a coordinate and is the first of
    the sites at the least distance: every site with a coordinate before it
    is farther away, and none after it is closer. *)
Theorem findNearestSite_first_minimum (sites : list TransportSite) :
  (findNearestSite haversineDistance sites lat0 lon0 = None <->
   forall s, In s sites -> coord s = None) /\
  (forall best,
      findNearestSite haversineDistance sites lat0 lon0 = Some best ->
      exists c before after,
        sites = before ++ best :: after /\ coord best = Some c /\
        (forall s c', In s before -> coord s = Some c' ->
           (haversineDistance lat0 lon0 (lat c) (lon c)
            < haversineDistance lat0 lon0 (lat c') (lon c'))%Q) /\
        (forall s c', In s after -> coord s = Some c' ->
           (haversineDistance lat0 lon0 (lat c) (lon c)
            <= haversineDistance lat0 lon0 (lat c') (lon c'))%Q)).
Proof.
  unfold findNearestSite. pose proof (scanned_fold sites) as S.
  unfold NearestSpec.scanned in S.
  destruct (fold_left _ sites (None, None)) as [[best|] [bd|]];
    simpl in *; try contradiction.
  - destruct S as (c & before & after & E & Cb & _ & B & A). split.
    + split; [discriminate|]. intros N. exfalso.
      rewrite (N best) in Cb; [discriminate|].
      rewrite E. apply in_or_app. right. now left.
    + intros b Eb. injection Eb as <-. exists c, before, after. auto.
  - split; [tauto | discriminate].
Qed.

End NearestExtras.

(** * The stop finder *)

Section StopFinderExtras.
Import Js StopFinder.
Context `{Runtime}.

Local Abbreviation byQuality :=
  (fun a b : StopLocation => Fin (qualityOf b - qualityOf a)).

(** The head of the results sorted by falling quality. *)
Lemma hd_sortBy_quality (results : list StopLocation) :
  results <> [] ->
  exists loc before after,
    hd_error (Transport.sortBy byQuality results) = Some loc /\
    results = before ++ loc :: after /\
    (forall b, In b before -> qualityOf b < qualityOf loc) /\
    (forall a, In a after -> qualityOf a <= qualityOf loc).
Proof.
  induction results as [|x results IH]; [congruence|]. intros _.
  destruct results as [|x' results'].
  - exists x, [], []. simpl. repeat split; auto; intros ? [].
  - destruct IH as (y & before & after & Hd & E & B & A); [discriminate|].
    change (Transport.sortBy byQuality (x :: x' :: results'))
      with (Transport.insertBy byQuality x
              (Transport.sortBy byQuality (x' :: results'))).
    destruct (Transport.sortBy byQuality (x' :: results'))
      as [|y' sorted]; [discriminate Hd|].
    simpl in Hd. injection Hd as ->. cbn [Transport.insertBy gt lt].
    destruct (0 <? qualityOf y - qualityOf x) eqn:C.
    + apply Z.ltb_lt in C. exists y, (x :: before), after.
      split; [reflexivity|]. split; [simpl; now rewrite E|].
      split; [|exact A]. intros b [<-|I]; [lia | now apply B].
    + apply Z.ltb_ge in C. exists x, [], (x' :: results').
      split; [reflexivity|]. split; [reflexivity|].
      split; [intros ? []|]. intros a I. rewrite E in I.
      apply in_app_or in I. destruct I as [I|[<-|I]].
      * specialize (B a I). lia.
      * lia.
      * specialize (A a I). lia.
Qed.

(** X17. Among the results of a search, the location chosen is the first one
    flagged as best; when none is flagged, it is the first one of the
    highest match quality, a missing quality counting as zero.  Nothing is
    chosen only when there is no result. *)
Theorem resolveLocation_choice (results : list StopLocation) :
  (resolveLocation results = None <-> results = []) /\
  (forall loc before after,
      results = before ++ loc :: after -> isBest loc = true ->
      (forall b, In b before -> isBest b = false) ->
      resolveLocation results = Some loc) /\
  ((forall l, In l results -> isBest l = false) -> results <> [] ->
   exists loc before after,
     resolveLocation results = Some loc /\
     results = before ++ loc :: after /\
     (forall b, In b before -> qualityOf b < qualityOf loc) /\
     (forall a, In a after -> qualityOf a <= qualityOf loc)).
Proof.
  assert (NoBest : (forall l, In l results -> isBest l = false) ->
                   find isBest results = None).
  { intros N. destruct (find isBest results) as [l|] eqn:F; [|reflexivity].
    apply find_some in F. destruct F as [I B]. rewrite (N l I) in B.
    discriminate. }
  split; [|split].
  - split; [|intros ->; reflexivity].
    destruct results as [|x rs]; [reflexivity|]. unfold resolveLocation.
    destruct (find isBest (x :: rs)); [discriminate|]. intros E.
    destruct (hd_sortBy_quality (x :: rs)) as (loc & _ & _ & Hd & _);
      [discriminate|]. congruence.
  - intros loc before after -> B N. unfold resolveLocation.
    assert (F : find isBest (before ++ loc :: after) = Some loc).
    { clear NoBest. induction before as [|b before IH]; simpl.
      - now rewrite B.
      - rewrite (N b) by now left. apply IH. intros b' I. apply N.
        now right. }
    rewrite F. destruct before; reflexivity.
  - intros N Ne. destruct (hd_sortBy_quality results Ne)
      as (loc & before & after & Hd & E & B & A).
    exists loc, before, after. split; [|auto].
    unfold resolveLocation. rewrite (NoBest N).
    destruct results; [contradiction | exact Hd].
Qed.

Lemma parseLocation_some (raw : RawLocation) (loc : StopLocation) :
  parseLocation raw = Some loc ->
  id loc <> [] /\ label loc <> [] /\
  rawId raw = Some (id loc) /\ rawName raw = Some (label loc) /\
  matchQuality loc = rawMatchQuality raw /\ isBest loc = rawIsBest raw /\
  (rawType raw = None -> type loc = stop) /\
  exists lat lon more,
    rawCoord raw = Some (Some lat :: Some lon :: more) /\
    coord loc = Transport.mkCoord lat lon.
Proof.
  unfold parseLocation.
  destruct (rawId raw) as [[|i is_]|]; try discriminate.
  destruct (rawName raw) as [[|l ls]|]; try discriminate.
  destruct (rawCoord raw) as [[|[lat|] [|[lon|] more]]|]; try discriminate.
  intros E. injection E as <-. cbn.
  repeat split; try discriminate.
  - intros ->. reflexivity.
  - exists lat, lon, more. split; reflexivity.
Qed.

(** X18. A location the stop finder lets through comes from a raw location
    whose id and name are strings that are not empty and whose coordinate is
    an array that begins with two finite numbers, which it keeps with the
    flag and the match quality; without a type it is a stop.  The output is
    no longer than the input, and a payload without a list of locations
    gives none. *)
Theorem parseStopFinderResponse_kept
  (locations : option (list RawLocation)) :
  (locations = None -> parseStopFinderResponse locations = []) /\
  (forall raws, locations = Some raws ->
     (List.length (parseStopFinderResponse locations)
      <= List.length raws)%nat) /\
  (forall loc, In loc (parseStopFinderResponse locations) ->
     id loc <> [] /\ label loc <> [] /\
     exists raws raw lat lon more,
       locations = Some raws /\ In raw raws /\
       rawId raw = Some (id loc) /\ rawName raw = Some (label loc) /\
       rawCoord raw = Some (Some lat :: Some lon :: more) /\
       coord loc = Transport.mkCoord lat lon /\
       matchQuality loc = rawMatchQuality raw /\
       isBest loc = rawIsBest raw /\
       (rawType raw = None -> type loc = stop)).
Proof.
  split; [intros ->; reflexivity|]. split.
  - intros raws ->. simpl.
    induction raws as [|r raws IH]; simpl; [lia|].
    destruct (parseLocation r); simpl; lia.
  - intros loc I. destruct locations as [raws|]; [|destruct I].
    simpl in I. apply In_nonNull, in_map_iff in I.
    destruct I as (raw & E & I).
    destruct (parseLocation_some raw loc E)
      as (Ni & Nl & Ri & Rn & Q & B & T & lat & lon & more & C & Co).
    split; [exact Ni|]. split; [exact Nl|].
    exists raws, raw, lat, lon, more. repeat split; auto.
Qed.

End StopFinderExtras.

(** * The trip request *)

Section RequestExtras.
Import Js StopFinder.
Context `{DateHost}.
Variable showNumber : Q -> str.

Lemma range_check (P : Z -> bool) (lo : Z) (n : nat) :
  forallb P (map (fun k => lo + Z.of_nat k) (seq 0 n)) = true ->
  forall z, lo <= z < lo + Z.of_nat n -> P z = true.
Proof.
  intros F z R. rewrite forallb_forall in F. apply F.
  apply in_map_iff. exists (Z.to_nat (z - lo)). cbv beta.
  split; [lia|]. apply in_seq. lia.
Qed.

Lemma digits_app (a b : str) (acc : Z) :
  Host.digits acc (a ++ b) =
  match Host.digits acc a with
  | Some v => Host.digits v b
  | None => None
  end.
Proof.
  revert acc. induction a as [|c a IH]; intros acc; simpl; [reflexivity|].
  destruct (Host.digit c); [apply IH | reflexivity].
Qed.

(** Two digits for a number below one hundred. *)
Lemma pad2_digits (n acc : Z) :
  0 <= n <= 99 ->
  List.length (pad2 n) = 2%nat /\
  Host.digits acc (pad2 n) = Some (100 * acc + n).
Proof.
  intros R.
  pose proof (range_check
                (fun n => match pad2 n with
                          | [c1; c2] =>
                              match Host.digit c1, Host.digit c2 with
                              | Some a, Some b => 10 * a + b =? n
                              | _, _ => false
                              end
                          | _ => false
                          end) 0 100) as C.
  specialize (C ltac:(vm_compute; reflexivity) n ltac:(lia)).
  cbv beta in C. destruct (pad2 n) as [|c1 [|c2 [|]]]; try discriminate.
  split; [reflexivity|]. cbn [Host.digits].
  destruct (Host.digit c1) as [a|]; [|discriminate].
  destruct (Host.digit c2) as [b|]; [|discriminate].
  apply Z.eqb_eq in C. f_equal. lia.
Qed.

(** Four digits for a year of four digits. *)
Lemma year_digits (y : Z) :
  1000 <= y <= 9999 ->
  List.length (numberToString y) = 4%nat /\
  Host.digits 0 (numberToString y) = Some y.
Proof.
  intros R.
  pose proof (range_check
                (fun y => Nat.eqb (List.length (numberToString y)) 4
                          && match Host.digits 0 (numberToString y) with
                             | Some v => v =? y
                             | None => false
                             end) 1000 (Z.to_nat 9000)) as C.
  specialize (C ltac:(vm_compute; reflexivity) y ltac:(lia)).
  cbv beta in C. apply andb_true_iff in C. destruct C as [L D].
  apply Nat.eqb_eq in L. split; [exact L|].
  destruct (Host.digits 0 (numberToString y)); [|discriminate].
  apply Z.eqb_eq in D. now subst.
Qed.

(** X19. The date and the time of a trip request read back as numbers: the
    time is four digits, hours then minutes; for a year of four digits the
    date is eight digits, the year, the month counted from one, the day. *)
Theorem itd_formats_read_back (date : Z) :
  (0 <= getHours date <= 23 -> 0 <= getMinutes date <= 59 ->
   List.length (formatItdTime date) = 4%nat /\
   Host.digits 0 (formatItdTime date)
   = Some (100 * getHours date + getMinutes date)) /\
  (1000 <= getFullYear date <= 9999 -> 0 <= getMonth date <= 11 ->
   1 <= getDate date <= 31 ->
   List.length (formatItdDate date) = 8%nat /\
   Host.digits 0 (formatItdDate date)
   = Some (10000 * getFullYear date + 100 * (getMonth date + 1)
           + getDate date)).
Proof.
  split.
  - intros Hh Hm. unfold formatItdTime.
    destruct (pad2_digits (getHours date) 0) as [L1 D1]; [lia|].
    replace (100 * 0 + getHours date) with (getHours date) in D1 by lia.
    destruct (pad2_digits (getMinutes date) (getHours date)) as [L2 D2];
      [lia|].
    rewrite length_app, L1, L2, digits_app, D1. cbv iota beta. rewrite D2.
    split; [reflexivity | f_equal; lia].
  - intros Hy Hm Hd. unfold formatItdDate.
    destruct (year_digits (getFullYear date) Hy) as [L0 D0].
    destruct (pad2_digits (getMonth date + 1) (getFullYear date))
      as [L1 D1]; [lia|].
    destruct (pad2_digits (getDate date)
                (100 * getFullYear date + (getMonth date + 1)))
      as [L2 D2]; [lia|].
    rewrite !length_app, L0, L1, L2, digits_app, D0. cbv iota beta.
    rewrite digits_app, D1. cbv iota beta. rewrite D2.
    split; [reflexivity | f_equal; lia].
Qed.

(** The parameters by their values, with the values left as they are. *)
Ltac request_cases origin destination options :=
  unfold fetchTripsParams;
  destruct origin as [oid ? ?|olat olon],
           destination as [did ? ?|dlat dlon],
           options as [trips [date|] mode [route|] [changes|]];
  cbn [numTrips dateTime dateTimeMode routeType maxChanges];
  try generalize (formatCoordString showNumber olat olon);
  try generalize (formatCoordString showNumber dlat dlon);
  try generalize (formatItdDate date);
  try generalize (formatItdTime date);
  try generalize (routeTypeName route);
  try generalize (numberToString changes);
  generalize (numberToString
                (Z.min (Z.max match trips with Some n => n | None => 3 end 1)
                       3));
  generalize (match mode with Some arr => lit "arr" | _ => lit "dep" end);
  intros.

(** X20. The number of trips a request asks for is the number given brought
    into the range from 1 to 3, and 3 when none is given.  For any finite
    number given it lies between 1 and 3: a number in the range is left as
    it is, whole or not, a number below 1 gives 1 and a number above 3
    gives 3.  For a whole number given, and for none, the
    calc_number_of_trips parameter is the decimal text of that whole
    number of trips, which is 1, 2 or 3. *)
Theorem requested_trips_clamped
  (origin destination : TripEndpointLocation) (options : TripSearchOptions)
  (asked : option Q) :
  ((1 <= requestedTrips asked)%Q /\ (requestedTrips asked <= 3)%Q /\
   (asked = None -> requestedTrips asked = 3%Q) /\
   (forall n, asked = Some n ->
      ((1 <= n)%Q -> (n <= 3)%Q -> requestedTrips asked = n) /\
      ((n < 1)%Q -> requestedTrips asked = 1%Q) /\
      ((3 < n)%Q -> requestedTrips asked = 3%Q))) /\
  exists k,
    getParam (lit "calc_number_of_trips")
      (fetchTripsParams showNumber origin destination options)
    = Some (numberToString k) /\
    inject_Z k = requestedTrips (option_map inject_Z (numTrips options)) /\
    1 <= k <= 3.
Proof.
  split.
  - unfold requestedTrips. destruct asked as [n|].
    + destruct (Qle_bool 1 n) eqn:L1.
      * apply Qle_bool_iff in L1. destruct (Qle_bool n 3) eqn:L3.
        -- apply Qle_bool_iff in L3.
           split; [exact L1|]. split; [exact L3|]. split; [discriminate|].
           intros n' E. injection E as <-. split; [reflexivity|].
           split; intros B; exfalso.
           ++ apply (Qlt_not_le _ _ B), L1.
           ++ apply (Qlt_not_le _ _ B), L3.
        -- assert (B3 : (3 < n)%Q).
           { apply Qnot_le_lt. intros L. apply Qle_bool_iff in L.
             congruence. }
           split; [discriminate|]. split; [discriminate|].
           split; [discriminate|].
           intros n' E. injection E as <-. split; [|split].
           ++ intros _ L. exfalso. apply (Qlt_not_le _ _ B3), L.
           ++ intros B. exfalso. apply (Qlt_not_le _ _ B), L1.
           ++ reflexivity.
      * assert (B1 : (n < 1)%Q).
        { apply Qnot_le_lt. intros L. apply Qle_bool_iff in L. congruence. }
        split; [discriminate|]. split; [discriminate|].
        split; [discriminate|].
        intros n' E. injection E as <-. split; [|split].
        -- intros L. exfalso. apply (Qlt_not_le _ _ B1), L.
        -- reflexivity.
        -- intros B. exfalso. apply (Qlt_not_le _ _ B1).
           apply Qlt_le_weak, (Qlt_trans _ 3); [reflexivity | exact B].
    + split; [discriminate|]. split; [discriminate|].
      split; [reflexivity | discriminate].
  - exists (Z.min (Z.max match numTrips options with
                         | Some n => n
                         | None => 3
                         end 1) 3).
    split; [|split].
    + request_cases origin destination options; vm_compute; reflexivity.
    + unfold requestedTrips. destruct (numTrips options) as [n|];
        [|reflexivity].
      cbn [option_map].
      destruct (Qle_bool 1 (inject_Z n)) eqn:L1.
      * apply Qle_bool_iff in L1. change 1%Q with (inject_Z 1) in L1.
        rewrite <- Zle_Qle in L1. rewrite Z.max_l by exact L1.
        destruct (Qle_bool (inject_Z n) 3) eqn:L3.
        -- apply Qle_bool_iff in L3. change 3%Q with (inject_Z 3) in L3.
           rewrite <- Zle_Qle in L3. now rewrite Z.min_l.
        -- assert (B3 : 3 < n).
           { apply Z.nle_gt. intros L. rewrite (Zle_Qle n 3) in L.
             apply Qle_bool_iff in L. change (inject_Z 3) with 3%Q in L.
             congruence. }
           rewrite Z.min_r by lia. reflexivity.
      * assert (B1 : n < 1).
        { apply Z.nle_gt. intros L. rewrite (Zle_Qle 1 n) in L.
          apply Qle_bool_iff in L. change (inject_Z 1) with 1%Q in L.
          congruence. }
        rewrite Z.max_r by lia. reflexivity.
    + lia.
Qed.

End RequestExtras.

Section RequestParams.
Import Js StopFinder.
Context `{DateHost}.
Variable showNumber : Q -> str.

(** X21. No parameter of a trip request is set twice, and each one reads
    back as it was set: the kind and the name of the two endpoints, the id
    or the text of the coordinate; the date, the time and the direction of
    the search, present together and only when a date is given; the route
    type and the bound on changes, present only when given. *)
Theorem request_parameters_read_back
  (origin destination : TripEndpointLocation) (options : TripSearchOptions) :
  let params := fetchTripsParams showNumber origin destination options in
  let kind e := match e with ById _ _ _ => lit "any" | _ => lit "coord" end in
  let name e :=
    match e with
    | ById id _ _ => id
    | ByCoord lat lon => formatCoordString showNumber lat lon
    end in
  NoDup (map fst params) /\
  getParam (lit "type_origin") params = Some (kind origin) /\
  getParam (lit "name_origin") params = Some (name origin) /\
  getParam (lit "type_destination") params = Some (kind destination) /\
  getParam (lit "name_destination") params = Some (name destination) /\
  getParam (lit "itd_date") params
  = option_map formatItdDate (dateTime options) /\
  getParam (lit "itd_time") params
  = option_map formatItdTime (dateTime options) /\
  getParam (lit "itd_trip_date_time_dep_arr") params
  = option_map (fun _ => match dateTimeMode options with
                         | Some arr => lit "arr"
                         | _ => lit "dep"
                         end) (dateTime options) /\
  getParam (lit "route_type") params
  = option_map routeTypeName (routeType options) /\
  getParam (lit "max_changes") params
  = option_map numberToString (maxChanges options).
Proof.
  intros params kind name. subst params kind name. cbv beta.
  unfold fetchTripsParams.
  destruct origin as [oid ? ?|olat olon],
           destination as [did ? ?|dlat dlon],
           options as [trips [date|] mode [route|] [changes|]];
  cbn [numTrips dateTime dateTimeMode routeType maxChanges option_map];
  try generalize (formatCoordString showNumber olat olon);
  try generalize (formatCoordString showNumber dlat dlon);
  try generalize (formatItdDate date);
  try generalize (formatItdTime date);
  try generalize (routeTypeName route);
  try generalize (numberToString changes);
  generalize (numberToString
                (Z.min (Z.max match trips with Some n => n | None => 3 end 1)
                       3));
  generalize (match mode with Some arr => lit "arr" | _ => lit "dep" end);
  intros;
  (split;
   [ vm_compute;
     repeat (apply NoDup_cons;
             [ simpl; intros I;
               repeat (destruct I as [I|I]; [discriminate I|]); exact I |]);
     apply NoDup_nil
   | repeat split; vm_compute; reflexivity ]).
Qed.

End RequestParams.

(** * Times in the output *)

Section LocalTimeExtras.
Import Js StopFinder Commands.
Context `{DateHost}.

(** X22. The local time of a valid date prints as two digits for the hours,
    a colon and two digits for the minutes, which read back as the hours
    and the minutes; an Invalid Date prints as "NaN:NaN". *)
Theorem formatLocalTime_shape :
  (forall t, 0 <= getHours t <= 23 -> 0 <= getMinutes t <= 59 ->
     exists hh mm,
       formatLocalTime (mkDate (Fin t)) = hh ++ lit ":" ++ mm /\
       List.length hh = 2%nat /\ List.length mm = 2%nat /\
       Host.digits 0 hh = Some (getHours t) /\
       Host.digits 0 mm = Some (getMinutes t)) /\
  formatLocalTime (mkDate NaN) = lit "NaN:NaN".
Proof.
  split; [|reflexivity]. intros t Hh Hm.
  destruct (pad2_digits (getHours t) 0) as [L1 D1]; [lia|].
  destruct (pad2_digits (getMinutes t) 0) as [L2 D2]; [lia|].
  exists (pad2 (getHours t)), (pad2 (getMinutes t)).
  split; [reflexivity|]. rewrite D1, D2. repeat split; auto; f_equal; lia.
Qed.

End LocalTimeExtras.

(** * The next command *)

Section NextExtras.
Import Js Transport Cli Commands.
Context `{Runtime}.
Variable nearest : list TransportSite -> str -> outcome (option TransportSite).
Variable fetchDeparturesData : str -> outcome (option (list RawDeparture)).

Lemma ge_Fin (m : Z) (x : num) :
  ge (Fin m) x = true <-> exists k, x = Fin k /\ k <= m.
Proof.
  destruct x as [k|]; simpl.
  - rewrite Z.leb_le. split; [eauto|]. intros (k' & E & L). congruence.
  - split; [discriminate | intros (k & E & _); discriminate].
Qed.

Lemma find_all_false {A} (p : A -> bool) (l : list A) :
  (forall x, In x l -> p x = false) -> find p l = None.
Proof.
  intros N. destruct (find p l) as [x|] eqn:F; [|reflexivity].
  apply find_some in F. destruct F as [I E]. rewrite (N x I) in E.
  discriminate.
Qed.

(** X23. What [next] shows comes from the departures fetched for the site it
    resolved.  With no bound on the minutes, and with a bound of zero, it
    shows the whole response; with any other bound it shows the departures
    of the response whose minutes are a number within the bound, and no
    other. *)
Theorem next_shows_within_minutes
  (sites : list TransportSite) (stop near : option str)
  (minutes : option Z) (clock : Z)
  (site : TransportSite) (shown : list Departure) :
  nextCommand nearest fetchDeparturesData sites stop near minutes clock
  = Returns (site, shown) ->
  exists data,
    fetchDeparturesData (id site) = Returns data /\
    (minutes = None \/ minutes = Some 0 ->
     shown = parseDeparturesResponse data clock) /\
    (forall m, minutes = Some m -> m <> 0 ->
       forall d, In d shown <->
                 In d (parseDeparturesResponse data clock) /\
                 exists k, minutesUntil d = Fin k /\ k <= m).
Proof.
  unfold nextCommand.
  destruct (negb (truthy stop) && negb (truthy near)); [discriminate|].
  destruct (resolveSite nearest sites stop near) as [[s|]|];
    try discriminate.
  destruct (fetchDeparturesData (id s)) as [data|] eqn:F; [|discriminate].
  intros E. injection E as <- <-. exists data. split; [exact F|]. split.
  - intros [->| ->]; reflexivity.
  - intros m -> N d. destruct (Z.eqb_spec m 0) as [->|_]; [now elim N|].
    rewrite filter_In. cbv beta.
    change (match minutesUntil d with Fin y => y <=? m | NaN => false end)
      with (ge (Fin m) (minutesUntil d)).
    rewrite ge_Fin. reflexivity.
Qed.

End NextExtras.

(** * The config commands *)

Section ConfigExtras.
Import Js Config Commands OriginSpec.

Lemma assertConfigKey_iff (key : str) :
  assertConfigKey key = true <->
  key = lit "origin" \/ key = lit "home" \/ key = lit "work"
  \/ key = lit "timezone".
Proof.
  unfold assertConfigKey, CONFIG_KEYS. cbn [existsb].
  rewrite !orb_true_iff, !eqb_eq. intuition (auto; discriminate).
Qed.

Lemma getKey_setKey (cfg : Config) (key value : str) :
  assertConfigKey key = true ->
  getKey (setKey cfg key value) key = Some value /\
  forall other, other <> key -> assertConfigKey other = true ->
                getKey (setKey cfg key value) other = getKey cfg other.
Proof.
  intros K. apply assertConfigKey_iff in K.
  destruct K as [-> | [-> | [-> | ->]]]; (split; [reflexivity|]);
    intros other N O; apply assertConfigKey_iff in O;
    destruct O as [-> | [-> | [-> | ->]]]; try reflexivity; now elim N.
Qed.

(** X25. After [config set] of a value under a key, [config get] of that key
    gives the value, and [config get] of every other key gives what it gave
    before; a config file that did not exist is created. *)
Theorem config_set_then_get (key value : str) (file : ConfigFile) :
  assertConfigKey key = true -> file <> Unreadable ->
  exists file',
    configSet true key value file = Returns file' /\
    configGet key file' = Returns (Some value) /\
    forall other, other <> key -> assertConfigKey other = true ->
                  configGet other file' = configGet other file.
Proof.
  intros K R. unfold configSet, configGet. rewrite K.
  assert (C : exists cfg, readConfig file = Returns cfg).
  { destruct file; simpl; eauto. now elim R. }
  destruct C as [cfg C]. rewrite C. simpl.
  destruct (getKey_setKey cfg key value K) as [G O].
  eexists. split; [reflexivity|]. simpl. rewrite G.
  split; [reflexivity|]. intros other N Ko. rewrite Ko.
  now rewrite (O other N Ko).
Qed.

(** X26. [config set] fails exactly when the key is none of origin, home,
    work and timezone, or the config file exists and cannot be read, or it
    cannot be written; [config get] fails exactly in the first two cases. *)
Theorem config_commands_fail_iff
  (writable : bool) (key value : str) (file : ConfigFile) :
  (configSet writable key value file = Throws <->
   ~ (key = lit "origin" \/ key = lit "home" \/ key = lit "work"
      \/ key = lit "timezone")
   \/ file = Unreadable \/ writable = false) /\
  (configGet key file = Throws <->
   ~ (key = lit "origin" \/ key = lit "home" \/ key = lit "work"
      \/ key = lit "timezone")
   \/ file = Unreadable).
Proof.
  unfold configSet, configGet, writeConfig.
  rewrite <- assertConfigKey_iff.
  destruct (assertConfigKey key), file as [| |cfg], writable; simpl;
    split; split; intros E; try discriminate; auto;
    try (destruct E as [E|[E|E]]; try discriminate; now elim E);
    try (destruct E as [E|E]; try discriminate; now elim E).
Qed.

(** X27. The origin set with [config set origin] is the origin resolved
    afterwards when the command line and SLCLI_ORIGIN give none: its trimmed
    value, or nothing when it is blank.  Setting another key leaves the
    resolved origin as it was. *)
Theorem config_set_then_resolveOrigin
  (key value : str) (file file' : ConfigFile) (cliValue env : option str) :
  configSet true key value file = Returns file' ->
  (key = lit "origin" -> absent cliValue -> absent env ->
   (forall t, present (Some value) t ->
              resolveOrigin cliValue env file' = Returns (Some t)) /\
   (absent (Some value) ->
    resolveOrigin cliValue env file' = Returns None)) /\
  (key <> lit "origin" ->
   resolveOrigin cliValue env file' = resolveOrigin cliValue env file).
Proof.
  unfold configSet. destruct (assertConfigKey key) eqn:K; [|discriminate].
  destruct (readConfig file) as [cfg|] eqn:R; [|discriminate].
  simpl. intros E. injection E as <-. split.
  - intros -> A1 A2. unfold resolveOrigin.
    rewrite (nonBlank_absent _ A1), (nonBlank_absent _ A2).
    cbn [readConfig].
    change (setKey cfg (lit "origin") value)
      with (mkConfig (Some value) (home cfg) (work cfg) (timezone cfg)).
    cbn [origin]. split.
    + intros t P. now rewrite (nonBlank_present _ _ P).
    + intros A. now rewrite (nonBlank_absent _ A).
  - intros N. unfold resolveOrigin. cbn [readConfig]. rewrite R.
    apply assertConfigKey_iff in K.
    destruct K as [-> | [-> | [-> | ->]]]; [now elim N | | |]; reflexivity.
Qed.

End ConfigExtras.

(** * The output of plan *)

Section TripsOutputExtras.
Import Js JourneyPlanner JourneySpec Commands.
Context `{Runtime} `{StopFinder.DateHost}.

Lemma mapOutcome_throws {A B} (f : A -> outcome B) (xs : list A) :
  mapOutcome f xs = Throws <-> exists x, In x xs /\ f x = Throws.
Proof.
  induction xs as [|x xs IH]; simpl.
  - split; [discriminate | intros (x & [] & _)].
  - destruct (f x) as [y|] eqn:F.
    + destruct (mapOutcome f xs) as [ys|].
      * split; [discriminate|]. intros (x' & [<-|I] & T); [congruence|].
        destruct IH as [_ IH]. discriminate IH. eauto.
      * split; [|reflexivity]. intros _.
        destruct IH as [IH _]. destruct (IH eq_refl) as (x' & I & T). eauto.
    + split; [eauto | reflexivity].
Qed.

Lemma mapOutcome_returns {A B} (f : A -> outcome B) (xs : list A) ys :
  mapOutcome f xs = Returns ys ->
  Forall2 (fun x y => f x = Returns y) xs ys.
Proof.
  revert ys. induction xs as [|x xs IH]; simpl; intros ys E.
  - injection E as <-. constructor.
  - destruct (f x) as [y|] eqn:F; [|discriminate].
    destruct (mapOutcome f xs) as [ys'|]; [|discriminate].
    injection E as <-. constructor; auto.
Qed.

Lemma isoString_throws (date : Date) :
  isoString date = Throws <-> getTime date = NaN.
Proof.
  unfold isoString. destruct (getTime date); split; congruence.
Qed.

Lemma legOutput_throws (leg : TripLeg) :
  legOutput leg = Throws <->
  getTime (departureTime leg) = NaN \/ getTime (arrivalTime leg) = NaN.
Proof.
  unfold legOutput.
  destruct (isoString (departureTime leg)) eqn:D.
  - destruct (isoString (arrivalTime leg)) eqn:A.
    + split; [discriminate|]. intros [E|E]; apply isoString_throws in E;
        congruence.
    + apply isoString_throws in A. split; auto.
  - apply isoString_throws in D. split; auto.
Qed.

Lemma tripOutput_throws (trip : TripProposal) :
  tripOutput trip = Throws <->
  getTime (tripDepartureTime trip) = NaN \/
  getTime (tripArrivalTime trip) = NaN \/
  exists leg, In leg (legs trip) /\
              (getTime (departureTime leg) = NaN \/
               getTime (arrivalTime leg) = NaN).
Proof.
  unfold tripOutput.
  destruct (isoString (tripDepartureTime trip)) eqn:D.
  - destruct (isoString (tripArrivalTime trip)) eqn:A.
    + destruct (mapOutcome legOutput (legs trip)) eqn:M.
      * split; [discriminate|]. intros [E|[E|(leg & I & E)]].
        -- apply isoString_throws in E. congruence.
        -- apply isoString_throws in E. congruence.
        -- assert (T : mapOutcome legOutput (legs trip) = Throws).
           { apply mapOutcome_throws. exists leg. split; [exact I|].
             now apply legOutput_throws. }
           congruence.
      * apply mapOutcome_throws in M. destruct M as (leg & I & T).
        apply legOutput_throws in T. split; eauto.
    + apply isoString_throws in A. split; auto.
  - apply isoString_throws in D. split; auto.
Qed.

(** X28. Building the output of [plan] throws exactly when a time of some
    trip or of one of its legs is an Invalid Date; otherwise it gives one
    entry per trip, in order, with one entry per leg, the summary of the
    trip and, as changes, the number of its legs that are not walks less
    one, or zero. *)
Theorem buildTripsOutput_throws_iff (trips : list TripProposal) :
  (buildTripsOutput trips = Throws <->
   exists trip,
     In trip trips /\
     (getTime (tripDepartureTime trip) = NaN \/
      getTime (tripArrivalTime trip) = NaN \/
      exists leg, In leg (legs trip) /\
                  (getTime (departureTime leg) = NaN \/
                   getTime (arrivalTime leg) = NaN))) /\
  (forall outs,
      buildTripsOutput trips = Returns outs ->
      Forall2 (fun trip out =>
                 summary out = routeSummary trip /\
                 outMinutes out = durationMinutes trip /\
                 changes out =
                   Z.max 0 (Z.of_nat (List.length (transportOnly (legs trip)))
                            - 1) /\
                 List.length (outLegs out) = List.length (legs trip))
              trips outs).
Proof.
  unfold buildTripsOutput. split.
  - rewrite mapOutcome_throws. split; intros (trip & I & T); exists trip;
      (split; [exact I|]); now apply tripOutput_throws.
  - intros outs E. apply mapOutcome_returns in E.
    induction E as [|trip out trips outs T _ IH]; constructor; [|exact IH].
    unfold tripOutput in T.
    destruct (isoString (tripDepartureTime trip)); [|discriminate].
    destruct (isoString (tripArrivalTime trip)); [|discriminate].
    destruct (mapOutcome legOutput (legs trip)) as [ls|] eqn:M;
      [|discriminate].
    injection T as <-. cbn. repeat split.
    apply mapOutcome_returns in M. symmetry.
    exact (Forall2_length M).
Qed.

(** X29. The changes and the summary shown for a journey are those of its
    parsed legs: merging the walks changes neither.  The changes are the
    number of parsed legs that are not walks less one, or zero, and the
    summary is the route summary of the parsed legs. *)
Theorem output_counts_parsed_legs
  (journey : RawJourney) (proposal : TripProposal) (out : TripOutput) :
  parseJourneyToTripProposal journey = Some proposal ->
  tripOutput proposal = Returns out ->
  exists raws,
    rawLegs journey = Some raws /\
    changes out =
      Z.max 0 (Z.of_nat (List.length (transportOnly (parsedLegs raws))) - 1) /\
    summary out = buildRouteSummary (parsedLegs raws) /\
    (List.length (outLegs out) <= List.length (parsedLegs raws))%nat.
Proof.
  intros P T.
  destruct (parseJourney_fields journey proposal P)
    as (raws & f & l & R & L & _ & _ & _ & _ & S & _).
  exists raws. split; [exact R|].
  unfold tripOutput in T.
  destruct (isoString (tripDepartureTime proposal)); [|discriminate].
  destruct (isoString (tripArrivalTime proposal)); [|discriminate].
  destruct (mapOutcome legOutput (legs proposal)) as [ls|] eqn:M;
    [|discriminate].
  injection T as <-. cbn [changes summary outLegs].
  apply mapOutcome_returns, Forall2_length in M.
  fold (transportOnly (legs proposal)).
  rewrite S, L, transportOnly_mergeLegs, buildRouteSummary_mergeLegs.
  repeat split. rewrite <- M, L. apply length_mergeLegs.
Qed.

End TripsOutputExtras.

(** * The action of next *)

Section NextActionExtras.
Import Js Transport Cli Commands DepartureSpec NextSpec.
Context `{Runtime} `{StopFinder.DateHost}.
Variable nearest : list TransportSite -> str -> outcome (option TransportSite).
Variable fetchDeparturesData : str -> outcome (option (list RawDeparture)).

Lemma resolveOutputMode_throws (optJson optPlain isTTY : bool) :
  resolveOutputMode optJson optPlain isTTY = Throws <->
  optJson = true /\ optPlain = true.
Proof.
  destruct optJson, optPlain, isTTY; simpl; split;
    try discriminate; try (intros [? ?]; discriminate); auto.
Qed.

Lemma resolveOutputMode_pretty (optJson optPlain isTTY : bool) mode :
  resolveOutputMode optJson optPlain isTTY = Returns mode ->
  mode <> pretty <-> optJson = true \/ optPlain = true \/ isTTY = false.
Proof.
  destruct optJson, optPlain, isTTY; simpl; intros E;
    try discriminate E; injection E as <-; split; auto;
    try discriminate;
    intros [E | [E | E]]; discriminate E.
Qed.

Lemma departureOutput_throws (d : Departure) :
  departureOutput d = Throws <-> undated d.
Proof.
  unfold departureOutput, undated.
  destruct (isoString (scheduledTime d)) eqn:S.
  - destruct (isoString (expectedTime d)) eqn:E.
    + split; [discriminate|].
      intros [N|N]; apply isoString_throws in N; congruence.
    + split; [|reflexivity]. intros _. right. now apply isoString_throws.
  - split; [|reflexivity]. intros _. left. now apply isoString_throws.
Qed.

Lemma plainLine_throws (d : Departure) :
  plainLine d = Throws <-> undated d.
Proof.
  unfold plainLine, undated.
  destruct (isoString (scheduledTime d)) eqn:S.
  - destruct (isoString (expectedTime d)) eqn:E.
    + split; [discriminate|].
      intros [N|N]; apply isoString_throws in N; congruence.
    + split; [|reflexivity]. intros _. right. now apply isoString_throws.
  - split; [|reflexivity]. intros _. left. now apply isoString_throws.
Qed.

Lemma printDepartures_throws
  (site : TransportSite) (departures : list Departure) (mode : OutputMode) :
  printDepartures site departures mode = Throws <->
  mode <> pretty /\ Exists undated departures.
Proof.
  rewrite Exists_exists. destruct mode; cbn [printDepartures].
  - destruct (mapOutcome departureOutput departures) eqn:M.
    + split; [discriminate|]. intros (_ & d & I & U). exfalso.
      assert (T : mapOutcome departureOutput departures = Throws).
      { apply mapOutcome_throws. exists d.
        split; [exact I | now apply departureOutput_throws]. }
      congruence.
    + split; [|reflexivity]. intros _. split; [discriminate|].
      apply mapOutcome_throws in M. destruct M as (d & I & T).
      exists d. split; [exact I | now apply departureOutput_throws].
  - destruct (mapOutcome plainLine departures) eqn:M.
    + split; [discriminate|]. intros (_ & d & I & U). exfalso.
      assert (T : mapOutcome plainLine departures = Throws).
      { apply mapOutcome_throws. exists d.
        split; [exact I | now apply plainLine_throws]. }
      congruence.
    + split; [|reflexivity]. intros _. split; [discriminate|].
      apply mapOutcome_throws in M. destruct M as (d & I & T).
      exists d. split; [exact I | now apply plainLine_throws].
  - split; [discriminate|]. intros (N & _). now elim N.
Qed.

Lemma In_filtered (minutes : option Q) (departures : list Departure) d :
  In d (filtered minutes departures) -> In d departures.
Proof.
  unfold filtered. destruct minutes as [m|]; [|auto].
  destruct (Qeq_bool m 0); [auto|]. intros I.
  apply filter_In in I. apply I.
Qed.

Lemma dated_response
  (data : option (list RawDeparture)) (clock : Z) (d : Departure) :
  (forall records, data = Some records -> Forall validTimes records) ->
  In d (parseDeparturesResponse data clock) -> ~ undated d.
Proof.
  intros V I.
  destruct (response_from_record data clock d I) as (records & raw & -> & R & P).
  pose proof (V records eq_refl) as F. rewrite Forall_forall in F.
  pose proof (F raw R) as Valid.
  destruct (parseDeparture_some raw _ d P)
    as (sched & S & _ & Sd & Ed & _).
  intros [U|U].
  - rewrite Sd in U. destruct (Valid sched (or_introl S)) as [t T].
    congruence.
  - rewrite Ed in U. destruct (expected raw) as [[|c e]|] eqn:X;
      cbn [or_default] in U.
    + destruct (Valid sched (or_introl S)) as [t T]. congruence.
    + destruct (Valid (c :: e) (or_intror X)) as [t T]. congruence.
    + destruct (Valid sched (or_introl S)) as [t T]. congruence.
Qed.

(** On a whole number of minutes, on sites that were fetched and in an
    output mode that resolves, the action prints what [nextCommand] hands
    to the printer. *)
Lemma nextAction_nextCommand
  (optJson optPlain isTTY : bool) (mode : OutputMode)
  (sites : list TransportSite) (stop near : option str)
  (minutes : option Z) (clock : Z) :
  resolveOutputMode optJson optPlain isTTY = Returns mode ->
  nextAction nearest fetchDeparturesData optJson optPlain isTTY
             (Returns sites) stop near (option_map inject_Z minutes) clock
  = match nextCommand nearest fetchDeparturesData sites stop near minutes
                      clock with
    | Throws => Throws
    | Returns (site, shown) => printDepartures site shown mode
    end.
Proof.
  intros M. unfold nextAction, nextCommand. rewrite M.
  destruct (negb (truthy stop) && negb (truthy near)); [reflexivity|].
  cbn [resolveFetchedSite].
  destruct (resolveSite nearest sites stop near) as [[site|]|];
    try reflexivity.
  destruct (fetchDeparturesData (id site)) as [data|]; [|reflexivity].
  cbv zeta. f_equal. destruct minutes as [m|]; [|reflexivity].
  cbn [option_map filtered]. unfold Qeq_bool, inject_Z. cbn [Qnum Qden].
  rewrite Z.mul_1_r. change (0 * 1) with 0.
  destruct (m =? 0); [reflexivity|].
  apply filter_ext. intros d. destruct (minutesUntil d) as [k|];
    [|reflexivity].
  unfold Qle_bool. cbn [Qnum Qden ge]. now rewrite !Z.mul_1_r.
Qed.

(** X24. The action of [next] fails in these cases and in no other: both
    --json and --plain are given; neither a stop nor a place to search near
    is given; the request for the sites fails; the stop is not resolved,
    the resolver throwing or finding none; the request for the departures
    of the site resolved fails; or the output is not the pretty one (--json
    or --plain is given, or the standard output is no terminal) and one of
    the departures to print has a scheduled or an expected time that is no
    date.  The last case does not arise when every time string of the
    payload denotes a date.  With the sites fetched, one output flag at
    most, no place to search near and a stop that trims to digits, the
    action fails exactly when the request for the departures of that id
    fails or a departure to print has such a time in an output that is not
    the pretty one; with a stop that does not trim to digits and that no
    site name contains, it fails. *)
Theorem next_fails_iff
  (optJson optPlain isTTY : bool)
  (fetchedSites : outcome (list TransportSite))
  (stop near : option str) (minutes : option Q) (clock : Z) :
  let result :=
    nextAction nearest fetchDeparturesData optJson optPlain isTTY
               fetchedSites stop near minutes clock in
  let toPrint data := filtered minutes (parseDeparturesResponse data clock) in
  let notPretty := optJson = true \/ optPlain = true \/ isTTY = false in
  (result = Throws <->
   (optJson = true /\ optPlain = true) \/
   (truthy stop = false /\ truthy near = false) \/
   fetchedSites = Throws \/
   (exists sites,
       fetchedSites = Returns sites /\
       (resolveSite nearest sites stop near = Throws \/
        resolveSite nearest sites stop near = Returns None)) \/
   (exists sites site,
       fetchedSites = Returns sites /\
       resolveSite nearest sites stop near = Returns (Some site) /\
       (fetchDeparturesData (id site) = Throws \/
        exists data,
          fetchDeparturesData (id site) = Returns data /\
          notPretty /\ Exists undated (toPrint data)))) /\
  (forall data,
      (forall records, data = Some records -> Forall validTimes records) ->
      Forall (fun d => ~ undated d) (toPrint data)) /\
  (forall sites query,
      fetchedSites = Returns sites -> stop = Some query -> near = None ->
      (optJson = false \/ optPlain = false) ->
      query <> [] ->
      (allDigits (trim query) = true ->
       (result = Throws <->
        fetchDeparturesData (trim query) = Throws \/
        exists data,
          fetchDeparturesData (trim query) = Returns data /\
          notPretty /\ Exists undated (toPrint data))) /\
      (allDigits (trim query) = false ->
       (forall s, In s sites ->
                  includes (toLowerCase (name s)) (toLowerCase (trim query))
                  = false) ->
       result = Throws)).
Proof.
  intros result toPrint notPretty.
  assert (Main :
    result = Throws <->
    (optJson = true /\ optPlain = true) \/
    (truthy stop = false /\ truthy near = false) \/
    fetchedSites = Throws \/
    (exists sites,
        fetchedSites = Returns sites /\
        (resolveSite nearest sites stop near = Throws \/
         resolveSite nearest sites stop near = Returns None)) \/
    (exists sites site,
        fetchedSites = Returns sites /\
        resolveSite nearest sites stop near = Returns (Some site) /\
        (fetchDeparturesData (id site) = Throws \/
         exists data,
           fetchDeparturesData (id site) = Returns data /\
           notPretty /\ Exists undated (toPrint data)))).
  { unfold result, nextAction.
    destruct (resolveOutputMode optJson optPlain isTTY) as [mode|] eqn:M.
    2: { apply resolveOutputMode_throws in M. split; auto. }
    assert (Flags : ~ (optJson = true /\ optPlain = true)).
    { intros B. apply (resolveOutputMode_throws _ _ isTTY) in B.
      congruence. }
    pose proof (resolveOutputMode_pretty _ _ _ _ M) as Pretty.
    destruct (negb (truthy stop) && negb (truthy near)) eqn:Neither.
    { apply andb_prop in Neither. destruct Neither as [S N].
      apply negb_true_iff in S. apply negb_true_iff in N.
      split; auto. }
    assert (Given : ~ (truthy stop = false /\ truthy near = false)).
    { intros [S N]. rewrite S, N in Neither. discriminate Neither. }
    destruct fetchedSites as [sites|]; cbn [resolveFetchedSite].
    2: { split; auto. }
    destruct (resolveSite nearest sites stop near) as [[site|]|] eqn:R.
    3: { split; [|reflexivity]. intros _. do 3 right. left.
         exists sites. auto. }
    2: { split; [|reflexivity]. intros _. do 3 right. left.
         exists sites. rewrite R. auto. }
    destruct (fetchDeparturesData (id site)) as [data|] eqn:F.
    2: { split; [|reflexivity]. intros _. do 4 right.
         exists sites, site. auto. }
    cbv zeta. rewrite printDepartures_throws, Pretty. split.
    - intros [P E]. do 4 right. exists sites, site.
      split; [reflexivity|]. split; [exact R|]. right. exists data. auto.
    - intros [B | [B | [B | [B | B]]]].
      + now elim Flags.
      + now elim Given.
      + discriminate B.
      + destruct B as (sites' & E & [T|T]); injection E as <-;
          rewrite R in T; discriminate T.
      + destruct B as (sites' & site' & E & R' & B). injection E as <-.
        rewrite R in R'. injection R' as <-.
        destruct B as [T | (data' & F' & P & E)];
          rewrite F in *; [discriminate T|].
        injection F' as <-. auto. }
  split; [exact Main|]. split.
  - intros data V. apply Forall_forall. intros d I.
    apply In_filtered in I. exact (dated_response data clock d V I).
  - intros sites query -> -> -> Flags N.
    assert (Neither : ~ (truthy (Some query) = false
                         /\ truthy (@None str) = false)).
    { destruct query; [now elim N|]. intros [S _]. discriminate S. }
    assert (Both : ~ (optJson = true /\ optPlain = true)).
    { intros [J P]. destruct Flags; congruence. }
    split.
    + intros D.
      assert (R : exists site,
                 resolveSite nearest sites (Some query) None
                 = Returns (Some site) /\ id site = trim query).
      { rewrite (resolveSite_stop nearest sites query N). cbv zeta.
        rewrite D. destruct (find _ sites) as [s|] eqn:F.
        - apply find_some in F. destruct F as [_ E]. apply eqb_eq in E.
          eauto.
        - eexists. split; reflexivity. }
      destruct R as (site & R & I). rewrite Main. split.
      * intros [B | [B | [B | [B | B]]]].
        -- now elim Both.
        -- now elim Neither.
        -- discriminate B.
        -- destruct B as (sites' & E & [T|T]); injection E as <-;
             rewrite R in T; discriminate T.
        -- destruct B as (sites' & site' & E & R' & B). injection E as <-.
           rewrite R in R'. injection R' as <-. rewrite I in B. exact B.
      * intros B. do 4 right. exists sites, site.
        split; [reflexivity|]. split; [exact R|]. rewrite I. exact B.
    + intros D A. apply Main. do 3 right. left. exists sites.
      split; [reflexivity|]. right.
      rewrite (resolveSite_stop nearest sites query N). cbv zeta. rewrite D.
      rewrite (find_all_false
                 (fun site => Js.eqb (toLowerCase (name site))
                                     (toLowerCase (trim query))) sites),
        (find_all_false
           (fun site => startsWith (toLowerCase (name site))
                                   (toLowerCase (trim query))) sites),
        (find_all_false
           (fun site => includes (toLowerCase (name site))
                                 (toLowerCase (trim query))) sites);
        [reflexivity | exact A | |].
      * intros s I. destruct (startsWith _ _) eqn:E; [|reflexivity].
        apply startsWith_includes in E. rewrite (A s I) in E. discriminate.
      * intros s I. destruct (Js.eqb _ _) eqn:E; [|reflexivity].
        apply eqb_startsWith, startsWith_includes in E.
        rewrite (A s I) in E. discriminate.
Qed.

End NextActionExtras.

(** * The further properties on sample data *)

Section JourneyExtraWitnesses.
Import Js JourneyPlanner Spec JourneySpec.

(** Applies a property of the proposals of a journey to the proposal of a
    sample journey. *)
Ltac on_proposal journey :=
  let p := fresh "proposal" in
  let E := fresh "E" in
  destruct (@parseJourneyToTripProposal Host.runtime journey)
    as [p|] eqn:E; [|vm_compute in E; discriminate E];
  exists p; split; [reflexivity|].

Lemma proposal_transport_legs_witness :
  exists proposal,
    @parseJourneyToTripProposal Host.runtime Examples.journey = Some proposal /\
    exists raws,
      rawLegs Examples.journey = Some raws /\
      transportOnly (legs proposal)
      = transportOnly (@parsedLegs Host.runtime raws) /\
      routeSummary proposal
      = buildRouteSummary (@parsedLegs Host.runtime raws).
Proof.
  on_proposal Examples.journey.
  exact (@proposal_transport_legs Host.runtime Examples.journey proposal E).
Defined.

Lemma proposal_keeps_total_duration_witness :
  exists proposal,
    @parseJourneyToTripProposal Host.runtime Examples.journey = Some proposal /\
    exists raws,
      rawLegs Examples.journey = Some raws /\
      sumDurations (legs proposal)
      = sumDurations (@parsedLegs Host.runtime raws) /\
      (List.length (legs proposal)
       <= List.length (@parsedLegs Host.runtime raws))%nat.
Proof.
  on_proposal Examples.journey.
  exact (@proposal_keeps_total_duration Host.runtime Examples.journey
           proposal E).
Defined.

Lemma proposal_endpoints_witness :
  exists proposal,
    @parseJourneyToTripProposal Host.runtime Examples.journey = Some proposal /\
    exists raws firstParsed lastParsed,
      rawLegs Examples.journey = Some raws /\
      hd_error (@parsedLegs Host.runtime raws) = Some firstParsed /\
      lastOf (@parsedLegs Host.runtime raws) = Some lastParsed /\
      tripDepartureTime proposal = departureTime firstParsed /\
      tripArrivalTime proposal = arrivalTime lastParsed.
Proof.
  on_proposal Examples.journey.
  exact (@proposal_endpoints Host.runtime Examples.journey proposal E).
Defined.

(** The timed journey begins with a walk of 300 seconds to the metro. *)
Lemma walk_to_first_leg_witness :
  exists proposal,
    @parseJourneyToTripProposal Host.runtime Examples.timedJourney
    = Some proposal /\
    walkToFirstLegSeconds proposal = Fin 300.
Proof.
  on_proposal Examples.timedJourney.
  destruct (@walk_to_first_leg Host.runtime Examples.timedJourney proposal E)
    as (firstLeg & Hd & Walk & _).
  vm_compute in E. injection E as <-. simpl in Hd. injection Hd as <-.
  apply Walk; [reflexivity | discriminate].
Defined.

Lemma all_walk_journey_witness :
  exists proposal first rest,
    @parsedLegs Host.runtime [Examples.walkLeg1; Examples.walkLeg2]
    = first :: rest /\
    @parseJourneyToTripProposal Host.runtime Examples.walkJourney
    = Some proposal /\
    legs proposal = [mergedRun first rest] /\
    durationSeconds (mergedRun first rest) = sumDurations (first :: rest) /\
    routeSummary proposal = lit "walk" /\
    walkToFirstLegSeconds proposal = Fin 0.
Proof.
  destruct (@parsedLegs Host.runtime [Examples.walkLeg1; Examples.walkLeg2])
    as [|first rest] eqn:P; [vm_compute in P; discriminate P|].
  destruct (@all_walk_journey Host.runtime Examples.walkJourney
              [Examples.walkLeg1; Examples.walkLeg2] first rest)
    as (proposal & Q).
  - reflexivity.
  - exact P.
  - vm_compute in P. injection P as <- <-. repeat constructor.
  - exists proposal, first, rest. split; [reflexivity | exact Q].
Defined.

(** A journey of a leg with no transportation and a leg with no times. *)
Lemma journey_dropped_witness :
  @parseJourneyToTripProposal Host.runtime Examples.strayJourney = None.
Proof.
  apply (proj1 (@journey_dropped Host.runtime Examples.strayJourney)).
  right. exists [Examples.strayLeg; Examples.timelessLeg].
  split; [reflexivity|]. repeat constructor.
Defined.

(** 1790 seconds are 30 minutes. *)
Lemma duration_minutes_bounds_witness :
  exists proposal,
    @parseJourneyToTripProposal Host.runtime Examples.timedJourney
    = Some proposal /\
    exists m,
      durationMinutes proposal = Fin m /\ 0 <= m /\
      (-30 <= 1790 -> 60 * m - 30 <= 1790 < 60 * m + 30) /\
      (1790 < -30 -> m = 0).
Proof.
  on_proposal Examples.timedJourney.
  exact (proj2 (@duration_minutes_bounds Host.runtime Examples.timedJourney
                  proposal E) 1790 eq_refl).
Defined.

Lemma parsed_leg_invariants_witness :
  exists leg,
    @parseLegV2 Host.runtime Examples.walkLeg2 = Some leg /\
    originName leg <> [] /\ destinationName leg <> [] /\
    line leg <> Some [] /\ direction leg <> Some [] /\
    platform leg <> Some [] /\
    (forall n, duration Examples.walkLeg2 = Some n ->
               durationSeconds leg = Fin n) /\
    (duration Examples.walkLeg2 = None ->
     durationSeconds leg =
       max0 (roundDiv (sub (getTime (arrivalTime leg))
                           (getTime (departureTime leg))) 1000) /\
     lt (durationSeconds leg) (Fin 0) = false).
Proof.
  destruct (@parseLegV2 Host.runtime Examples.walkLeg2) as [leg|] eqn:E;
    [|vm_compute in E; discriminate E].
  exists leg. split; [reflexivity|].
  exact (@parsed_leg_invariants Host.runtime Examples.walkLeg2 leg E).
Defined.

End JourneyExtraWitnesses.

Section DepartureExtraWitnesses.
Import Js Transport DepartureSpec.

(** The late and the on-time record, in this order, at noon. *)
Lemma response_keeps_parsed_witness :
  List.length
    (@parseDeparturesResponse Host.runtime
       (Some [Examples.late; Examples.onTime]) Examples.noon) = 2%nat.
Proof.
  destruct (@response_keeps_parsed Host.runtime
              [Examples.late; Examples.onTime] Examples.noon) as [L _].
  rewrite L. vm_compute. reflexivity.
Defined.

Lemma valid_samples :
  Forall (@validTimes Host.runtime) [Examples.late; Examples.onTime].
Proof.
  repeat constructor; intros s [E|E]; vm_compute in E;
    try discriminate E; injection E as <-; eexists; vm_compute; reflexivity.
Defined.

Lemma response_earliest_when_valid_witness :
  Sorted notLater
    (@parseDeparturesResponse Host.runtime
       (Some [Examples.late; Examples.onTime]) Examples.noon) /\
  (forall d,
      In d (@parseDeparturesResponse Host.runtime
              (Some [Examples.late; Examples.onTime]) Examples.noon) ->
      exists m, minutesUntil d = Fin m /\ 0 <= m) /\
  exists rest,
    Permutation
      (JourneyPlanner.nonNull
         (map (fun raw => @parseDeparture Host.runtime raw
                            (mkDate (Fin Examples.noon)))
              [Examples.late; Examples.onTime]))
      (@parseDeparturesResponse Host.runtime
         (Some [Examples.late; Examples.onTime]) Examples.noon ++ rest) /\
    forall a b,
      In a (@parseDeparturesResponse Host.runtime
              (Some [Examples.late; Examples.onTime]) Examples.noon) ->
      In b rest -> notLater a b.
Proof.
  exact (@response_earliest_when_valid Host.runtime
           [Examples.late; Examples.onTime] Examples.noon valid_samples).
Defined.

(** The late record at noon: two minutes to go. *)
Lemma minutes_until_bounds_witness :
  exists d,
    @parseDeparture Host.runtime Examples.late (mkDate (Fin Examples.noon))
    = Some d /\
    -90000 <= (Examples.noon + 120000) - Examples.noon /\
    exists m,
      minutesUntil d = Fin m /\ 0 <= m /\
      (-30000 <= (Examples.noon + 120000) - Examples.noon ->
       60000 * m - 30000 <= (Examples.noon + 120000) - Examples.noon
       < 60000 * m + 30000) /\
      ((Examples.noon + 120000) - Examples.noon < -30000 -> m = 0).
Proof.
  destruct (@parseDeparture Host.runtime Examples.late
              (mkDate (Fin Examples.noon))) as [d|] eqn:E;
    [|vm_compute in E; discriminate E].
  exists d. split; [reflexivity|].
  apply (@minutes_until_bounds Host.runtime Examples.late Examples.noon
           (Examples.noon + 120000) d E).
  vm_compute in E. injection E as <-. vm_compute. reflexivity.
Defined.

End DepartureExtraWitnesses.

Section ResolverExtraWitnesses.
Import Js Transport Cli Spec Commands.

(** "xyz" is in no site name; "9001" is the id of T-Centralen; when the
    request for the sites fails, so does the resolver. *)
Lemma resolveSite_sound_witness :
  @resolveFetchedSite Host.runtime Examples.noNearest
    (Returns Examples.sites) (Some (lit "xyz")) None = Returns None /\
  (exists site,
      @resolveFetchedSite Host.runtime Examples.noNearest
        (Returns Examples.sites) (Some (lit "9001")) None
      = Returns (Some site) /\
      id site = lit "9001") /\
  @resolveFetchedSite Host.runtime Examples.noNearest Throws
    (Some (lit "9001")) None = Throws.
Proof.
  destruct (@resolveSite_sound Host.runtime Examples.noNearest
              (Returns Examples.sites) (lit "xyz")) as (_ & Fetched).
  destruct (Fetched Examples.sites eq_refl) as (_ & Named).
  destruct (@resolveSite_sound Host.runtime Examples.noNearest
              (Returns Examples.sites) (lit "9001")) as (_ & Fetched').
  destruct (Fetched' Examples.sites eq_refl) as (Numeric & _).
  destruct (@resolveSite_sound Host.runtime Examples.noNearest
              Throws (lit "9001")) as (Fails & _).
  split; [|split].
  - destruct Named as [None_ _]; [discriminate | reflexivity|].
    apply None_. intros s I C. apply includes_substring in C.
    repeat (destruct I as [<-|I]; [vm_compute in C; discriminate C|]).
    destruct I.
  - destruct Numeric as (site & R & I & _); [discriminate | reflexivity|].
    exists site. split; [exact R | exact I].
  - apply Fails. reflexivity.
Defined.

(** Of the two sites of the sample, A is nearest to (59.34, 18.07). *)
Lemma findNearestSite_first_minimum_witness :
  findNearestSite Examples.flatDistance [Examples.siteB; Examples.siteA]
    (5934 # 100) (1807 # 100) = Some Examples.siteA /\
  exists c before after,
    [Examples.siteB; Examples.siteA] = before ++ Examples.siteA :: after /\
    coord Examples.siteA = Some c /\
    (forall s c', In s before -> coord s = Some c' ->
       (Examples.flatDistance (5934 # 100) (1807 # 100) (lat c) (lon c)
        < Examples.flatDistance (5934 # 100) (1807 # 100) (lat c') (lon c'))%Q)
    /\
    (forall s c', In s after -> coord s = Some c' ->
       (Examples.flatDistance (5934 # 100) (1807 # 100) (lat c) (lon c)
        <= Examples.flatDistance (5934 # 100) (1807 # 100) (lat c')
                                 (lon c'))%Q).
Proof.
  split; [vm_compute; reflexivity|].
  apply (proj2 (findNearestSite_first_minimum Examples.flatDistance
                  (5934 # 100) (1807 # 100)
                  [Examples.siteB; Examples.siteA])).
  vm_compute. reflexivity.
Defined.

End ResolverExtraWitnesses.

Section OriginExtraWitnesses.
Import Js Config OriginSpec Commands.

Lemma resolveOrigin_trimmed_witness :
  lit "Odenplan" <> [] /\ trim (lit "Odenplan") = lit "Odenplan" /\
  (present (Some (lit "  ")) (lit "Odenplan") \/
   present (Some (lit " Odenplan ")) (lit "Odenplan") \/
   exists config, readConfig Unreadable = Returns config /\
                  present (origin config) (lit "Odenplan")).
Proof.
  apply (resolveOrigin_trimmed (Some (lit "  ")) (Some (lit " Odenplan "))
           Unreadable (lit "Odenplan")).
  vm_compute. reflexivity.
Defined.

(** Nothing on the command line and a blank SLCLI_ORIGIN: an unreadable
    config file is an error, a missing one is not. *)
Lemma resolveOrigin_throws_witness :
  resolveOrigin None (Some (lit " ")) Unreadable = Throws /\
  resolveOrigin None (Some (lit " ")) NoEntry = Returns None.
Proof.
  assert (A : absent None) by (intros s E; discriminate E).
  assert (B : absent (Some (lit " "))).
  { intros s E. injection E as <-. repeat constructor. }
  split.
  - apply (proj2 (resolveOrigin_throws None (Some (lit " ")) Unreadable)
             A B).
    reflexivity.
  - apply (proj2 (resolveOrigin_throws None (Some (lit " ")) NoEntry) A B).
    reflexivity.
Defined.

(** Setting home in a config file that did not exist. *)
Lemma config_set_then_get_witness :
  exists file',
    configSet true (lit "home") (lit "Slussen") NoEntry = Returns file' /\
    configGet (lit "home") file' = Returns (Some (lit "Slussen")) /\
    forall other, other <> lit "home" -> assertConfigKey other = true ->
                  configGet other file' = configGet other NoEntry.
Proof.
  apply (config_set_then_get (lit "home") (lit "Slussen") NoEntry);
    [reflexivity | discriminate].
Defined.

Lemma config_commands_fail_iff_witness :
  configSet true (lit "colour") (lit "red") NoEntry = Throws /\
  configGet (lit "origin") Unreadable = Throws.
Proof.
  destruct (config_commands_fail_iff true (lit "colour") (lit "red") NoEntry)
    as [Set_ _].
  destruct (config_commands_fail_iff true (lit "origin") (lit "red")
              Unreadable) as [_ Get_].
  split.
  - apply Set_. left. intros [E|[E|[E|E]]]; discriminate E.
  - apply Get_. now right.
Defined.

Lemma config_set_then_resolveOrigin_witness :
  resolveOrigin None None
    (Parsed (mkConfig (Some (lit " Odenplan ")) None None None))
  = Returns (Some (lit "Odenplan")).
Proof.
  destruct (config_set_then_resolveOrigin (lit "origin") (lit " Odenplan ")
              NoEntry
              (Parsed (mkConfig (Some (lit " Odenplan ")) None None None))
              None None eq_refl) as [Origin _].
  destruct Origin as [Present _];
    [reflexivity | intros s E; discriminate E | intros s E; discriminate E|].
  apply Present. exists (lit " Odenplan ").
  split; [reflexivity|]. split; [reflexivity | discriminate].
Defined.

End OriginExtraWitnesses.

Section StopFinderExtraWitnesses.
Import Js StopFinder.

(** Of three locations with none flagged, the first of quality 900 is
    chosen. *)
Lemma resolveLocation_choice_witness :
  exists locs loc before after,
    @parseStopFinderResponse Host.runtime
      (Some [Examples.location "1" "Oden" (Some 500) false;
             Examples.location "2" "Odenplan" (Some 900) false;
             Examples.location "3" "Odengatan" (Some 900) false]) = locs /\
    resolveLocation locs = Some loc /\ id loc = lit "2" /\
    locs = before ++ loc :: after /\
    (forall b, In b before -> qualityOf b < qualityOf loc) /\
    (forall a, In a after -> qualityOf a <= qualityOf loc).
Proof.
  eexists. 
  destruct (resolveLocation_choice
              (@parseStopFinderResponse Host.runtime
                 (Some [Examples.location "1" "Oden" (Some 500) false;
                        Examples.location "2" "Odenplan" (Some 900) false;
                        Examples.location "3" "Odengatan" (Some 900) false])))
    as (_ & _ & Quality).
  destruct Quality as (loc & before & after & R & E & B & A).
  - intros l I. vm_compute in I.
    repeat (destruct I as [<-|I]; [reflexivity|]). destruct I.
  - vm_compute. discriminate.
  - exists loc, before, after. split; [reflexivity|]. split; [exact R|].
    split; [|auto]. vm_compute in R. injection R as <-. reflexivity.
Defined.

(** Of two raw locations, the one with an empty id is left out. *)
Lemma parseStopFinderResponse_kept_witness :
  (List.length
     (@parseStopFinderResponse Host.runtime
        (Some [Examples.location "1" "Oden" None true;
               Examples.location "" "Nameless" None false])) <= 2)%nat /\
  Forall (fun loc => id loc <> [] /\ label loc <> [])
    (@parseStopFinderResponse Host.runtime
       (Some [Examples.location "1" "Oden" None true;
              Examples.location "" "Nameless" None false])).
Proof.
  destruct (@parseStopFinderResponse_kept Host.runtime
              (Some [Examples.location "1" "Oden" None true;
                     Examples.location "" "Nameless" None false]))
    as (_ & Short & Kept).
  split; [exact (Short _ eq_refl)|].
  apply Forall_forall. intros loc I.
  destruct (Kept loc I) as (Ni & Nl & _). split; assumption.
Defined.

End StopFinderExtraWitnesses.

Section RequestExtraWitnesses.
Import Js StopFinder Commands.

(** Noon of 2026-01-17 on the UTC host. *)
Lemma itd_formats_read_back_witness :
  (List.length (@formatItdTime Examples.utc Examples.noon) = 4%nat /\
   Host.digits 0 (@formatItdTime Examples.utc Examples.noon) = Some 1200) /\
  (List.length (@formatItdDate Examples.utc Examples.noon) = 8%nat /\
   Host.digits 0 (@formatItdDate Examples.utc Examples.noon)
   = Some 20260117).
Proof.
  destruct (@itd_formats_read_back Examples.utc Examples.noon)
    as [Time_ Date_].
  split.
  - apply Time_; vm_compute; split; discriminate.
  - apply Date_; vm_compute; split; discriminate.
Defined.

(** Two and a half trips asked for stay two and a half; seven trips asked
    for, three requested. *)
Lemma requested_trips_clamped_witness :
  requestedTrips (Some (5 # 2)) = (5 # 2) /\
  getParam (lit "calc_number_of_trips")
    (@fetchTripsParams Examples.utc (fun _ => [])
       (ById (lit "A") None None) (ById (lit "B") None None)
       (mkTripSearchOptions (Some 7) None None None None))
  = Some (lit "3").
Proof.
  destruct (@requested_trips_clamped Examples.utc (fun _ => [])
              (ById (lit "A") None None) (ById (lit "B") None None)
              (mkTripSearchOptions (Some 7) None None None None)
              (Some (5 # 2)))
    as ((_ & _ & _ & Given) & k & G & K & _).
  split.
  - destruct (Given (5 # 2) eq_refl) as (Within & _).
    apply Within; discriminate.
  - rewrite G. vm_compute in K. injection K as ->. reflexivity.
Defined.

Lemma formatLocalTime_shape_witness :
  exists hh mm,
    @formatLocalTime Examples.utc (mkDate (Fin Examples.noon))
    = hh ++ lit ":" ++ mm /\
    List.length hh = 2%nat /\ List.length mm = 2%nat /\
    Host.digits 0 hh = Some 12 /\ Host.digits 0 mm = Some 0.
Proof.
  apply (proj1 (@formatLocalTime_shape Examples.utc) Examples.noon);
    vm_compute; split; discriminate.
Defined.

End RequestExtraWitnesses.

Section NextExtraWitnesses.
Import Js Transport Cli Commands.

(** [next --stop 9001 --minutes 1] at noon, on the late, the on-time and
    the unparseable record. *)
Lemma next_shows_within_minutes_witness :
  exists site shown data,
    @nextCommand Host.runtime Examples.noNearest Examples.fetched
      Examples.sites (Some (lit "9001")) None (Some 1) Examples.noon
    = Returns (site, shown) /\
    Examples.fetched (id site) = Returns data /\
    forall d, In d shown <->
              In d (@parseDeparturesResponse Host.runtime data Examples.noon)
              /\ exists k, minutesUntil d = Fin k /\ k <= 1.
Proof.
  destruct (@nextCommand Host.runtime Examples.noNearest Examples.fetched
              Examples.sites (Some (lit "9001")) None (Some 1) Examples.noon)
    as [[site shown]|] eqn:E; [|vm_compute in E; discriminate E].
  destruct (@next_shows_within_minutes Host.runtime Examples.noNearest
              Examples.fetched Examples.sites (Some (lit "9001")) None
              (Some 1) Examples.noon site shown E) as (data & F & _ & Bound).
  exists site, shown, data. split; [reflexivity|]. split; [exact F|].
  apply (Bound 1 eq_refl). discriminate.
Defined.

(** [next --stop 9001] at noon, on a payload that holds the unparseable
    record: with --json the action fails, on a terminal with no flag it
    prints. *)
Lemma next_fails_iff_witness :
  @nextAction Host.runtime Examples.utc Examples.noNearest Examples.fetched
    true false true (Returns Examples.sites) (Some (lit "9001")) None None
    Examples.noon = Throws /\
  @nextAction Host.runtime Examples.utc Examples.noNearest Examples.fetched
    false false true (Returns Examples.sites) (Some (lit "9001")) None None
    Examples.noon <> Throws.
Proof.
  split.
  - destruct (@next_fails_iff Host.runtime Examples.utc Examples.noNearest
                Examples.fetched true false true (Returns Examples.sites)
                (Some (lit "9001")) None None Examples.noon)
      as (_ & _ & Stop).
    destruct (Stop Examples.sites (lit "9001") eq_refl eq_refl eq_refl)
      as (Numeric & _); [now right | discriminate|].
    apply Numeric; [reflexivity|]. right.
    exists (Some [Examples.late; Examples.onTime; Examples.unparseable]).
    split; [reflexivity|]. split; [now left|].
    apply Exists_exists.
    exists (mkDeparture metro (lit "17") (lit "Akeshov") (mkDate NaN)
              (mkDate NaN) NaN false (Some (lit "2")) false).
    split; [vm_compute; auto | now left].
  - destruct (@next_fails_iff Host.runtime Examples.utc Examples.noNearest
                Examples.fetched false false true (Returns Examples.sites)
                (Some (lit "9001")) None None Examples.noon)
      as (_ & _ & Stop).
    destruct (Stop Examples.sites (lit "9001") eq_refl eq_refl eq_refl)
      as (Numeric & _); [now left | discriminate|].
    intros T. apply Numeric in T; [|reflexivity].
    destruct T as [T | (data & _ & [J | [P | Y]] & _)]; discriminate.
Defined.

End NextExtraWitnesses.

Section TripsOutputExtraWitnesses.
Import Js JourneyPlanner JourneySpec Commands.

(** The proposal of the sample journey prints, with one change. *)
Lemma buildTripsOutput_throws_iff_witness :
  exists outs,
    @buildTripsOutput Examples.utc
      (@parseTripsResponse Host.runtime (Some [Examples.journey]))
    = Returns outs /\
    Forall2 (fun trip out =>
               summary out = routeSummary trip /\
               outMinutes out = durationMinutes trip /\
               changes out =
                 Z.max 0 (Z.of_nat (List.length (transportOnly (legs trip)))
                          - 1) /\
               List.length (outLegs out) = List.length (legs trip))
            (@parseTripsResponse Host.runtime (Some [Examples.journey]))
            outs.
Proof.
  destruct (@buildTripsOutput Examples.utc
              (@parseTripsResponse Host.runtime (Some [Examples.journey])))
    as [outs|] eqn:E; [|vm_compute in E; discriminate E].
  exists outs. split; [reflexivity|].
  exact (proj2 (@buildTripsOutput_throws_iff Examples.utc
                  (@parseTripsResponse Host.runtime
                     (Some [Examples.journey]))) outs E).
Defined.

Lemma output_counts_parsed_legs_witness :
  exists proposal out,
    @parseJourneyToTripProposal Host.runtime Examples.journey = Some proposal /\
    @tripOutput Examples.utc proposal = Returns out /\
    exists raws,
      rawLegs Examples.journey = Some raws /\
      changes out =
        Z.max 0 (Z.of_nat (List.length
                             (transportOnly (@parsedLegs Host.runtime raws)))
                 - 1) /\
      summary out = buildRouteSummary (@parsedLegs Host.runtime raws) /\
      (List.length (outLegs out)
       <= List.length (@parsedLegs Host.runtime raws))%nat.
Proof.
  destruct (@parseJourneyToTripProposal Host.runtime Examples.journey)
    as [proposal|] eqn:P; [|vm_compute in P; discriminate P].
  destruct (@tripOutput Examples.utc proposal) as [out|] eqn:T.
  - exists proposal, out. split; [reflexivity|]. split; [exact T|].
    exact (@output_counts_parsed_legs Host.runtime Examples.utc
             Examples.journey proposal out P T).
  - exfalso. vm_compute in P. injection P as <-. vm_compute in T.
    discriminate T.
Defined.

End TripsOutputExtraWitnesses.
